(** * ALLCools BaseDS: chromosome-level positional dataset

    A shallow embedding of [ALLCools/mcds/base_ds.py]: interval expansion
    ([_regions_to_pos]), the codebook ([Codebook]) and the per-chromosome
    dataset ([BaseDSChrom]) with its fetch family and region aggregation.

    Numpy arrays are lists over [Z]; the explicit [uint32] casts of the
    source are written out as reductions modulo [2^32].  Attribute
    dictionaries are Python objects that [xarray] shares between a dataset
    and the datasets selected from it, so they live in a store of
    dictionaries and a dataset carries a reference into it.  Exceptions are
    an error result. *)

From stdpp Require Import gmap strings list sorting.
From Stdlib Require Import ZArith Lia.

Open Scope Z_scope.

(** ** Exceptions and results *)

Inductive exn : Type :=
  | ValueError (msg : string)
  | AssertionError (msg : string)
  | KeyError (key : string)
  | IndexError
  | TypeError
  | InvalidIndexError
  | RecursionError
  | TypingError.

Inductive result (A : Type) : Type :=
  | Ok (a : A)
  | Err (e : exn).
Arguments Ok {A} a.
Arguments Err {A} e.

Definition is_ok {A} (r : result A) : bool :=
  match r with Ok _ => true | Err _ => false end.

#[global] Instance result_ret : MRet result := fun A a => Ok a.
#[global] Instance result_bind : MBind result := fun A B f r =>
  match r with Ok a => f a | Err e => Err e end.
#[global] Instance result_fmap : FMap result := fun A B f r =>
  match r with Ok a => Ok (f a) | Err e => Err e end.

(** Left-to-right loop over a list with early exit on an exception. *)
Fixpoint foldM {A B} (f : A -> B -> result A) (a : A) (l : list B) : result A :=
  match l with
  | [] => Ok a
  | b :: l => a' ← f a b; foldM f a' l
  end.

(** ** Fixed-width integers and array primitives *)

(** [astype("uint32")] and arithmetic in [np.uint32]. *)
Definition uint32 (z : Z) : Z := z mod 2 ^ 32.

(** [np.arange(start, stop, dtype=np.uint32)]: empty when [stop <= start]. *)
Definition arange (start stop : Z) : list Z := uint32 <$> seqZ start (stop - start).

(** [np.zeros(n)]: a negative dimension is refused. *)
Definition np_zeros (n : Z) : result (list Z) :=
  if decide (0 <= n) then Ok (replicate (Z.to_nat n) 0)
  else Err (ValueError "negative dimensions are not allowed").

(** [arr.sum()] of an integer array; the accumulator is 64 bits wide, which
    an array that fits in memory cannot overflow. *)
Definition np_sum (l : list Z) : Z := foldr Z.add 0 l.

(** [buf[lo:hi] = vals] for non-negative bounds: the slice is clipped to the
    buffer and the assignment needs as many values as the slice has cells. *)
Definition assign_slice (buf : list Z) (lo hi : Z) (vals : list Z) : result (list Z) :=
  let n := Z.of_nat (length buf) in
  let lo' := Z.min lo n in
  let hi' := Z.max lo' (Z.min hi n) in
  if decide (Z.of_nat (length vals) = hi' - lo')
  then Ok (take (Z.to_nat lo') buf ++ vals ++ drop (Z.to_nat hi') buf)
  else Err (ValueError "cannot assign slice from input of different size").

(** ** Interval expansion: [_regions_to_pos]

    The function is generic in the integer type of its argument; [wrap] is
    the arithmetic of that type, [uint32] for the array built by
    [fetch_regions].

    The compiled function takes the scalar [end - start] of the loop in a
    wider integer than the array [delta], so the two differ on an interval
    with [end < start], and so does the cursor after it.  The definitions
    below follow the code on arrays in which every interval has
    [start <= end], and the statements about the expansion keep to such
    arrays. *)

(** One iteration of [for start, end in regions]. *)
Definition regions_to_pos_step (wrap : Z -> Z) (st : list Z * Z) (r : Z * Z)
  : result (list Z * Z) :=
  let '(pos_sel, cur_pos) := st in
  let '(start, end_) := r in
  let length := wrap (end_ - start) in
  pos_sel' ← assign_slice pos_sel cur_pos (cur_pos + length) (arange start end_);
  Ok (pos_sel', cur_pos + length).

Definition _regions_to_pos (wrap : Z -> Z) (regions : list (Z * Z)) : result (list Z) :=
  let delta := (fun r : Z * Z => wrap (r.2 - r.1)) <$> regions in
  pos_sel ← np_zeros (np_sum delta);
  st ← foldM (regions_to_pos_step wrap) (pos_sel, 0) regions;
  Ok st.1.

(** The expansion the loop is meant to compute: the runs of the intervals,
    one after the other, in input order. *)
Definition runs (regions : list (Z * Z)) : list Z :=
  concat ((fun r : Z * Z => seqZ r.1 (r.2 - r.1)) <$> regions).

Definition total_length (regions : list (Z * Z)) : Z :=
  np_sum ((fun r : Z * Z => r.2 - r.1) <$> regions).

Definition interval_ok (r : Z * Z) : Prop := 0 <= r.1 /\ r.1 < r.2 /\ r.2 < 2 ^ 32.

(** ** Python values, strings and sequences *)

(** The values kept in an attribute dictionary. *)
Inductive pyval : Type :=
  | VBool (b : bool)
  | VInt (z : Z)
  | VStr (s : string).

#[global] Instance pyval_eq_dec : EqDecision pyval.
Proof. solve_decision. Defined.

(** Truth value of an object in [if obj:]. *)
Definition truthy (v : pyval) : bool :=
  match v with
  | VBool b => b
  | VInt z => negb (z =? 0)
  | VStr s => negb (String.eqb s "")
  end.

(** Integer operand of an arithmetic expression; [bool] is a subclass of
    [int], a string operand is a [TypeError]. *)
Definition as_int (v : pyval) : result Z :=
  match v with
  | VBool b => Ok (Z.b2z b)
  | VInt z => Ok z
  | VStr _ => Err TypeError
  end.

(** [v == z] for an integer [z]. *)
Definition eq_int (v : pyval) (z : Z) : bool :=
  match v with
  | VBool b => Z.b2z b =? z
  | VInt z' => z' =? z
  | VStr _ => false
  end.

(** [str.upper()] and [len] on ASCII text, where a character is a byte and
    upper-casing maps a letter to a letter.  Outside ASCII Python counts
    code points and may change the length of a string ([SS] for the sharp
    s); the statements that depend on the length of a pattern keep to
    patterns for which [isascii] holds. *)
Definition upper_ascii (c : Ascii.ascii) : Ascii.ascii :=
  let n := Ascii.nat_of_ascii c in
  if ((97 <=? n) && (n <=? 122))%nat then Ascii.ascii_of_nat (n - 32) else c.

Fixpoint upper (s : string) : string :=
  match s with
  | EmptyString => EmptyString
  | String c s => String (upper_ascii c) (upper s)
  end.

(** [str.isascii()]. *)
Fixpoint isascii (s : string) : bool :=
  match s with
  | EmptyString => true
  | String c s => (Ascii.nat_of_ascii c <? 128)%nat && isascii s
  end.

(** [seq[i]] for an integer [i]: negative indices count from the end. *)
Definition py_index (n i : Z) : result nat :=
  if decide (0 <= i < n) then Ok (Z.to_nat i)
  else if decide (- n <= i < 0) then Ok (Z.to_nat (i + n))
  else Err IndexError.

Definition str_getitem (s : string) (i : Z) : result Ascii.ascii :=
  k ← py_index (Z.of_nat (String.length s)) i;
  match String.get k s with
  | Some c => Ok c
  | None => Err IndexError
  end.

Definition list_getitem {A} (l : list A) (i : Z) : result A :=
  k ← py_index (Z.of_nat (length l)) i;
  match l !! k with
  | Some x => Ok x
  | None => Err IndexError
  end.

(** [seq[lo:hi]]: [slice.indices] with step one. *)
Definition slice_index (n i : Z) : Z :=
  if decide (i < 0) then Z.max 0 (i + n) else Z.min i n.

Definition list_slice {A} (l : list A) (lo hi : Z) : list A :=
  let n := Z.of_nat (length l) in
  let a := Z.to_nat (slice_index n lo) in
  let b := Z.to_nat (slice_index n hi) in
  take (b - a) (drop a l).

(** The builtins [min] and [max] on a sequence of integers. *)
Definition py_min (l : list Z) : result Z :=
  match l with
  | [] => Err (ValueError "min() arg is an empty sequence")
  | x :: l => Ok (foldl Z.min x l)
  end.

Definition py_max (l : list Z) : result Z :=
  match l with
  | [] => Err (ValueError "max() arg is an empty sequence")
  | x :: l => Ok (foldl Z.max x l)
  end.

(** [np.sort]. *)
Definition np_sort (l : list Z) : list Z := merge_sort Z.le l.

(** Monadic map over a list, left to right. *)
Fixpoint mapM {A B} (f : A -> result B) (l : list A) : result (list B) :=
  match l with
  | [] => Ok []
  | a :: l => b ← f a; bs ← mapM f l; Ok (b :: bs)
  end.

(** ** The store of attribute dictionaries

    [Dataset.attrs] is a dictionary object.  [xarray] hands the very same
    object to the dataset that [sel] returns, which is why the source copies
    it before writing to it.  A dataset holds a reference to its dictionary;
    the dictionaries are in the store. *)

Definition M (A : Type) : Type :=
  gmap nat (gmap string pyval) -> result A * gmap nat (gmap string pyval).

#[global] Instance M_ret : MRet M := fun A a σ => (Ok a, σ).
#[global] Instance M_bind : MBind M := fun A B f m σ =>
  match m σ with
  | (Ok a, σ') => f a σ'
  | (Err e, σ') => (Err e, σ')
  end.

Definition raise {A} (e : exn) : M A := fun σ => (Err e, σ).

(** A computation that does not touch the store. *)
Definition lift {A} (r : result A) : M A := fun σ => (r, σ).

(** The dictionary behind a reference. *)
Definition get_attrs (l : nat) : M (gmap string pyval) := fun σ => (Ok (σ !!! l), σ).

(** In-place update of the dictionary behind a reference. *)
Definition modify_attrs (l : nat) (f : gmap string pyval -> gmap string pyval) : M unit :=
  fun σ => (Ok tt, <[l := f (σ !!! l)]> σ).

(** [d.copy()]: a new dictionary object with the same entries. *)
Definition copy_attrs (l : nat) : M nat :=
  fun σ => let l' := fresh (dom σ) in (Ok l', <[l' := σ !!! l]> σ).

(** ** Datasets *)

(** What the dataset holds at one position: the counts of the [data]
    variable, flattened over its other dimensions, and the codebook values,
    one per [mc_type]. *)
Record column : Type := Column {
  col_data : list Z;
  col_codebook : list Z;
}.

(** A [BaseDSChrom].  [ds_pos] is the coordinate of the [pos] dimension when
    there is one; a dataset as opened from the store has a bare [pos]
    dimension, and [_fetch_positions] attaches the coordinate. *)
Record BaseDSChrom : Type := Dataset {
  ds_attrs : nat;
  ds_pos : option (list Z);
  ds_mc_type : list string;
  ds_width : nat;
  ds_cols : list column;
}.

Definition with_attrs (ds : BaseDSChrom) (l : nat) : BaseDSChrom :=
  Dataset l (ds_pos ds) (ds_mc_type ds) (ds_width ds) (ds_cols ds).

Definition with_pos (ds : BaseDSChrom) (pos : list Z) : BaseDSChrom :=
  Dataset (ds_attrs ds) (Some pos) (ds_mc_type ds) (ds_width ds) (ds_cols ds).

(** [get_index("pos")]: the coordinate, or the default range index of a bare
    dimension. *)
Definition get_index (ds : BaseDSChrom) : list Z :=
  match ds_pos ds with
  | Some idx => idx
  | None => seqZ 0 (Z.of_nat (length (ds_cols ds)))
  end.

(** The properties [continuous], [offset] and [chrom_size]. *)
Definition continuous (self : BaseDSChrom) : M pyval :=
  d ← get_attrs (ds_attrs self);
  mret (default (VBool false) (d !! "continuous")).

Definition offset (self : BaseDSChrom) : M pyval :=
  d ← get_attrs (ds_attrs self);
  mret (default (VInt 0) (d !! "offset")).

Definition attr (self : BaseDSChrom) (key : string) : M pyval :=
  d ← get_attrs (ds_attrs self);
  match d !! key with
  | Some v => mret v
  | None => raise (KeyError key)
  end.

Definition chrom_size (self : BaseDSChrom) : M pyval := attr self "chrom_size".

(** The setter of [continuous]. *)
Definition set_continuous (self : BaseDSChrom) (value : pyval) : M unit :=
  match value with
  | VBool b =>
      modify_attrs (ds_attrs self) (fun d =>
        let d := <["continuous" := VBool b]> d in
        if b then d else delete "offset" d)
  | _ => raise (AssertionError "continuous must be a boolean.")
  end.

(** [obj.attrs = obj.attrs.copy()]. *)
Definition own_attrs (obj : BaseDSChrom) : M BaseDSChrom :=
  l ← copy_attrs (ds_attrs obj);
  mret (with_attrs obj l).

(** ** Label-based selection: [Dataset.sel] along [pos]

    On a bare dimension [sel] indexes by position, like [isel].  On a
    dimension with a coordinate it looks the labels up in the pandas index. *)

(** [Index.get_indexer]: the index has to be unique, and [sel] turns a label
    that is not found into a [KeyError]. *)
Definition get_indexer (idx keys : list Z) : result (list nat) :=
  if decide (NoDup idx) then
    mapM (fun k =>
            match list_find (fun x => x = k) idx with
            | Some (i, _) => Ok i
            | None => Err (KeyError "not all values found in index 'pos'")
            end) keys
  else Err InvalidIndexError.

Definition take_cols (cols : list column) (ixs : list nat) : result (list column) :=
  mapM (fun i => match cols !! i with Some c => Ok c | None => Err IndexError end) ixs.

(** [self.sel(pos=keys)] for an integer array [keys]. *)
Definition sel_array (self : BaseDSChrom) (keys : list Z) : result BaseDSChrom :=
  match ds_pos self with
  | None =>
      cols ← mapM (list_getitem (ds_cols self)) keys;
      Ok (Dataset (ds_attrs self) None (ds_mc_type self) (ds_width self) cols)
  | Some idx =>
      ixs ← get_indexer idx keys;
      cols ← take_cols (ds_cols self) ixs;
      Ok (Dataset (ds_attrs self) (Some keys) (ds_mc_type self) (ds_width self) cols)
  end.

(** ** Region tables and aggregated datasets *)

Inductive label : Type :=
  | LInt (z : Z)
  | LStr (s : string).

#[global] Instance label_eq_dec : EqDecision label.
Proof. solve_decision. Defined.

(** A regions dataframe with the two columns (start, end): the name of its
    index and, per row, the index label and the two values.  A dataframe
    with three columns reaches the code below only through the pandas row
    filter on its first column, which is not part of this model. *)
Record regions_table : Type := Table {
  tbl_index_name : option string;
  tbl_rows : list (label * (Z * Z));
}.

(** [_regions_to_pos(regions=regions)] with the regions dataframe as it is.
    [_regions_to_pos] is compiled by [numba.njit]; a pandas dataframe has no
    type there, and the call raises the [TypingError] of numba when it is
    dispatched, before the body runs. *)
Definition _regions_to_pos_dataframe (regions : regions_table) : result (list Z) :=
  Err TypingError.

(** The [data] variable of the dataset returned by [get_region_ds]: the name
    of the region dimension, its labels and one vector of sums per label. *)
Record region_ds : Type := RegionDS {
  rd_dim : string;
  rd_labels : list label;
  rd_data : list (list Z);
}.

(** A float that is either an integer value or [nan] ([Index.min] of an
    empty index); every comparison with [nan] is false. *)
Inductive number : Type :=
  | Num (z : Z)
  | NaN.

Definition num_ltb (a b : number) : bool :=
  match a, b with
  | Num x, Num y => x <? y
  | _, _ => false
  end.

Definition num_add (a : number) (z : Z) : number :=
  match a with Num x => Num (x + z) | NaN => NaN end.

Definition index_min (idx : list Z) : number :=
  match idx with [] => NaN | x :: l => Num (foldl Z.min x l) end.

Definition index_max (idx : list Z) : number :=
  match idx with [] => NaN | x :: l => Num (foldl Z.max x l) end.

(** [Index.intersection]: the values of [a] that occur in [b], once each. *)
Definition index_intersection (a b : list Z) : list Z :=
  remove_dups (filter (fun p => p ∈ b) a).

(** [range(0, stop, step)] for a positive step. *)
Definition py_range (stop step : Z) : list Z :=
  (fun k : nat => Z.of_nat k * step) <$> seq 0 (Z.to_nat ((stop + step - 1) / step)).

(** The bin edges of the fixed-size binning. *)
Definition fixed_bins (chrom_size bin_size : Z) (region_start region_end : number)
  : result (list Z) :=
  let bins :=
    filter (fun i : Z => negb (num_ltb (Num i) region_start || num_ltb region_end (Num i)))
           (py_range chrom_size bin_size) in
  last_ ← list_getitem bins (-1);
  let bins :=
    match region_end with
    | Num e => if last_ <? e then bins ++ [e] else bins
    | NaN => bins
    end in
  first ← list_getitem bins 0;
  let bins :=
    match region_start with
    | Num s => if s <? first then s :: bins else bins
    | NaN => bins
    end in
  Ok bins.

(** [pd.cut(x, bins, right=True, include_lowest=True)] for one value: the
    number of the interval [(bins[i], bins[i+1]]] holding [x], the first
    interval including its left edge; [None] when no interval holds it. *)
Definition cut (bins : list Z) (x : Z) : option nat :=
  let id :=
    if decide (head bins = Some x) then 1%nat
    else length (filter (fun b => b < x) bins) in
  if decide (id = 0%nat \/ id = length bins) then None else Some (id - 1)%nat.

Definition zero_cell (width : nat) : list Z := replicate width 0.

(** The sum of two count vectors.  The sums are exact integers; the code
    adds in the integer type of the counts and turns the result into
    [float64] when some bin has no position, which agrees with the exact
    sum as long as the totals stay non-negative and below [2^53]. *)
Definition add_cells (a b : list Z) : list Z := zip_with Z.add a b.

(** The sum over the positions of one group; [None] is the [nan] that
    [xarray] puts at a bin without any position. *)
Definition group_sum (width : nat) (bins pos : list Z) (cells : list (list Z)) (i : nat)
  : option (list Z) :=
  let members :=
    snd <$> filter (fun pc : Z * list Z => cut bins pc.1 = Some i) (zip pos cells) in
  match members with
  | [] => None
  | _ => Some (foldr add_cells (zero_cell width) members)
  end.

(** [data.groupby_bins("pos", bins, labels=labels, right=True,
    include_lowest=True).sum(dim="pos")]. *)
Definition groupby_bins_sum (width : nat) (bins : list Z) (labels : list label)
    (pos : list Z) (cells : list (list Z)) : result (list (option (list Z))) :=
  if decide (Sorted Z.le bins) then
    if decide (NoDup bins \/ length bins = 2%nat) then
      if decide (NoDup labels) then
        if decide (Forall (fun p => cut bins p = None) pos)
        then Err (ValueError "None of the data falls within bins")
        else Ok (group_sum width bins pos cells <$> seq 0 (length labels))
      else Err (ValueError "labels must be unique if ordered=True")
    else Err (ValueError "Bin edges must be unique")
  else Err (ValueError "bins must increase monotonically.").

(** [fillna(0)]. *)
Definition fillna0 (width : nat) (x : option (list Z)) : list Z :=
  default (zero_cell width) x.

(** ** The codebook *)

Record Codebook : Type := MkCodebook {
  cb_mc_type : list string;
  cb_pos : list Z;
  cb_values : list (list Z);
  cb_attrs : gmap string pyval;
}.

Definition cb_attr (self : Codebook) (key : string) : result pyval :=
  match cb_attrs self !! key with
  | Some v => Ok v
  | None => Err (KeyError key)
  end.

Definition _validate_mc_pattern (self : Codebook) (mc_pattern : string) : result string :=
  let mc_pattern := upper mc_pattern in
  context_size ← cb_attr self "context_size";
  if eq_int context_size (Z.of_nat (String.length mc_pattern)) then
    c_pos ← cb_attr self "c_pos";
    i ← as_int c_pos;
    c ← str_getitem mc_pattern i;
    if decide (String c EmptyString = "C") then Ok mc_pattern
    else Err (ValueError "The c_pos position in mc_pattern is not a cytosine.")
  else Err (ValueError "The length of mc_pattern is not equal to context_size.").

(** Boolean-mask indexing; in a dataset the mask and the array it selects
    from have the same length. *)
Definition mask_select {A} (mask : list bool) (l : list A) : list A :=
  snd <$> filter (fun bx : bool * A => bx.1 = true) (zip mask l).

Section BaseDS.

(** The collaborators of this module.  [parse_mc_pattern] comes from
    [ALLCools.utilities] and gives the context labels that a pattern
    denotes.  [slice_indexer] is the pandas lookup of the positions of an
    inclusive label slice in a coordinate index. *)
Variable parse_mc_pattern : string -> result (list string).
Variable slice_indexer : list Z -> Z -> Z -> result (nat * nat).

(** [self.sel(pos=slice(lo, hi))]. *)
Definition sel_slice (self : BaseDSChrom) (lo hi : Z) : result BaseDSChrom :=
  match ds_pos self with
  | None =>
      Ok (Dataset (ds_attrs self) None (ds_mc_type self) (ds_width self)
                  (list_slice (ds_cols self) lo hi))
  | Some idx =>
      ab ← slice_indexer idx lo hi;
      let sub {A} (l : list A) := take (ab.2 - ab.1) (drop ab.1 l) in
      Ok (Dataset (ds_attrs self) (Some (sub idx)) (ds_mc_type self) (ds_width self)
                  (sub (ds_cols self)))
  end.

(** [Codebook.get_mc_pos_bool].  The pattern is validated first, which
    fails on [None], so the branch for a [None] pattern is never taken. *)
Definition get_mc_pos_bool (self : Codebook) (mc_pattern : string) : result (list bool) :=
  mc_pattern ← _validate_mc_pattern self mc_pattern;
  labels ← parse_mc_pattern mc_pattern;
  let judge := (fun t => bool_decide (t ∈ labels)) <$> cb_mc_type self in
  Ok ((fun row => negb (np_sum (mask_select judge row) =? 0)) <$> cb_values self).

(** [Codebook.get_mc_pos]. *)
Definition get_mc_pos (self : Codebook) (mc_pattern : string) (offset : option pyval)
  : result (list Z) :=
  mc_pattern ← _validate_mc_pattern self mc_pattern;
  _bool ← get_mc_pos_bool self mc_pattern;
  let _pos := mask_select _bool (cb_pos self) in
  match offset with
  | None => Ok _pos
  | Some o => o ← as_int o; Ok ((fun p => p + o) <$> _pos)
  end.

(** The property [codebook]: the codebook variable of the dataset with
    [c_pos] and [context_size] taken from the attributes of the dataset. *)
Definition codebook (self : BaseDSChrom) : M Codebook :=
  c_pos ← attr self "c_pos";
  context_size ← attr self "context_size";
  mret (MkCodebook (ds_mc_type self) (get_index self) (col_codebook <$> ds_cols self)
          (<["context_size" := context_size]> (<["c_pos" := c_pos]> ∅))).

(** [np.array(regions).astype("uint32")] with the check of its shape. *)
Definition as_regions_array (regions : list (list Z)) : result (list (Z * Z)) :=
  match regions with
  | [] => Err IndexError
  | row :: _ =>
      if decide (Forall (fun r : list Z => length r = length row) regions) then
        if decide (length row = 2%nat) then
          Ok ((fun r : list Z => (uint32 (r !!! 0%nat), uint32 (r !!! 1%nat))) <$> regions)
        else Err (AssertionError "Regions can not be converted to (N, 2) array.")
      else Err (ValueError "inhomogeneous shape")
  end.

(** [_fetch_positions]: the positions are sorted and cast, shifted by the
    offset inside [uint32], selected, and written over the coordinate.  The
    subtraction stays in [uint32] for an offset in [[0, 2^32)]; a negative
    offset, which [fetch] leaves behind only when it is called with a
    negative start, is outside this model. *)
Definition _fetch_positions (self : BaseDSChrom) (positions : list Z) : M BaseDSChrom :=
  let positions := uint32 <$> np_sort positions in
  off ← offset self;
  off ← lift (as_int off);
  obj ← lift (sel_array self ((fun p => uint32 (p - off)) <$> positions));
  obj ← own_attrs obj;
  _ ← set_continuous obj (VBool false);
  mret (with_pos obj positions).

(** The fetch family.  [fetch], [fetch_regions] and [fetch_positions] call
    one another; [depth] is the number of nested calls that the interpreter
    still allows. *)
Fixpoint fetch (depth : nat) (self : BaseDSChrom) (start end_ : option Z)
  : M BaseDSChrom :=
  match depth with
  | O => raise RecursionError
  | S depth =>
      match start, end_ with
      | None, None => raise (ValueError "start and end cannot be both None.")
      | _, _ =>
          let start := default 0 start in
          end_ ← match end_ with
                 | Some e => mret e
                 | None => cs ← chrom_size self; lift (as_int cs)
                 end;
          if decide (start < end_) then
            c ← continuous self;
            if truthy c then
              off ← offset self;
              off ← lift (as_int off);
              obj ← lift (sel_slice self (start - off) (end_ - off));
              obj ← own_attrs obj;
              _ ← modify_attrs (ds_attrs obj) (<["offset" := VInt start]>);
              mret obj
            else fetch_regions depth self [[start; end_]]
          else raise (AssertionError "start must be less than end.")
      end
  end
with fetch_regions (depth : nat) (self : BaseDSChrom) (regions : list (list Z))
  : M BaseDSChrom :=
  match depth with
  | O => raise RecursionError
  | S depth =>
      regions ← lift (as_regions_array regions);
      pos_sel ← lift (_regions_to_pos uint32 regions);
      obj ← fetch_positions depth self pos_sel;
      c ← continuous obj;
      if decide (c = VBool false) then
        o ← offset obj;
        if eq_int o 0 then mret obj else raise (AssertionError "")
      else raise (AssertionError "")
  end
with fetch_positions (depth : nat) (self : BaseDSChrom) (positions : list Z)
  : M BaseDSChrom :=
  match depth with
  | O => raise RecursionError
  | S depth =>
      c ← continuous self;
      if truthy c then
        pos_min ← lift (py_min positions);
        pos_max ← lift (py_max positions);
        obj ← fetch depth self (Some pos_min) (Some (pos_max + 1));
        _fetch_positions obj positions
      else _fetch_positions self positions
  end.

(** [select_mc_type]. *)
Definition select_mc_type (depth : nat) (self : BaseDSChrom) (pattern : string)
  : M BaseDSChrom :=
  cb ← codebook self;
  off ← offset self;
  pattern_pos ← lift (get_mc_pos cb pattern (Some off));
  ds ← fetch_positions depth self pattern_pos;
  c ← continuous ds;
  if decide (c = VBool false) then mret ds else raise (AssertionError "").

(** [get_region_ds].  [region_chunks] only sets the chunking of the result
    and is left out.  The regions dataframe is handed to [_regions_to_pos]
    as it is, so the steps after that call are written down as the code has
    them but are never reached. *)
Definition get_region_ds (depth : nat) (self : BaseDSChrom) (mc_type : string)
    (bin_size : option Z) (regions : option regions_table)
    (region_name : option string) (region_start region_end : option Z)
  : M region_ds :=
  match bin_size, regions with
  | None, None => raise (ValueError "One of bin_size or regions must be specified.")
  | _, _ =>
      (* if bin_size is not None *)
      bounds ← match bin_size with
               | Some b =>
                   if decide (1 < b) then
                     let all_idx := get_index self in
                     rs ← match region_start with
                          | Some s => mret (Num s)
                          | None => o ← offset self; o ← lift (as_int o);
                                    mret (num_add (index_min all_idx) o)
                          end;
                     re ← match region_end with
                          | Some e => mret (Num e)
                          | None => o ← offset self; o ← lift (as_int o);
                                    mret (num_add (index_max all_idx) o)
                          end;
                     mret (rs, re)
                   else raise (AssertionError "bin_size must be greater than 1.")
               | None => mret (NaN, NaN) (* not read: the regions are given *)
               end;
      (* if regions is not None *)
      _ ← match regions with
          | Some t =>
              if decide (tbl_rows t = []) then
                raise (AssertionError "regions must have at least one row.")
              else mret tt
          | None => mret tt
          end;
      (* get positions *)
      cb ← codebook self;
      off ← offset self;
      pos_idx ← lift (get_mc_pos cb mc_type (Some off));
      pos_idx ← match regions with
                | Some t =>
                    region_pos_idx ← lift (_regions_to_pos_dataframe t);
                    mret (index_intersection pos_idx region_pos_idx)
                | None => mret pos_idx
                end;
      base_ds ← fetch_positions depth self pos_idx;
      (* prepare regions *)
      prep ← match regions with
             | Some t =>
                 let rows := snd <$> tbl_rows t in
                 mret ((fst <$> rows) ++ match last rows with Some r => [r.2] | None => [] end,
                       fst <$> tbl_rows t,
                       tbl_index_name t)
             | None =>
                 cs ← chrom_size self;
                 cs ← lift (as_int cs);
                 bins ← lift (fixed_bins cs (default 0 bin_size) bounds.1 bounds.2);
                 mret (bins, LInt <$> removelast bins, region_name)
             end;
      let '(bins, labels, region_name) := prep in
      let width := ds_width base_ds in
      region_data ←
        (if decide (pos_idx = []) then
           (* border case, no CpG selected *)
           mret ((fun _ => Some (zero_cell width)) <$> labels)
         else
           lift (groupby_bins_sum width bins labels (get_index base_ds)
                   (col_data <$> ds_cols base_ds)));
      mret (RegionDS (default "pos_bins" region_name) labels
              (fillna0 width <$> region_data))
  end.

(** Reading a dataset in a given store: the attributes as the properties
    return them, and the genome positions of its columns, which are the
    values of [get_index] shifted by the offset, as [get_mc_pos] does. *)
Definition is_continuous (σ : gmap nat (gmap string pyval)) (ds : BaseDSChrom) : pyval :=
  default (VBool false) ((σ !!! ds_attrs ds) !! "continuous").

Definition position_offset (σ : gmap nat (gmap string pyval)) (ds : BaseDSChrom) : pyval :=
  default (VInt 0) ((σ !!! ds_attrs ds) !! "offset").

Definition genomic_position (σ : gmap nat (gmap string pyval)) (ds : BaseDSChrom)
  : result (list Z) :=
  o ← as_int (position_offset σ ds);
  Ok ((fun p => p + o) <$> get_index ds).

(** A continuous dataset: the flag is set and [pos] is a bare dimension, so
    that column [i] is the genome position [offset + i].  The offset
    arithmetic of [fetch] and [get_mc_pos] counts columns from the start of
    the window, which is how [sel] reads a dimension without coordinate. *)
Definition continuous_ds (σ : gmap nat (gmap string pyval)) (ds : BaseDSChrom) : Prop :=
  truthy (is_continuous σ ds) = true /\ ds_pos ds = None.

(** A sparse dataset: the flag is off, the offset is cleared and [pos] has a
    coordinate without duplicates, one label per column. *)
Definition sparse_ds (σ : gmap nat (gmap string pyval)) (ds : BaseDSChrom) : Prop :=
  truthy (is_continuous σ ds) = false /\
  position_offset σ ds = VInt 0 /\
  exists idx, ds_pos ds = Some idx /\ NoDup idx /\ length idx = length (ds_cols ds).

(** The column of the source that a column of a result was taken from:
    [c] is the column of [ds] at genome position [p]. *)
Definition column_at (G : list Z) (ds : BaseDSChrom) (p : Z) (c : column) : Prop :=
  exists i : nat, G !! i = Some p /\ ds_cols ds !! i = Some c.

(** A sequence of queries of the fetch family, each one applied to the
    dataset that the one before returned. *)
Inductive query : Type :=
  | QFetch (start end_ : option Z)
  | QFetchRegions (regions : list (list Z))
  | QFetchPositions (positions : list Z).

Definition run_query (depth : nat) (self : BaseDSChrom) (q : query) : M BaseDSChrom :=
  match q with
  | QFetch start end_ => fetch depth self start end_
  | QFetchRegions regions => fetch_regions depth self regions
  | QFetchPositions positions => fetch_positions depth self positions
  end.

Fixpoint run_queries (depth : nat) (self : BaseDSChrom) (qs : list query) : M BaseDSChrom :=
  match qs with
  | [] => mret self
  | q :: qs => ds ← run_query depth self q; run_queries depth ds qs
  end.

End BaseDS.

(** ** Statements about the store *)

(** A computation that leaves every dictionary of the store as it is; it may
    add dictionaries. *)
Definition preserves {A} (m : M A) : Prop :=
  forall σ : gmap nat (gmap string pyval), σ ⊆ (m σ).2.


(** The attributes that [_fetch_positions] leaves in the copy. *)
Definition sparse_attrs (d : gmap string pyval) : gmap string pyval :=
  delete "offset" (<["continuous" := VBool false]> d).

(** The selection keys of [_fetch_positions]. *)
Definition position_keys (off : Z) (positions : list Z) : list Z :=
  (fun p => uint32 (p - off)) <$> (uint32 <$> np_sort positions).

(** What every dataset made by [_fetch_positions] looks like. *)
Definition made_sparse (σ : gmap nat (gmap string pyval)) (r : BaseDSChrom)
    (positions : list Z) : Prop :=
  is_continuous σ r = VBool false /\
  position_offset σ r = VInt 0 /\
  ds_pos r = Some (uint32 <$> np_sort positions).

(** The calls of the fetch family, for statements about all of them. *)
Inductive call : Type :=
  | CallFetch (start end_ : option Z)
  | CallFetchRegions (regions : list (list Z))
  | CallFetchPositions (positions : list Z)
  | CallSelectMcType (pattern : string)
  | CallGetRegionDs (mc_type : string) (bin_size : option Z)
      (regions : option regions_table) (region_name : option string)
      (region_start region_end : option Z).

(** The store after a call; the returned value or exception is dropped. *)
Definition store_after (parse_mc_pattern : string -> result (list string))
    (slice_indexer : list Z -> Z -> Z -> result (nat * nat))
    (depth : nat) (self : BaseDSChrom) (c : call)
    (σ : gmap nat (gmap string pyval)) : gmap nat (gmap string pyval) :=
  match c with
  | CallFetch start end_ => (fetch slice_indexer depth self start end_ σ).2
  | CallFetchRegions regions => (fetch_regions slice_indexer depth self regions σ).2
  | CallFetchPositions positions =>
      (fetch_positions slice_indexer depth self positions σ).2
  | CallSelectMcType pattern =>
      (select_mc_type parse_mc_pattern slice_indexer depth self pattern σ).2
  | CallGetRegionDs mc_type bin_size regions region_name region_start region_end =>
      (get_region_ds parse_mc_pattern slice_indexer depth self mc_type bin_size
         regions region_name region_start region_end σ).2
  end.

(** ** Statements about the codebook and the aggregation *)




(** ** Example data *)

(** Modelled from the spec: [parse_mc_pattern] of [ALLCools.utilities],
    which is not among the sources.  The spec has it expand a pattern that
    may use wildcard-style nucleotide codes into the concrete context
    labels it denotes; here the codes are A, C, G, T, H (not G) and N
    (any). *)
Definition iupac (c : string) : result (list string) :=
  if decide (c = "A") then Ok ["A"]
  else if decide (c = "C") then Ok ["C"]
  else if decide (c = "G") then Ok ["G"]
  else if decide (c = "T") then Ok ["T"]
  else if decide (c = "H") then Ok ["A"; "C"; "T"]
  else if decide (c = "N") then Ok ["A"; "C"; "G"; "T"]
  else Err (KeyError c).

Fixpoint iupac_parse (pattern : string) : result (list string) :=
  match pattern with
  | EmptyString => Ok [EmptyString]
  | String c rest =>
      heads ← iupac (String c EmptyString);
      tails ← iupac_parse rest;
      Ok (h ← heads; t ← tails; [String.append h t])
  end.

(** The pandas slice lookup on an index that increases monotonically: the
    labels from [lo] to [hi], both included. *)
Definition sorted_slice_indexer (idx : list Z) (lo hi : Z) : result (nat * nat) :=
  Ok (length (filter (fun x => x < lo) idx), length (filter (fun x => x <= hi) idx)).

(** A chromosome of ten positions with two counts per position and the
    context types CGA, CGC and CAA; positions 1 and 7 are CGA on the forward
    strand, position 4 is CGC on the reverse strand, positions 2 and 9 are
    CAA. *)
Definition ex_cols : list column :=
  [ Column [1; 2] [0; 0; 0]; Column [2; 4] [1; 0; 0]; Column [3; 6] [0; 0; 1];
    Column [4; 8] [0; 0; 0]; Column [5; 10] [0; -1; 0]; Column [6; 12] [0; 0; 0];
    Column [7; 14] [0; 0; 0]; Column [8; 16] [1; 0; 0]; Column [9; 18] [0; 0; 0];
    Column [10; 20] [0; 0; -1] ].

Definition ex_attrs (is_cont : bool) : gmap string pyval :=
  <["continuous" := VBool is_cont]>
    (<["chrom_size" := VInt 10]>
       (<["c_pos" := VInt 0]> (<["context_size" := VInt 3]> ∅))).

(** The chromosome as opened, continuous with offset zero. *)
Definition ex_store : gmap nat (gmap string pyval) := {[ 0%nat := ex_attrs true ]}.

Definition ex_ds : BaseDSChrom := Dataset 0 None ["CGA"; "CGC"; "CAA"] 2 ex_cols.

(** The same columns as a sparse dataset with its coordinate. *)
Definition ex_sparse_store : gmap nat (gmap string pyval) := {[ 0%nat := ex_attrs false ]}.

Definition ex_sparse_ds : BaseDSChrom :=
  Dataset 0 (Some (seqZ 0 10)) ["CGA"; "CGC"; "CAA"] 2 ex_cols.


Definition ex_regions : regions_table :=
  Table None [(LStr "a", (0, 5)); (LStr "b", (5, 10))].

(** The outcome of a computation that is known to return. *)
Definition returned {A} (dflt : A) (out : result A * gmap nat (gmap string pyval)) : A :=
  match out.1 with Ok a => a | Err _ => dflt end.

(** [fetch_positions([7, 1, 4])] on the example chromosome. *)
Definition ex_fetched : result BaseDSChrom * gmap nat (gmap string pyval) :=
  fetch_positions sorted_slice_indexer 3 ex_ds [7; 1; 4] ex_store.

(** Three queries in a row on the sparse example. *)
Definition ex_queries : list query :=
  [QFetch (Some 1) (Some 3); QFetchRegions [[1; 2]]; QFetchPositions [1]].

Definition ex_queried : result BaseDSChrom * gmap nat (gmap string pyval) :=
  run_queries sorted_slice_indexer 3 ex_sparse_ds ex_queries ex_sparse_store.

(** The codebook of the example chromosome. *)
Definition ex_codebook : Codebook :=
  MkCodebook ["CGA"; "CGC"; "CAA"] (seqZ 0 10) (col_codebook <$> ex_cols)
    (<["context_size" := VInt 3]> (<["c_pos" := VInt 0]> ∅)).

(** ** Chunk positions as a BED table *)

(** [_chunk_pos_to_bed_df]: one record (chrom, start, end) for each pair of
    neighbouring chunk positions; the indices of the loop are in range. *)
Definition _chunk_pos_to_bed_df (chrom : string) (chunk_pos : list Z)
  : list (string * (Z * Z)) :=
  (fun i : nat => (chrom, (chunk_pos !!! i, chunk_pos !!! S i)))
    <$> seq 0 (length chunk_pos - 1).

(** An interval of [uint32] values that may be empty. *)
Definition interval_le (r : Z * Z) : Prop := 0 <= r.1 /\ r.1 <= r.2 /\ r.2 < 2 ^ 32.

(** ** Statements about datasets and their sources *)

(** The bookkeeping of a dataset is in order: either it is continuous with
    a bare [pos] dimension, or it is not continuous, its offset reads zero
    and it has a position coordinate with one label per column. *)
Definition tracked (σ : gmap nat (gmap string pyval)) (ds : BaseDSChrom) : Prop :=
  (truthy (is_continuous σ ds) = true /\ ds_pos ds = None) \/
  (truthy (is_continuous σ ds) = false /\ position_offset σ ds = VInt 0 /\
   exists idx, ds_pos ds = Some idx /\ length idx = length (ds_cols ds)).

(** Every column of [r] is a column of [self], and the two have the same
    context types and the same number of counts per position. *)
Definition drawn_from (r self : BaseDSChrom) : Prop :=
  ds_cols r ⊆ ds_cols self /\
  ds_mc_type r = ds_mc_type self /\
  ds_width r = ds_width self.

(** Position [p] lies in bin [i] of the edges [bins]: above the left edge
    and up to the right edge, the left edge itself counting for the first
    bin only. *)
Definition in_bin (bins : list Z) (i : nat) (p : Z) : bool :=
  match bins !! i, bins !! S i with
  | Some lo, Some hi => ((lo <? p) && (p <=? hi)) || ((i =? 0)%nat && (p =? lo))
  | _, _ => false
  end.

(** The sum of the count vectors of the positions that lie in bin [i]. *)
Definition bin_total (width : nat) (bins : list Z) (i : nat)
    (pos : list Z) (cells : list (list Z)) : list Z :=
  foldr add_cells (zero_cell width)
        (snd <$> filter (fun pc : Z * list Z => in_bin bins i pc.1 = true) (zip pos cells)).

(** ** More example data *)

(** The positions 1, 4 and 7 of the example chromosome as a sparse
    dataset. *)
Definition ex_gap_ds : BaseDSChrom :=
  Dataset 0 (Some [1; 4; 7]) ["CGA"; "CGC"; "CAA"] 2
    [Column [2; 4] [1; 0; 0]; Column [5; 10] [0; -1; 0]; Column [8; 16] [1; 0; 0]].

(** [fetch_positions([3, 1, 3])] on the example chromosome. *)
Definition ex_fetched_twice : result BaseDSChrom * gmap nat (gmap string pyval) :=
  fetch_positions sorted_slice_indexer 3 ex_ds [3; 1; 3] ex_store.

Definition ex_region_ds : region_ds := RegionDS "pos_bins" [] [].

(** The CGN positions of the sparse example in bins of two positions from 0
    to 6. *)
Definition ex_binned : result region_ds * gmap nat (gmap string pyval) :=
  get_region_ds iupac_parse sorted_slice_indexer 3 ex_sparse_ds "CGN"
    (Some 2) None None (Some 0) (Some 6) ex_sparse_store.

(** * Interval expansion *)

Lemma uint32_small z : 0 <= z < 2 ^ 32 -> uint32 z = z.
Proof. intros H. unfold uint32. by apply Z.mod_small. Qed.

Lemma uint32_range z : 0 <= uint32 z < 2 ^ 32.
Proof. unfold uint32. apply Z.mod_pos_bound. lia. Qed.

Lemma fmap_uint32_small (l : list Z) :
  Forall (fun z => 0 <= z < 2 ^ 32) l -> uint32 <$> l = l.
Proof.
  induction 1 as [|z l Hz _ IH]; [done|].
  cbn [fmap list_fmap]. rewrite uint32_small by done. f_equal. exact IH.
Qed.

Lemma Forall_seqZ_range (m n lo hi : Z) :
  lo <= m -> m + n <= hi -> Forall (fun z => lo <= z < hi) (seqZ m n).
Proof.
  intros Hlo Hhi. apply Forall_forall. intros z Hz.
  apply elem_of_seqZ in Hz. lia.
Qed.

Lemma arange_seqZ (s e : Z) : 0 <= s -> e <= 2 ^ 32 -> arange s e = seqZ s (e - s).
Proof.
  intros Hs He. unfold arange. apply fmap_uint32_small.
  apply Forall_seqZ_range; lia.
Qed.

Lemma total_length_cons s e rs :
  total_length ((s, e) :: rs) = (e - s) + total_length rs.
Proof. reflexivity. Qed.

Lemma runs_cons s e rs : runs ((s, e) :: rs) = seqZ s (e - s) ++ runs rs.
Proof. reflexivity. Qed.

Lemma total_length_nonneg regions :
  Forall (fun r : Z * Z => 0 <= r.2 - r.1) regions -> 0 <= total_length regions.
Proof.
  induction 1 as [|[s e] rs Hr _ IH]; [done|].
  rewrite total_length_cons. simpl in Hr. lia.
Qed.

Lemma length_runs regions :
  Forall (fun r : Z * Z => 0 <= r.2 - r.1) regions ->
  Z.of_nat (length (runs regions)) = total_length regions.
Proof.
  induction 1 as [|[s e] rs Hr _ IH]; [done|].
  rewrite runs_cons, total_length_cons, length_app, length_seqZ, Nat2Z.inj_add, IH.
  simpl in Hr. lia.
Qed.

Lemma assign_slice_exact (done_ gap rest vals : list Z) :
  length vals = length gap ->
  assign_slice (done_ ++ gap ++ rest) (Z.of_nat (length done_))
    (Z.of_nat (length done_) + Z.of_nat (length gap)) vals
  = Ok (done_ ++ vals ++ rest).
Proof.
  intros Hlen. unfold assign_slice.
  rewrite !length_app.
  rewrite Z.min_l by lia.
  rewrite (Z.min_l (_ + _)) by lia.
  rewrite Z.max_r by lia.
  rewrite decide_True by lia.
  rewrite Nat2Z.id.
  replace (Z.to_nat (Z.of_nat (length done_) + Z.of_nat (length gap)))
    with (length done_ + length gap)%nat by lia.
  rewrite take_app_length.
  rewrite drop_app_add', drop_app_length; [done|done].
Qed.

(** Loop invariant of [_regions_to_pos]: the buffer is the output written so
    far followed by zeros, and [cur_pos] is the length of the written part. *)
Lemma foldM_regions_to_pos (regions : list (Z * Z)) (done_ : list Z) :
  Forall interval_ok regions ->
  foldM (regions_to_pos_step uint32)
    (done_ ++ replicate (Z.to_nat (total_length regions)) 0,
     Z.of_nat (length done_)) regions
  = Ok (done_ ++ runs regions,
        Z.of_nat (length done_) + total_length regions).
Proof.
  intros Hall. revert done_.
  induction Hall as [|[s e] rs Hr Hrs IH]; intros done_.
  - change (total_length []) with 0. change (runs []) with (@nil Z).
    cbn [foldM Z.to_nat replicate]. by rewrite Z.add_0_r.
  - destruct Hr as (Hs & Hse & He). simpl in Hs, Hse, He.
    cbn [foldM regions_to_pos_step].
    rewrite uint32_small by lia.
    rewrite arange_seqZ by lia.
    assert (Hnn : 0 <= total_length rs).
    { apply total_length_nonneg. eapply Forall_impl; [exact Hrs|].
      intros [??] (? & ? & ?); simpl in *; lia. }
    rewrite total_length_cons, runs_cons.
    rewrite Z2Nat.inj_add, replicate_add by lia.
    set (gap := replicate (Z.to_nat (e - s)) 0).
    assert (Hgap : Z.of_nat (length gap) = e - s).
    { unfold gap. rewrite length_replicate. lia. }
    rewrite <- Hgap at 1.
    rewrite assign_slice_exact
      by (unfold gap; rewrite length_seqZ, length_replicate; done).
    cbn [mbind result_bind].
    specialize (IH (done_ ++ seqZ s (e - s))).
    rewrite length_app, length_seqZ in IH.
    rewrite <- (assoc_L (++)) in IH.
    replace (Z.of_nat (length done_) + (e - s))
      with (Z.of_nat (length done_ + Z.to_nat (e - s))) by lia.
    rewrite IH. rewrite <- !(assoc_L (++)). f_equal. f_equal. lia.
Qed.

Lemma delta_total_length regions :
  Forall interval_ok regions ->
  np_sum ((fun r : Z * Z => uint32 (r.2 - r.1)) <$> regions) = total_length regions.
Proof.
  induction 1 as [|[s e] rs (Hs & Hse & He) _ IH]; [done|].
  simpl in Hs, Hse, He. rewrite total_length_cons.
  cbn [fmap list_fmap np_sum foldr fst snd].
  rewrite uint32_small by lia. unfold np_sum in IH.
  change (list_fmap (Z * Z)%type Z ?f ?l) with (f <$> l) in *.
  by rewrite IH.
Qed.

(** C3.  For an array of intervals with [0 <= start < end < 2^32],
    [_regions_to_pos] returns the concatenation, in input order, of the runs
    [start, start+1, ..., end-1]; its length is the sum of [end - start].
    Nothing is removed from it: positions covered by overlapping intervals
    occur once per interval. *)
Theorem regions_to_pos_concat (regions : list (Z * Z)) :
  Forall interval_ok regions ->
  _regions_to_pos uint32 regions = Ok (runs regions) /\
  Z.of_nat (length (runs regions)) = total_length regions.
Proof.
  intros Hall.
  assert (Hle : Forall (fun r : Z * Z => 0 <= r.2 - r.1) regions).
  { eapply Forall_impl; [exact Hall|]. intros [??] (? & ? & ?); simpl in *; lia. }
  split; [|by apply length_runs].
  unfold _regions_to_pos. rewrite delta_total_length by done.
  unfold np_zeros. rewrite decide_True by (by apply total_length_nonneg).
  cbn [mbind result_bind].
  pose proof (foldM_regions_to_pos regions [] Hall) as Hloop.
  change (Z.of_nat (length (@nil Z))) with 0 in Hloop.
  cbn [app] in Hloop. rewrite Hloop. reflexivity.
Qed.

Lemma regions_to_pos_concat_witness :
  Forall interval_ok [(2, 5); (4, 6)] /\
  _regions_to_pos uint32 [(2, 5); (4, 6)] = Ok [2; 3; 4; 4; 5] /\
  Z.of_nat (length [2; 3; 4; 4; 5]) = 5.
Proof.
  assert (H : Forall interval_ok [(2, 5); (4, 6)]).
  { repeat constructor; simpl; lia. }
  split; [exact H|]. exact (regions_to_pos_concat [(2, 5); (4, 6)] H).
Defined.

(** * Running computations in a store *)

Lemma run_bind {A B} (m : M A) (f : A -> M B) σ :
  (m ≫= f) σ = match m σ with
               | (Ok a, σ') => f a σ'
               | (Err e, σ') => (Err e, σ')
               end.
Proof. reflexivity. Qed.

Lemma run_ret {A} (a : A) σ : (mret a : M A) σ = (Ok a, σ).
Proof. reflexivity. Qed.

Lemma run_raise {A} (e : exn) σ : (raise e : M A) σ = (Err e, σ).
Proof. reflexivity. Qed.

Lemma run_lift {A} (r : result A) σ : lift r σ = (r, σ).
Proof. reflexivity. Qed.

Lemma run_bind_ok {A B} (m : M A) (f : A -> M B) σ a σ' :
  m σ = (Ok a, σ') -> (m ≫= f) σ = f a σ'.
Proof. intros H. by rewrite run_bind, H. Qed.

Lemma run_bind_err {A B} (m : M A) (f : A -> M B) σ e σ' :
  m σ = (Err e, σ') -> (m ≫= f) σ = (Err e, σ').
Proof. intros H. by rewrite run_bind, H. Qed.

(** A successful bind has a successful first part. *)
Lemma run_bind_inv {A B} (m : M A) (f : A -> M B) σ b σ2 :
  (m ≫= f) σ = (Ok b, σ2) ->
  exists a σ1, m σ = (Ok a, σ1) /\ f a σ1 = (Ok b, σ2).
Proof.
  rewrite run_bind. destruct (m σ) as [[a|e] σ1]; [eauto|discriminate].
Qed.

Lemma run_lift_inv {A} (r : result A) σ a σ' :
  lift r σ = (Ok a, σ') -> r = Ok a /\ σ' = σ.
Proof. unfold lift. intros [= -> ->]. done. Qed.

Lemma result_bind_inv {A B} (r : result A) (f : A -> result B) b :
  r ≫= f = Ok b -> exists a, r = Ok a /\ f a = Ok b.
Proof. destruct r as [a|e]; [eauto|discriminate]. Qed.

Section Properties.

Variable parse_mc_pattern : string -> result (list string).
Variable slice_indexer : list Z -> Z -> Z -> result (nat * nat).

Lemma run_continuous self σ : continuous self σ = (Ok (is_continuous σ self), σ).
Proof. reflexivity. Qed.

Lemma run_offset self σ : offset self σ = (Ok (position_offset σ self), σ).
Proof. reflexivity. Qed.

Lemma run_own_attrs obj σ :
  own_attrs obj σ
  = (Ok (with_attrs obj (fresh (dom σ))),
     <[fresh (dom σ) := σ !!! ds_attrs obj]> σ).
Proof. reflexivity. Qed.

Lemma run_modify_attrs l f σ :
  modify_attrs l f σ = (Ok tt, <[l := f (σ !!! l)]> σ).
Proof. reflexivity. Qed.

Lemma run_attr self key σ :
  attr self key σ
  = (match (σ !!! ds_attrs self) !! key with
     | Some v => Ok v
     | None => Err (KeyError key)
     end, σ).
Proof.
  unfold attr. rewrite run_bind. unfold get_attrs.
  by destruct ((σ !!! ds_attrs self) !! key).
Qed.

(** ** Aggregation: the guards of [get_region_ds] *)

(** C10.  With [regions] omitted and [bin_size] supplied and not greater
    than one, [get_region_ds] raises the assertion error of the [bin_size] check,
    whatever the dataset, the pattern and the other arguments are, and the
    store is as it was: no position has been selected and nothing
    aggregated. *)
Theorem get_region_ds_small_bin_size
    (depth : nat) (self : BaseDSChrom) (mc_type : string) (b : Z)
    (region_name : option string) (region_start region_end : option Z)
    (σ : gmap nat (gmap string pyval)) :
  b <= 1 ->
  get_region_ds parse_mc_pattern slice_indexer depth self mc_type
    (Some b) None region_name region_start region_end σ
  = (Err (AssertionError "bin_size must be greater than 1."), σ).
Proof.
  intros Hb. unfold get_region_ds.
  rewrite run_bind. rewrite decide_False by lia. reflexivity.
Qed.

(** ** Selection keeps the attribute dictionary of its source *)

Lemma sel_slice_attrs self lo hi obj :
  sel_slice slice_indexer self lo hi = Ok obj -> ds_attrs obj = ds_attrs self.
Proof.
  unfold sel_slice. destruct (ds_pos self) as [idx|].
  - intros H. apply result_bind_inv in H as (ab & _ & H). by injection H as <-.
  - by intros [= <-].
Qed.

Lemma sel_array_attrs self keys obj :
  sel_array self keys = Ok obj -> ds_attrs obj = ds_attrs self.
Proof.
  unfold sel_array. destruct (ds_pos self) as [idx|]; intros H.
  - apply result_bind_inv in H as (ixs & _ & H).
    apply result_bind_inv in H as (cols & _ & H). by injection H as <-.
  - apply result_bind_inv in H as (cols & _ & H). by injection H as <-.
Qed.

(** ** The two ways to make a dataset *)

(** The continuous branch of [fetch]. *)
Lemma fetch_continuous_eq depth self s e σ :
  truthy (is_continuous σ self) = true -> s < e ->
  fetch slice_indexer (S depth) self (Some s) (Some e) σ
  = match as_int (position_offset σ self)
            ≫= (fun o => sel_slice slice_indexer self (s - o) (e - o)) with
    | Ok obj =>
        (Ok (with_attrs obj (fresh (dom σ))),
         <[fresh (dom σ) := <["offset" := VInt s]> (σ !!! ds_attrs self)]> σ)
    | Err x => (Err x, σ)
    end.
Proof.
  intros Hc Hse. cbn [fetch default from_option]. unfold id.
  rewrite run_bind, run_ret. rewrite decide_True by done.
  rewrite run_bind, run_continuous, Hc.
  rewrite run_bind, run_offset.
  rewrite run_bind, run_lift.
  destruct (as_int (position_offset σ self)) as [o|x]; [|done].
  cbn [mbind result_bind].
  rewrite run_bind, run_lift.
  destruct (sel_slice slice_indexer self (s - o) (e - o)) as [obj|x] eqn:Hsel; [|done].
  apply sel_slice_attrs in Hsel.
  rewrite run_bind, run_own_attrs.
  rewrite run_bind, run_modify_attrs, run_ret.
  cbn [with_attrs ds_attrs].
  rewrite lookup_total_insert_eq, insert_insert_eq, Hsel. reflexivity.
Qed.

Lemma _fetch_positions_eq self positions σ :
  _fetch_positions self positions σ
  = match as_int (position_offset σ self)
            ≫= (fun o => sel_array self (position_keys o positions)) with
    | Ok obj =>
        (Ok (with_pos (with_attrs obj (fresh (dom σ))) (uint32 <$> np_sort positions)),
         <[fresh (dom σ) := sparse_attrs (σ !!! ds_attrs self)]> σ)
    | Err x => (Err x, σ)
    end.
Proof.
  unfold _fetch_positions.
  rewrite run_bind, run_offset.
  rewrite run_bind, run_lift.
  destruct (as_int (position_offset σ self)) as [o|x]; [|done].
  cbn [mbind result_bind].
  rewrite run_bind, run_lift. fold (position_keys o positions).
  destruct (sel_array self (position_keys o positions)) as [obj|x] eqn:Hsel; [|done].
  apply sel_array_attrs in Hsel.
  rewrite run_bind, run_own_attrs.
  rewrite run_bind. unfold set_continuous. rewrite run_modify_attrs, run_ret.
  cbn [with_attrs ds_attrs].
  rewrite lookup_total_insert_eq, insert_insert_eq, Hsel. reflexivity.
Qed.

(** ** Range fetch on a continuous dataset *)

Lemma length_list_slice {A} (l : list A) (lo hi : Z) :
  0 <= lo -> 0 <= hi ->
  Z.of_nat (length (list_slice l lo hi))
  = Z.max 0 (Z.min hi (Z.of_nat (length l)) - Z.min lo (Z.of_nat (length l))).
Proof.
  intros Hlo Hhi. unfold list_slice, slice_index.
  rewrite !decide_False by lia.
  rewrite length_take, length_drop. lia.
Qed.

Lemma lookup_list_slice {A} (l : list A) (lo hi : Z) (i : nat) :
  0 <= lo -> 0 <= hi -> Z.of_nat i < hi - lo -> hi <= Z.of_nat (length l) ->
  list_slice l lo hi !! i = l !! (Z.to_nat lo + i)%nat.
Proof.
  intros Hlo Hhi Hi Hn. unfold list_slice, slice_index.
  rewrite !decide_False by lia.
  rewrite !Z.min_l by lia.
  rewrite lookup_take_lt by lia. by rewrite lookup_drop.
Qed.

Lemma filter_seqZ_range (lo hi o : Z) (n : nat) :
  filter (fun p => lo <= p < hi) (seqZ o (Z.of_nat n))
  = seqZ (Z.max lo o) (Z.min hi (o + Z.of_nat n) - Z.max lo o).
Proof.
  revert o. induction n as [|n IH]; intros o.
  - rewrite (seqZ_nil o) by done. rewrite seqZ_nil by lia. done.
  - rewrite (seqZ_cons o) by lia.
    replace (Z.pred (Z.of_nat (S n))) with (Z.of_nat n) by lia.
    rewrite filter_cons, IH. case_decide as Hin.
    + rewrite (seqZ_cons (Z.max lo o)) by lia.
      replace (Z.max lo o) with o by lia. f_equal.
      replace (Z.max lo (Z.succ o)) with (Z.succ o) by lia. f_equal. lia.
    + destruct (decide (o < lo)) as [Hlt|Hge].
      * replace (Z.max lo (Z.succ o)) with (Z.max lo o) by lia. f_equal. lia.
      * rewrite !seqZ_nil by lia. done.
Qed.

Lemma fmap_shift_seqZ (o m n : Z) :
  (fun p => p + o) <$> seqZ m n = seqZ (m + o) n.
Proof.
  rewrite (Z.add_comm m o), <- (fmap_add_seqZ o m n).
  apply list_fmap_ext. intros _ p _. lia.
Qed.

Lemma genomic_position_bare σ ds o :
  ds_pos ds = None -> as_int (position_offset σ ds) = Ok o ->
  genomic_position σ ds = Ok (seqZ o (Z.of_nat (length (ds_cols ds)))).
Proof.
  intros Hpos Hoff. unfold genomic_position, get_index. rewrite Hoff, Hpos.
  cbn [mbind result_bind]. by rewrite fmap_shift_seqZ.
Qed.

(** A column of a slice is the column of the list at the shifted index, also
    when the slice is clipped at the end of the list. *)
Lemma lookup_list_slice_Some {A} (l : list A) (lo hi : Z) (i : nat) (c : A) :
  0 <= lo -> list_slice l lo hi !! i = Some c -> l !! (Z.to_nat lo + i)%nat = Some c.
Proof.
  intros Hlo. unfold list_slice, slice_index. rewrite (decide_False (P := lo < 0)) by lia.
  intros [Hc _]%lookup_take_Some. rewrite lookup_drop in Hc.
  destruct (decide (lo <= Z.of_nat (length l))) as [Hin|Hout].
  - by rewrite Z.min_l in Hc by lia.
  - apply lookup_lt_Some in Hc. lia.
Qed.

(** C1.  On a continuous dataset with offset [o], [fetch(start, end)] with
    [o <= start < end] returns a dataset whose genome positions are the
    positions of the source that lie in [[start, end)], in order, each with
    the column that the source has at that position; the result is
    continuous and its offset is [start]. *)
Theorem fetch_continuous_range
    (depth : nat) (self : BaseDSChrom) (start end_ o : Z) (G : list Z)
    (σ : gmap nat (gmap string pyval)) :
  (1 <= depth)%nat ->
  continuous_ds σ self ->
  as_int (position_offset σ self) = Ok o ->
  genomic_position σ self = Ok G ->
  o <= start -> start < end_ ->
  exists r σ',
    fetch slice_indexer depth self (Some start) (Some end_) σ = (Ok r, σ') /\
    genomic_position σ' r = Ok (filter (fun p => start <= p < end_) G) /\
    Forall2 (column_at G self) (filter (fun p => start <= p < end_) G) (ds_cols r) /\
    continuous_ds σ' r /\
    position_offset σ' r = VInt start.
Proof.
  intros Hd [Hc Hpos] Hoff HG Hos Hse.
  destruct depth as [|depth]; [lia|].
  rewrite (genomic_position_bare σ self o Hpos Hoff) in HG. injection HG as <-.
  rewrite fetch_continuous_eq by done.
  rewrite Hoff. cbn [mbind result_bind]. unfold sel_slice. rewrite Hpos.
  eexists _, _. split; [reflexivity|].
  set (l := fresh (dom σ)).
  assert (Hoff' : forall ds, ds_attrs ds = l ->
            position_offset (<[l := <["offset" := VInt start]> (σ !!! ds_attrs self)]> σ) ds
            = VInt start).
  { intros ds Hl. unfold position_offset.
    by rewrite Hl, lookup_total_insert_eq, lookup_insert_eq. }
  assert (Hrange : filter (fun p => start <= p < end_)
                     (seqZ o (Z.of_nat (length (ds_cols self))))
                   = seqZ start
                       (Z.of_nat (length (list_slice (ds_cols self) (start - o) (end_ - o))))).
  { rewrite filter_seqZ_range, length_list_slice by lia.
    replace (Z.max start o) with start by lia.
    destruct (decide (start - o <= Z.of_nat (length (ds_cols self)))) as [Hin|Hout].
    - f_equal. lia.
    - rewrite !seqZ_nil by lia. done. }
  split; [|split; [|split]].
  - rewrite (genomic_position_bare _ _ start); [|done|by rewrite Hoff'].
    f_equal. cbn [with_attrs ds_cols]. by rewrite Hrange.
  - cbn [with_attrs ds_cols]. rewrite Hrange.
    apply Forall2_same_length_lookup. split; [by rewrite length_seqZ, Nat2Z.id|].
    intros i p c Hp Hcol. apply lookup_seqZ in Hp as [-> Hi].
    apply lookup_list_slice_Some in Hcol; [|lia].
    exists (Z.to_nat (start - o) + i)%nat. split; [|done].
    apply lookup_seqZ. apply lookup_lt_Some in Hcol. lia.
  - split; [|done]. unfold is_continuous in *. cbn [with_attrs ds_attrs].
    rewrite lookup_total_insert_eq. by rewrite lookup_insert_ne.
  - by apply Hoff'.
Qed.

(** ** The source is never written to *)

Lemma preserves_ret {A} (a : A) : preserves (mret a : M A).
Proof. intros σ. done. Qed.

Lemma preserves_raise {A} (e : exn) : preserves (raise e : M A).
Proof. intros σ. done. Qed.

Lemma preserves_lift {A} (r : result A) : preserves (lift r).
Proof. intros σ. done. Qed.

Lemma preserves_bind {A B} (m : M A) (f : A -> M B) :
  preserves m -> (forall a, preserves (f a)) -> preserves (m ≫= f).
Proof.
  intros Hm Hf σ. rewrite run_bind. specialize (Hm σ).
  destruct (m σ) as [[a|e] σ1]; [|exact Hm].
  etrans; [exact Hm|]. apply Hf.
Qed.

Lemma preserves_continuous self : preserves (continuous self).
Proof. intros σ. done. Qed.

Lemma preserves_offset self : preserves (offset self).
Proof. intros σ. done. Qed.

Lemma preserves_attr self key : preserves (attr self key).
Proof. intros σ. rewrite run_attr. done. Qed.

Lemma fresh_insert_subseteq (σ : gmap nat (gmap string pyval)) d :
  σ ⊆ <[fresh (dom σ) := d]> σ.
Proof. apply insert_subseteq, not_elem_of_dom, is_fresh. Qed.

Lemma preserves_codebook self : preserves (codebook self).
Proof.
  unfold codebook.
  apply preserves_bind; [apply preserves_attr|intros ?].
  apply preserves_bind; [apply preserves_attr|intros ?].
  apply preserves_ret.
Qed.

Lemma preserves__fetch_positions self positions :
  preserves (_fetch_positions self positions).
Proof.
  intros σ. rewrite _fetch_positions_eq.
  destruct (_ ≫= _) as [obj|x]; [|done]. apply fresh_insert_subseteq.
Qed.

(** The copy made by [fetch] is the only dictionary it writes to. *)
Lemma preserves_own_modify obj f :
  preserves (own_attrs obj ≫= fun obj' =>
             modify_attrs (ds_attrs obj') f ≫= fun _ => mret obj').
Proof.
  intros σ. rewrite run_bind, run_own_attrs, run_bind, run_modify_attrs, run_ret.
  cbn [with_attrs ds_attrs snd]. rewrite insert_insert_eq.
  apply fresh_insert_subseteq.
Qed.

Lemma preserves_fetch_family (depth : nat) :
  (forall self s e, preserves (fetch slice_indexer depth self s e)) /\
  (forall self regions, preserves (fetch_regions slice_indexer depth self regions)) /\
  (forall self positions, preserves (fetch_positions slice_indexer depth self positions)).
Proof.
  induction depth as [|depth (IHf & IHr & IHp)].
  - repeat split; intros; apply preserves_raise.
  - repeat split.
    + intros self s e. cbn [fetch].
      assert (Hbody : forall s0 e0 : option Z,
        preserves
          (match e0 with
           | Some e1 => mret e1
           | None => cs ← chrom_size self; lift (as_int cs)
           end ≫= fun end_ : Z =>
           if decide (default 0 s0 < end_) then
             c ← continuous self;
             if truthy c then
               off ← offset self;
               off ← lift (as_int off);
               obj ← lift (sel_slice slice_indexer self (default 0 s0 - off) (end_ - off));
               obj ← own_attrs obj;
               _ ← modify_attrs (ds_attrs obj) (<["offset" := VInt (default 0 s0)]>);
               mret obj
             else fetch_regions slice_indexer depth self [[default 0 s0; end_]]
           else raise (AssertionError "start must be less than end."))).
      { intros s0 e0. apply preserves_bind.
        - destruct e0; [apply preserves_ret|].
          apply preserves_bind; [apply preserves_attr|intros ?; apply preserves_lift].
        - intros end_. case_decide; [|apply preserves_raise].
          apply preserves_bind; [apply preserves_continuous|intros c].
          destruct (truthy c); [|apply IHr].
          apply preserves_bind; [apply preserves_offset|intros ?].
          apply preserves_bind; [apply preserves_lift|intros ?].
          apply preserves_bind; [apply preserves_lift|intros ?].
          apply preserves_own_modify. }
      destruct s as [s|], e as [e|];
        [apply (Hbody (Some s) (Some e))|apply (Hbody (Some s) None)
        |apply (Hbody None (Some e))|apply preserves_raise].
    + intros self regions. cbn [fetch_regions].
      apply preserves_bind; [apply preserves_lift|intros ?].
      apply preserves_bind; [apply preserves_lift|intros ?].
      apply preserves_bind; [apply IHp|intros obj].
      apply preserves_bind; [apply preserves_continuous|intros c].
      case_decide; [|apply preserves_raise].
      apply preserves_bind; [apply preserves_offset|intros o].
      destruct (eq_int o 0); [apply preserves_ret|apply preserves_raise].
    + intros self positions. cbn [fetch_positions].
      apply preserves_bind; [apply preserves_continuous|intros c].
      destruct (truthy c); [|apply preserves__fetch_positions].
      apply preserves_bind; [apply preserves_lift|intros ?].
      apply preserves_bind; [apply preserves_lift|intros ?].
      apply preserves_bind; [apply IHf|intros ?].
      apply preserves__fetch_positions.
Qed.

Lemma preserves_select_mc_type depth self pattern :
  preserves (select_mc_type parse_mc_pattern slice_indexer depth self pattern).
Proof.
  unfold select_mc_type.
  apply preserves_bind; [apply preserves_codebook|intros ?].
  apply preserves_bind; [apply preserves_offset|intros ?].
  apply preserves_bind; [apply preserves_lift|intros ?].
  apply preserves_bind; [apply preserves_fetch_family|intros ?].
  apply preserves_bind; [apply preserves_continuous|intros ?].
  case_decide; [apply preserves_ret|apply preserves_raise].
Qed.

Ltac preserves_step :=
  first
    [ apply preserves_ret | apply preserves_raise | apply preserves_lift
    | apply preserves_offset | apply preserves_continuous | apply preserves_attr
    | apply preserves_codebook | apply preserves_fetch_family
    | apply preserves_bind; [|intros ?]
    | case_decide
    | match goal with |- preserves (match ?x with _ => _ end) => destruct x end ].

Lemma preserves_get_region_ds depth self mc_type bin_size regions rn rs re :
  preserves (get_region_ds parse_mc_pattern slice_indexer depth self mc_type
               bin_size regions rn rs re).
Proof.
  unfold get_region_ds.
  destruct bin_size as [b|], regions as [t|]; repeat preserves_step.
Qed.

(** C9.  No call of the fetch family writes to its source.  Whatever the
    call returns or raises, the store after it has every dictionary that it
    had before, unchanged; for a source whose attribute dictionary is in the
    store, the dictionary, the continuous flag, the offset and the genome
    positions of the source read the same after the call as before. *)
Theorem fetch_family_source_unchanged
    (depth : nat) (self : BaseDSChrom) (c : call)
    (σ : gmap nat (gmap string pyval)) :
  is_Some (σ !! ds_attrs self) ->
  σ ⊆ store_after parse_mc_pattern slice_indexer depth self c σ /\
  store_after parse_mc_pattern slice_indexer depth self c σ !! ds_attrs self
    = σ !! ds_attrs self /\
  is_continuous (store_after parse_mc_pattern slice_indexer depth self c σ) self
    = is_continuous σ self /\
  position_offset (store_after parse_mc_pattern slice_indexer depth self c σ) self
    = position_offset σ self /\
  genomic_position (store_after parse_mc_pattern slice_indexer depth self c σ) self
    = genomic_position σ self.
Proof.
  intros [d Hd].
  assert (Hsub : σ ⊆ store_after parse_mc_pattern slice_indexer depth self c σ).
  { destruct c; cbn [store_after].
    - apply (proj1 (preserves_fetch_family depth)).
    - apply (proj1 (proj2 (preserves_fetch_family depth))).
    - apply (proj2 (proj2 (preserves_fetch_family depth))).
    - apply preserves_select_mc_type.
    - apply preserves_get_region_ds. }
  set (σ' := store_after parse_mc_pattern slice_indexer depth self c σ) in *.
  assert (Hd' : σ' !! ds_attrs self = Some d) by (eapply lookup_weaken; eauto).
  assert (Htot : σ' !!! ds_attrs self = σ !!! ds_attrs self).
  { by rewrite !lookup_total_alt, Hd, Hd'. }
  split; [exact Hsub|]. split; [by rewrite Hd, Hd'|].
  unfold genomic_position, position_offset, is_continuous. by rewrite Htot.
Qed.

(** ** Sparse datasets stay sparse *)

Lemma sparse_attrs_continuous d : sparse_attrs d !! "continuous" = Some (VBool false).
Proof. unfold sparse_attrs. by rewrite lookup_delete_ne, lookup_insert_eq. Qed.

Lemma sparse_attrs_offset d : sparse_attrs d !! "offset" = None.
Proof. unfold sparse_attrs. by rewrite lookup_delete_eq. Qed.

Lemma _fetch_positions_sparse self positions σ r σ' :
  _fetch_positions self positions σ = (Ok r, σ') -> made_sparse σ' r positions.
Proof.
  rewrite _fetch_positions_eq. destruct (_ ≫= _) as [obj|x]; [|discriminate].
  intros [= <- <-]. unfold made_sparse, is_continuous, position_offset.
  cbn [with_pos with_attrs ds_attrs ds_pos].
  rewrite lookup_total_insert_eq, sparse_attrs_continuous, sparse_attrs_offset. done.
Qed.

Lemma fetch_positions_sparse depth self positions σ r σ' :
  fetch_positions slice_indexer depth self positions σ = (Ok r, σ') ->
  made_sparse σ' r positions.
Proof.
  destruct depth as [|depth]; [discriminate|]. cbn [fetch_positions].
  rewrite run_bind, run_continuous.
  destruct (truthy (is_continuous σ self)); [|apply _fetch_positions_sparse].
  intros H.
  apply run_bind_inv in H as (m & σ1 & _ & H).
  apply run_bind_inv in H as (mx & σ2 & _ & H).
  apply run_bind_inv in H as (obj & σ3 & _ & H).
  by apply _fetch_positions_sparse in H.
Qed.

Lemma fetch_regions_sparse depth self regions σ r σ' :
  fetch_regions slice_indexer depth self regions σ = (Ok r, σ') ->
  is_continuous σ' r = VBool false /\ position_offset σ' r = VInt 0 /\
  exists positions, ds_pos r = Some (uint32 <$> np_sort positions).
Proof.
  destruct depth as [|depth]; [discriminate|]. cbn [fetch_regions]. intros H.
  apply run_bind_inv in H as (regs & σ1 & _ & H).
  apply run_bind_inv in H as (pos_sel & σ2 & _ & H).
  apply run_bind_inv in H as (obj & σ3 & Hfp & H).
  apply fetch_positions_sparse in Hfp as (Hc & Ho & Hp).
  rewrite run_bind, run_continuous in H. case_decide; [|discriminate].
  rewrite run_bind, run_offset in H.
  destruct (eq_int (position_offset σ3 obj) 0); [|discriminate].
  injection H as <- <-. eauto.
Qed.

Lemma fetch_sparse depth self s e σ r σ' :
  truthy (is_continuous σ self) = false ->
  fetch slice_indexer depth self s e σ = (Ok r, σ') ->
  is_continuous σ' r = VBool false /\ position_offset σ' r = VInt 0 /\
  exists positions, ds_pos r = Some (uint32 <$> np_sort positions).
Proof.
  intros Hc. destruct depth as [|depth]; [discriminate|]. cbn [fetch].
  assert (Hbody : forall s0 e0 : option Z,
    (match e0 with
     | Some e1 => mret e1
     | None => cs ← chrom_size self; lift (as_int cs)
     end ≫= fun end_ : Z =>
     if decide (default 0 s0 < end_) then
       c ← continuous self;
       if truthy c then
         off ← offset self;
         off ← lift (as_int off);
         obj ← lift (sel_slice slice_indexer self (default 0 s0 - off) (end_ - off));
         obj ← own_attrs obj;
         _ ← modify_attrs (ds_attrs obj) (<["offset" := VInt (default 0 s0)]>);
         mret obj
       else fetch_regions slice_indexer depth self [[default 0 s0; end_]]
     else raise (AssertionError "start must be less than end.")) σ = (Ok r, σ') ->
    is_continuous σ' r = VBool false /\ position_offset σ' r = VInt 0 /\
    exists positions, ds_pos r = Some (uint32 <$> np_sort positions)).
  { intros s0 e0 H.
    apply run_bind_inv in H as (end_ & σ1 & Hend & H).
    assert (σ1 = σ) as ->.
    { destruct e0.
      - by injection Hend as _ <-.
      - apply run_bind_inv in Hend as (cs & σ2 & Hcs & Hend).
        unfold chrom_size in Hcs. rewrite run_attr in Hcs.
        apply run_lift_inv in Hend as [_ ->]. by injection Hcs as _ <-. }
    case_decide; [|discriminate].
    rewrite run_bind, run_continuous, Hc in H.
    by apply fetch_regions_sparse in H. }
  destruct s as [s|], e as [e|];
    [apply (Hbody (Some s) (Some e))|apply (Hbody (Some s) None)
    |apply (Hbody None (Some e))|discriminate].
Qed.

Lemma run_query_sparse depth self q σ r σ' :
  truthy (is_continuous σ self) = false ->
  run_query slice_indexer depth self q σ = (Ok r, σ') ->
  is_continuous σ' r = VBool false.
Proof.
  intros Hc H. destruct q; cbn [run_query] in H.
  - by apply fetch_sparse in H as (? & _).
  - by apply fetch_regions_sparse in H as (? & _).
  - by apply fetch_positions_sparse in H as (? & _).
Qed.

(** C8.  From a dataset that is not continuous, every sequence of [fetch],
    [fetch_regions] and [fetch_positions] calls, each applied to the result
    of the one before, ends in a dataset that is not continuous. *)
Theorem sparse_is_absorbing
    (depth : nat) (qs : list query) (self r : BaseDSChrom)
    (σ σ' : gmap nat (gmap string pyval)) :
  truthy (is_continuous σ self) = false ->
  run_queries slice_indexer depth self qs σ = (Ok r, σ') ->
  truthy (is_continuous σ' r) = false.
Proof.
  revert self σ. induction qs as [|q qs IH]; intros self σ Hc H.
  - cbn [run_queries] in H. rewrite run_ret in H. by injection H as <- <-.
  - cbn [run_queries] in H.
    apply run_bind_inv in H as (ds & σ1 & Hq & H).
    apply (IH ds σ1); [|exact H].
    by rewrite (run_query_sparse _ _ _ _ _ _ Hc Hq).
Qed.

(** ** Sorting, minimum and maximum *)

Lemma np_sort_Permutation l : np_sort l ≡ₚ l.
Proof. apply merge_sort_Permutation. Qed.

Lemma np_sort_Sorted l : Sorted Z.le (np_sort l).
Proof. apply (Sorted_merge_sort Z.le). Qed.

Lemma np_sort_sorted l : Sorted Z.le l -> np_sort l = l.
Proof.
  intros Hs. apply (Sorted_unique Z.le); [apply np_sort_Sorted|exact Hs|].
  apply np_sort_Permutation.
Qed.

Lemma np_sort_idemp l : np_sort (np_sort l) = np_sort l.
Proof. apply np_sort_sorted, np_sort_Sorted. Qed.

Lemma np_sort_range l :
  Forall (fun p => 0 <= p < 2 ^ 32) l -> uint32 <$> np_sort l = np_sort l.
Proof. intros H. apply fmap_uint32_small. by rewrite np_sort_Permutation. Qed.

Lemma foldl_min_spec (l : list Z) x :
  (foldl Z.min x l = x \/ foldl Z.min x l ∈ l) /\
  foldl Z.min x l <= x /\ Forall (fun p => foldl Z.min x l <= p) l.
Proof.
  revert x. induction l as [|y l IH]; intros x; cbn [foldl].
  - split; [by left|]. split; [lia|constructor].
  - destruct (IH (Z.min x y)) as (Hin & Hle & Hall).
    split; [|split; [lia|constructor; [lia|done]]].
    destruct Hin as [Heq|Hin]; [|right; by constructor].
    destruct (decide (x <= y)).
    + left. lia.
    + right. replace (foldl Z.min (Z.min x y) l) with y by lia. constructor.
Qed.

Lemma foldl_max_spec (l : list Z) x :
  (foldl Z.max x l = x \/ foldl Z.max x l ∈ l) /\
  x <= foldl Z.max x l /\ Forall (fun p => p <= foldl Z.max x l) l.
Proof.
  revert x. induction l as [|y l IH]; intros x; cbn [foldl].
  - split; [by left|]. split; [lia|constructor].
  - destruct (IH (Z.max x y)) as (Hin & Hle & Hall).
    split; [|split; [lia|constructor; [lia|done]]].
    destruct Hin as [Heq|Hin]; [|right; by constructor].
    destruct (decide (y <= x)).
    + left. lia.
    + right. replace (foldl Z.max (Z.max x y) l) with y by lia. constructor.
Qed.

Lemma py_min_spec l m :
  py_min l = Ok m <-> m ∈ l /\ Forall (fun p => m <= p) l.
Proof.
  destruct l as [|x l]; cbn [py_min].
  - split; [discriminate|]. intros [H _]. by apply elem_of_nil in H.
  - destruct (foldl_min_spec l x) as (Hin & Hle & Hall). split.
    + intros [= <-]. split; [|by constructor].
      destruct Hin as [->|Hin]; [constructor|by constructor].
    + intros [Hm Hlow]. f_equal.
      assert (foldl Z.min x l ∈ x :: l) as Hin'.
      { destruct Hin as [->|Hin]; [constructor|by constructor]. }
      assert (Forall (fun p => foldl Z.min x l <= p) (x :: l)) as Hall'
        by (by constructor).
      rewrite Forall_forall in Hlow, Hall'.
      specialize (Hlow _ Hin'). specialize (Hall' _ Hm). lia.
Qed.

Lemma py_max_spec l m :
  py_max l = Ok m <-> m ∈ l /\ Forall (fun p => p <= m) l.
Proof.
  destruct l as [|x l]; cbn [py_max].
  - split; [discriminate|]. intros [H _]. by apply elem_of_nil in H.
  - destruct (foldl_max_spec l x) as (Hin & Hle & Hall). split.
    + intros [= <-]. split; [|by constructor].
      destruct Hin as [->|Hin]; [constructor|by constructor].
    + intros [Hm Hup]. f_equal.
      assert (foldl Z.max x l ∈ x :: l) as Hin'.
      { destruct Hin as [->|Hin]; [constructor|by constructor]. }
      assert (Forall (fun p => p <= foldl Z.max x l) (x :: l)) as Hall'
        by (by constructor).
      rewrite Forall_forall in Hup, Hall'.
      specialize (Hup _ Hin'). specialize (Hall' _ Hm). lia.
Qed.

Lemma py_min_Permutation l l' m : l ≡ₚ l' -> py_min l = Ok m -> py_min l' = Ok m.
Proof. intros Hp. rewrite !py_min_spec. by rewrite Hp. Qed.

Lemma py_max_Permutation l l' m : l ≡ₚ l' -> py_max l = Ok m -> py_max l' = Ok m.
Proof. intros Hp. rewrite !py_max_spec. by rewrite Hp. Qed.

(** ** Loops over keys *)

Lemma mapM_Forall2 {A B} (f : A -> result B) (l : list A) (l' : list B) :
  mapM f l = Ok l' <-> Forall2 (fun a b => f a = Ok b) l l'.
Proof.
  revert l'. induction l as [|a l IH]; intros l'; cbn [mapM].
  - split; [intros [= <-]; constructor|]. by inversion 1.
  - split.
    + intros H. apply result_bind_inv in H as (b & Hb & H).
      apply result_bind_inv in H as (bs & Hbs & H). injection H as <-.
      constructor; [done|]. by apply IH.
    + inversion 1 as [|? b ? bs Hb Hbs]; subst. rewrite Hb. cbn [mbind result_bind].
      apply IH in Hbs. rewrite Hbs. done.
Qed.

Lemma mapM_length {A B} (f : A -> result B) l l' :
  mapM f l = Ok l' -> length l' = length l.
Proof. rewrite mapM_Forall2. intros H. symmetry. by eapply Forall2_length. Qed.

Lemma sel_array_length self keys obj :
  sel_array self keys = Ok obj -> length (ds_cols obj) = length keys.
Proof.
  unfold sel_array. destruct (ds_pos self) as [idx|]; intros H.
  - apply result_bind_inv in H as (ixs & Hixs & H).
    apply result_bind_inv in H as (cols & Hcols & H). injection H as <-.
    cbn [ds_cols]. unfold take_cols in Hcols. unfold get_indexer in Hixs.
    case_decide; [|discriminate].
    apply mapM_length in Hcols, Hixs. congruence.
  - apply result_bind_inv in H as (cols & Hcols & H). injection H as <-.
    cbn [ds_cols]. by apply mapM_length in Hcols.
Qed.

(** The attribute reference plays no part in a selection. *)
Lemma sel_array_with_attrs obj l keys :
  sel_array (with_attrs obj l) keys
  = (fun x => with_attrs x l) <$> sel_array obj keys.
Proof.
  unfold sel_array. cbn [with_attrs ds_pos ds_cols ds_attrs ds_mc_type ds_width].
  destruct (ds_pos obj) as [idx|].
  - destruct (get_indexer idx keys) as [ixs|]; [|done]. cbn [mbind result_bind].
    destruct (take_cols (ds_cols obj) ixs); done.
  - destruct (mapM _ keys); done.
Qed.

(** Looking up every label of a unique index in that index finds each at
    its own place. *)
Lemma get_indexer_self (idx : list Z) :
  NoDup idx -> get_indexer idx idx = Ok (seq 0 (length idx)).
Proof.
  intros Hnd. unfold get_indexer. rewrite decide_True by done.
  apply mapM_Forall2. apply Forall2_same_length_lookup. split.
  - by rewrite length_seq.
  - intros i k j Hk Hj. apply lookup_seq in Hj as [-> _]. cbn [Nat.add].
    assert (list_find (fun x => x = k) idx = Some (i, k)) as ->; [|done].
    apply list_find_Some. split; [done|]. split; [done|].
    intros j y Hy Hlt ->.
    pose proof (NoDup_lookup _ _ _ _ Hnd Hy Hk). lia.
Qed.

Lemma take_cols_all (cols : list column) :
  take_cols cols (seq 0 (length cols)) = Ok cols.
Proof.
  apply mapM_Forall2. apply Forall2_same_length_lookup. split.
  - by rewrite length_seq.
  - intros i j c Hj Hc. apply lookup_seq in Hj as [-> _]. cbn [Nat.add].
    by rewrite Hc.
Qed.

(** ** Fetching the positions of a result again *)

Lemma genomic_position_made_sparse σ r positions :
  made_sparse σ r positions ->
  genomic_position σ r = Ok (uint32 <$> np_sort positions).
Proof.
  intros (_ & Ho & Hp). unfold genomic_position, get_index. rewrite Ho, Hp.
  cbn [as_int mbind result_bind]. f_equal.
  rewrite <- (list_fmap_id (uint32 <$> np_sort positions)) at 2.
  apply list_fmap_ext. intros _ p _. unfold id. lia.
Qed.

Lemma position_keys_sorted o positions :
  Forall (fun p => 0 <= p < 2 ^ 32) positions ->
  position_keys o (np_sort positions) = position_keys o positions.
Proof. intros _. unfold position_keys. by rewrite np_sort_idemp. Qed.

Lemma position_keys_zero positions :
  Forall (fun p => 0 <= p < 2 ^ 32) positions ->
  position_keys 0 positions = np_sort positions.
Proof.
  intros H. unfold position_keys. rewrite np_sort_range by done.
  rewrite <- (np_sort_range positions) at 2 by done.
  apply list_fmap_ext. intros _ p _. f_equal. lia.
Qed.

Lemma position_offset_fresh_offset (σ : gmap nat (gmap string pyval)) obj l d v :
  position_offset (<[l := <["offset" := v]> d]> σ) (with_attrs obj l) = v.
Proof.
  unfold position_offset. cbn [with_attrs ds_attrs].
  by rewrite lookup_total_insert_eq, lookup_insert_eq.
Qed.

Lemma fetch_start_not_before_end depth self s e σ :
  ~ s < e ->
  fetch slice_indexer (S depth) self (Some s) (Some e) σ
  = (Err (AssertionError "start must be less than end."), σ).
Proof.
  intros H. cbn [fetch default from_option]. unfold id.
  rewrite run_bind, run_ret. by rewrite decide_False.
Qed.

(** C7.  Let [fetch_positions(P)] return a dataset [r] for positions that
    fit in [uint32], and let [G] be the position coordinate of [r].  Then
    [fetch_positions(G)] on the same source returns a dataset with the same
    positions [G] and the same columns as [r]; and when [P] has no
    duplicates, so does [fetch_positions(G)] on [r] itself. *)
Theorem fetch_positions_idempotent
    (depth : nat) (self r : BaseDSChrom) (positions : list Z)
    (σ σ' : gmap nat (gmap string pyval)) :
  is_Some (σ !! ds_attrs self) ->
  Forall (fun p => 0 <= p < 2 ^ 32) positions ->
  fetch_positions slice_indexer depth self positions σ = (Ok r, σ') ->
  exists G,
    genomic_position σ' r = Ok G /\
    (exists r2 σ2,
        fetch_positions slice_indexer depth self G σ' = (Ok r2, σ2) /\
        genomic_position σ2 r2 = Ok G /\ ds_cols r2 = ds_cols r) /\
    (NoDup positions ->
     exists r3 σ3,
        fetch_positions slice_indexer depth r G σ' = (Ok r3, σ3) /\
        genomic_position σ3 r3 = Ok G /\ ds_cols r3 = ds_cols r).
Proof.
  intros [d Hd] Hrange H.
  pose proof (fetch_positions_sparse _ _ _ _ _ _ H) as Hms.
  pose proof (genomic_position_made_sparse _ _ _ Hms) as HG.
  rewrite np_sort_range in HG by done.
  exists (np_sort positions). split; [exact HG|].
  assert (HGrange : Forall (fun p => 0 <= p < 2 ^ 32) (np_sort positions))
    by (by rewrite np_sort_Permutation).
  assert (Hagain : forall x r' σ'',
            fetch_positions slice_indexer depth x (np_sort positions) σ' = (Ok r', σ'') ->
            genomic_position σ'' r' = Ok (np_sort positions)).
  { intros x r' σ'' H'. apply fetch_positions_sparse in H'.
    apply genomic_position_made_sparse in H'.
    by rewrite np_sort_range, np_sort_idemp in H' by done. }
  assert (Hself : σ' !!! ds_attrs self = σ !!! ds_attrs self).
  { pose proof (proj2 (proj2 (preserves_fetch_family depth)) self positions σ) as Hsub.
    rewrite H in Hsub. cbn [snd] in Hsub.
    rewrite !lookup_total_alt, Hd. by rewrite (lookup_weaken _ _ _ _ Hd Hsub). }
  assert (Hc' : is_continuous σ' self = is_continuous σ self)
    by (unfold is_continuous; by rewrite Hself).
  assert (Ho' : position_offset σ' self = position_offset σ self)
    by (unfold position_offset; by rewrite Hself).
  split.
  - (* on the source *)
    cut (exists r2 σ2,
           fetch_positions slice_indexer depth self (np_sort positions) σ' = (Ok r2, σ2)
           /\ ds_cols r2 = ds_cols r).
    { intros (r2 & σ2 & H2 & Hcols). exists r2, σ2. eauto. }
    destruct depth as [|depth]; [discriminate|].
    cbn [fetch_positions] in H |- *.
    rewrite run_bind, run_continuous in H. rewrite run_bind, run_continuous, Hc'.
    destruct (truthy (is_continuous σ self)) eqn:Hc.
    + apply run_bind_inv in H as (m & σ1 & Hm & H).
      apply run_lift_inv in Hm as [Hm ->].
      apply run_bind_inv in H as (mx & σ1 & Hmx & H).
      apply run_lift_inv in Hmx as [Hmx ->].
      apply run_bind_inv in H as (obj1 & σ1 & Hf & H).
      destruct depth as [|depth]; [discriminate|].
      destruct (decide (m < mx + 1)) as [Hlt|Hge];
        [|by rewrite fetch_start_not_before_end in Hf].
      rewrite fetch_continuous_eq in Hf by done.
      destruct (as_int (position_offset σ self) ≫= _) as [obj0|] eqn:Hsl;
        [|discriminate].
      injection Hf as <- <-.
      rewrite _fetch_positions_eq, position_offset_fresh_offset in H.
      cbn [as_int mbind result_bind] in H.
      rewrite sel_array_with_attrs in H.
      destruct (sel_array obj0 (position_keys m positions)) as [obj2|] eqn:Hsa;
        [|discriminate].
      injection H as <- _.
      rewrite (py_min_Permutation positions (np_sort positions) m)
        by (by rewrite ?np_sort_Permutation).
      rewrite (py_max_Permutation positions (np_sort positions) mx)
        by (by rewrite ?np_sort_Permutation).
      rewrite run_bind, run_lift, run_bind, run_lift, run_bind.
      rewrite fetch_continuous_eq by (by rewrite ?Hc').
      rewrite Ho', Hsl.
      rewrite _fetch_positions_eq, position_offset_fresh_offset.
      cbn [as_int mbind result_bind].
      rewrite sel_array_with_attrs, position_keys_sorted, Hsa by done.
      eexists _, _. split; [reflexivity|]. reflexivity.
    + rewrite _fetch_positions_eq in H.
      destruct (as_int (position_offset σ self) ≫= _) as [obj|] eqn:Hsa;
        [|discriminate].
      injection H as <- _.
      rewrite _fetch_positions_eq, Ho'.
      destruct (as_int (position_offset σ self)) as [o|]; [|discriminate].
      cbn [mbind result_bind] in Hsa |- *.
      rewrite position_keys_sorted, Hsa by done.
      eexists _, _. split; [reflexivity|]. reflexivity.
  - (* on the result *)
    intros Hnd.
    cut (exists r3 σ3,
           fetch_positions slice_indexer depth r (np_sort positions) σ' = (Ok r3, σ3)
           /\ ds_cols r3 = ds_cols r).
    { intros (r3 & σ3 & H3 & Hcols). exists r3, σ3. eauto. }
    assert (Hlen : length (ds_cols r) = length (np_sort positions)).
    { clear Hagain. destruct depth as [|depth]; [discriminate|].
      cbn [fetch_positions] in H. rewrite run_bind, run_continuous in H.
      assert (Hfp : forall x σx, _fetch_positions x positions σx = (Ok r, σ') ->
                length (ds_cols r) = length (np_sort positions)).
      { intros x σx Hx. rewrite _fetch_positions_eq in Hx.
        destruct (as_int (position_offset σx x)) as [o|]; [|discriminate].
        cbn [mbind result_bind] in Hx.
        destruct (sel_array x (position_keys o positions)) as [obj|] eqn:Hsa;
          [|discriminate].
        injection Hx as <- _. apply sel_array_length in Hsa.
        cbn [with_pos with_attrs ds_cols]. rewrite Hsa. unfold position_keys.
        by rewrite !length_fmap. }
      destruct (truthy (is_continuous σ self)); [|by eapply Hfp].
      apply run_bind_inv in H as (m & σ1 & _ & H).
      apply run_bind_inv in H as (mx & σ2 & _ & H).
      apply run_bind_inv in H as (obj1 & σ3 & _ & H). by eapply Hfp. }
    destruct Hms as (Hrc & Hro & Hrp). rewrite np_sort_range in Hrp by done.
    destruct depth as [|depth]; [discriminate|].
    cbn [fetch_positions]. rewrite run_bind, run_continuous, Hrc. cbn [truthy].
    rewrite _fetch_positions_eq, Hro. cbn [as_int mbind result_bind].
    rewrite position_keys_zero, np_sort_idemp by done.
    unfold sel_array. rewrite Hrp.
    rewrite get_indexer_self
      by (by rewrite np_sort_Permutation).
    cbn [mbind result_bind]. rewrite <- Hlen, take_cols_all.
    cbn [mbind result_bind].
    eexists _, _. split; [reflexivity|]. reflexivity.
Qed.

(** ** Fetching positions inside the window *)

Lemma mapM_fmap {A B C} (f : B -> result C) (g : A -> B) (l : list A) :
  mapM f (g <$> l) = mapM (fun a => f (g a)) l.
Proof.
  induction l as [|a l IH]; [done|]. cbn [fmap list_fmap mapM].
  change (list_fmap A B g l) with (g <$> l). by rewrite IH.
Qed.

Lemma mapM_total {A B} (f : A -> result B) (Q : A -> B -> Prop) (l : list A) :
  Forall (fun a => exists b, f a = Ok b /\ Q a b) l ->
  exists l', mapM f l = Ok l' /\ Forall2 Q l l'.
Proof.
  induction 1 as [|a l (b & Hb & HQ) _ (l' & Hl' & HQ')].
  - exists []. split; [done|constructor].
  - exists (b :: l'). cbn [mapM]. rewrite Hb. cbn [mbind result_bind].
    rewrite Hl'. split; [done|by constructor].
Qed.

Lemma py_min_nonempty l : l <> [] -> exists m, py_min l = Ok m.
Proof. destruct l; [done|]. cbn [py_min]. eauto. Qed.

Lemma py_max_nonempty l : l <> [] -> exists m, py_max l = Ok m.
Proof. destruct l; [done|]. cbn [py_max]. eauto. Qed.

Lemma fetch_positions_continuous_in_window depth self (positions : list Z) o σ :
  continuous_ds σ self ->
  as_int (position_offset σ self) = Ok o ->
  positions <> [] ->
  Forall (fun p => o <= p < o + Z.of_nat (length (ds_cols self))) positions ->
  Forall (fun p => 0 <= p < 2 ^ 32) positions ->
  exists r σ',
    fetch_positions slice_indexer (S (S depth)) self positions σ = (Ok r, σ') /\
    Forall2 (fun p c => o <= p /\ ds_cols self !! Z.to_nat (p - o) = Some c)
            (np_sort positions) (ds_cols r).
Proof.
  intros [Hc Hpos] Hoff Hne Hwin Hrange.
  destruct (py_min_nonempty _ Hne) as [m Hm].
  destruct (py_max_nonempty _ Hne) as [mx Hmx].
  pose proof (proj1 (py_min_spec _ _) Hm) as [Hmin Hlow].
  pose proof (proj1 (py_max_spec _ _) Hmx) as [Hmax Hup].
  rewrite Forall_forall in Hwin, Hrange, Hlow, Hup.
  pose proof (Hwin _ Hmin). pose proof (Hwin _ Hmax).
  pose proof (Hlow _ Hmax). pose proof (Hrange _ Hmin).
  cbn [fetch_positions]. rewrite run_bind, run_continuous, Hc.
  rewrite run_bind, run_lift, Hm, run_bind, run_lift, Hmx, run_bind.
  rewrite fetch_continuous_eq by (done || lia).
  rewrite Hoff. cbn [mbind result_bind]. unfold sel_slice. rewrite Hpos.
  rewrite _fetch_positions_eq, position_offset_fresh_offset.
  cbn [as_int mbind result_bind]. rewrite sel_array_with_attrs.
  unfold sel_array. cbn [ds_pos ds_cols].
  unfold position_keys. rewrite np_sort_range by (by apply Forall_forall).
  rewrite mapM_fmap.
  set (sl := list_slice (ds_cols self) (m - o) (mx + 1 - o)).
  destruct (mapM_total (fun p => list_getitem sl (uint32 (p - m)))
              (fun p c => o <= p /\ ds_cols self !! Z.to_nat (p - o) = Some c)
              (np_sort positions)) as (cs & Hcs & HQ).
  { apply Forall_forall. intros p Hp. rewrite np_sort_Permutation in Hp.
    pose proof (Hwin _ Hp). pose proof (Hrange _ Hp).
    pose proof (Hlow _ Hp). pose proof (Hup _ Hp).
    rewrite uint32_small by lia.
    assert (Hlen : Z.of_nat (length sl) = mx + 1 - m).
    { unfold sl. rewrite length_list_slice by lia. lia. }
    destruct (lookup_lt_is_Some_2 (ds_cols self) (Z.to_nat (p - o))) as [c Hcol];
      [lia|].
    exists c. split; [|split; [lia|done]].
    unfold list_getitem, py_index. rewrite Hlen, decide_True by lia.
    cbn [mbind result_bind]. unfold sl.
    rewrite lookup_list_slice by lia.
    replace (Z.to_nat (m - o) + Z.to_nat (p - m))%nat with (Z.to_nat (p - o)) by lia.
    by rewrite Hcol. }
  rewrite Hcs. cbn [fmap result_fmap mbind result_bind].
  eexists _, _. split; [reflexivity|]. exact HQ.
Qed.

Lemma fetch_positions_sparse_in_window depth self (positions idx : list Z) σ :
  truthy (is_continuous σ self) = false ->
  position_offset σ self = VInt 0 ->
  ds_pos self = Some idx -> NoDup idx -> length idx = length (ds_cols self) ->
  Forall (fun p => p ∈ idx) positions ->
  Forall (fun p => 0 <= p < 2 ^ 32) positions ->
  exists r σ',
    fetch_positions slice_indexer (S depth) self positions σ = (Ok r, σ') /\
    Forall2 (fun p c => exists i : nat, idx !! i = Some p /\ ds_cols self !! i = Some c)
            (np_sort positions) (ds_cols r).
Proof.
  intros Hc Hoff Hpos Hnd Hlen Hin Hrange.
  cbn [fetch_positions]. rewrite run_bind, run_continuous, Hc.
  rewrite _fetch_positions_eq, Hoff. cbn [as_int mbind result_bind].
  rewrite position_keys_zero by done.
  unfold sel_array. rewrite Hpos. unfold get_indexer. rewrite decide_True by done.
  destruct (mapM_total
              (fun k => match list_find (fun x => x = k) idx with
                        | Some (i, _) => Ok i
                        | None => Err (KeyError "not all values found in index 'pos'")
                        end)
              (fun p (i : nat) => idx !! i = Some p)
              (np_sort positions)) as (ixs & Hixs & HQ1).
  { apply Forall_forall. intros p Hp. rewrite np_sort_Permutation in Hp.
    rewrite Forall_forall in Hin. specialize (Hin _ Hp).
    destruct (list_find_elem_of (fun x => x = p) idx p Hin eq_refl) as [[i y] Hf].
    rewrite Hf. exists i. split; [done|].
    apply list_find_Some in Hf as (Hi & -> & _). done. }
  rewrite Hixs. cbn [mbind result_bind].
  destruct (mapM_total
              (fun i => match ds_cols self !! i with
                        | Some c => Ok c
                        | None => Err IndexError
                        end)
              (fun (i : nat) c => ds_cols self !! i = Some c) ixs) as (cs & Hcs & HQ2).
  { apply Forall_forall. intros i Hi.
    apply list_elem_of_lookup in Hi as [j Hj].
    destruct (Forall2_lookup_r _ _ _ _ _ HQ1 Hj) as (p & _ & Hip).
    apply lookup_lt_Some in Hip. rewrite Hlen in Hip.
    destruct (lookup_lt_is_Some_2 _ _ Hip) as [c Hcol].
    exists c. by rewrite Hcol. }
  unfold take_cols. rewrite Hcs. cbn [mbind result_bind].
  eexists _, _. split; [reflexivity|]. cbn [with_pos with_attrs ds_cols].
  clear Hixs Hcs. revert cs HQ2.
  induction HQ1 as [|p i ps ixs' Hpi _ IH]; intros cs HQ2.
  - inversion HQ2. constructor.
  - inversion HQ2 as [|? c ? cs' Hic Hrest]; subst. constructor; [eauto|].
    by apply IH.
Qed.

(** For positions inside the window of a dataset, which fit in [uint32]
    and are not empty when the dataset is continuous, [fetch_positions]
    returns a dataset whose genome positions are the given ones sorted
    ascending, duplicates kept, that is not continuous, has offset zero and
    holds at each position the column of the source at that position. *)
Lemma fetch_positions_in_window depth self (positions G : list Z) σ :
  (2 <= depth)%nat ->
  genomic_position σ self = Ok G ->
  Forall (fun p => p ∈ G) positions ->
  Forall (fun p => 0 <= p < 2 ^ 32) positions ->
  continuous_ds σ self /\ positions <> [] \/ sparse_ds σ self ->
  exists r σ',
    fetch_positions slice_indexer depth self positions σ = (Ok r, σ') /\
    genomic_position σ' r = Ok (np_sort positions) /\
    is_continuous σ' r = VBool false /\
    position_offset σ' r = VInt 0 /\
    Forall2 (column_at G self) (np_sort positions) (ds_cols r).
Proof.
  intros Hd HG Hin Hrange Hkind.
  destruct depth as [|[|depth]]; [lia|lia|].
  assert (Hwrap : forall r σ' (Q : Z -> column -> Prop),
            (forall p c, Q p c -> column_at G self p c) ->
            fetch_positions slice_indexer (S (S depth)) self positions σ = (Ok r, σ') /\
            Forall2 Q (np_sort positions) (ds_cols r) ->
            fetch_positions slice_indexer (S (S depth)) self positions σ = (Ok r, σ') /\
            genomic_position σ' r = Ok (np_sort positions) /\
            is_continuous σ' r = VBool false /\
            position_offset σ' r = VInt 0 /\
            Forall2 (column_at G self) (np_sort positions) (ds_cols r)).
  { intros r σ' Q HQ [H HF]. split; [exact H|].
    pose proof (fetch_positions_sparse _ _ _ _ _ _ H) as Hms.
    pose proof (genomic_position_made_sparse _ _ _ Hms) as HG'.
    rewrite np_sort_range in HG' by done. destruct Hms as (Hc' & Ho' & _).
    repeat split; try done. eapply Forall2_impl; [exact HF|exact HQ]. }
  destruct Hkind as [[Hcont Hne]|(Hc & Ho & idx & Hpos & Hnd & Hlen)].
  - destruct (as_int (position_offset σ self)) as [o|] eqn:Hoff;
      [|by unfold genomic_position in HG; rewrite Hoff in HG].
    rewrite (genomic_position_bare σ self o (proj2 Hcont) Hoff) in HG.
    injection HG as <-.
    destruct (fetch_positions_continuous_in_window depth self positions o σ)
      as (r & σ' & Hr); try done.
    { eapply Forall_impl; [exact Hin|]. intros p Hp. apply elem_of_seqZ in Hp. lia. }
    exists r, σ'. eapply Hwrap; [|exact Hr].
    intros p c [Hop Hpc]. exists (Z.to_nat (p - o)). split; [|done].
    apply lookup_lt_Some in Hpc.
    rewrite lookup_seqZ. lia.
  - assert (G = idx) as ->.
    { unfold genomic_position, get_index in HG. rewrite Ho, Hpos in HG.
      cbn [as_int mbind result_bind] in HG. injection HG as <-.
      rewrite <- (list_fmap_id idx) at 2.
      apply list_fmap_ext. intros _ p _. unfold id. lia. }
    destruct (fetch_positions_sparse_in_window (S depth) self positions idx σ)
      as (r & σ' & Hr); try done.
    exists r, σ'. eapply Hwrap; [|exact Hr]. intros p c Hpc. exact Hpc.
Qed.

Lemma fetch_positions_nil_raises depth self σ :
  (1 <= depth)%nat ->
  truthy (is_continuous σ self) = true ->
  fetch_positions slice_indexer depth self [] σ
  = (Err (ValueError "min() arg is an empty sequence"), σ).
Proof.
  intros Hd Hc. destruct depth as [|depth]; [lia|].
  cbn [fetch_positions]. by rewrite run_bind, run_continuous, Hc.
Qed.

(** C2.  The empty set of positions on a continuous dataset: the covering
    range is computed with [min] before anything else, so the call raises
    and no dataset is returned. *)
Theorem fetch_positions_empty_continuous
    (depth : nat) (self : BaseDSChrom) (σ : gmap nat (gmap string pyval)) :
  (1 <= depth)%nat ->
  truthy (is_continuous σ self) = true ->
  fetch_positions slice_indexer depth self [] σ
  = (Err (ValueError "min() arg is an empty sequence"), σ).
Proof. apply fetch_positions_nil_raises. Qed.

(** ** The match mask of the codebook *)

Lemma elem_of_mask_select {A} (mask : list bool) (l : list A) (x : A) :
  x ∈ mask_select mask l <->
  exists j : nat, mask !! j = Some true /\ l !! j = Some x.
Proof.
  unfold mask_select. revert l. induction mask as [|b mask IH]; intros l.
  - cbn. split; [by intros ?%elem_of_nil|]. by intros (j & ? & _).
  - destruct l as [|y l].
    { cbn. split; [by intros ?%elem_of_nil|]. by intros (j & _ & ?). }
    cbn [zip zip_with]. rewrite filter_cons. cbn [fst].
    destruct b.
    + rewrite decide_True by done. cbn [fmap list_fmap snd].
      rewrite elem_of_cons, IH. split.
      * intros [->|(j & ? & ?)]; [by exists 0%nat|by exists (S j)].
      * intros ([|j] & Hm & Hl); cbn in Hm, Hl; [left; congruence|right; eauto].
    + rewrite decide_False by done. rewrite IH. split.
      * intros (j & ? & ?). by exists (S j).
      * intros ([|j] & Hm & Hl); cbn in Hm, Hl; [congruence|eauto].
Qed.

Lemma lookup_mask_select_index (mask : list bool) (idx : list Z) (p : Z) :
  p ∈ mask_select mask idx <->
  exists j : nat, mask !! j = Some true /\ idx !! j = Some p.
Proof. apply elem_of_mask_select. Qed.







(** [str.upper] is idempotent, so a validated pattern validates to itself. *)
Lemma upper_ascii_idemp c : upper_ascii (upper_ascii c) = upper_ascii c.
Proof. by destruct c as [[] [] [] [] [] [] [] []]. Qed.

Lemma upper_idemp s : upper (upper s) = upper s.
Proof.
  induction s as [|c s IH]; [done|]. cbn [upper]. by rewrite upper_ascii_idemp, IH.
Qed.

Lemma _validate_mc_pattern_upper cb pattern pat :
  _validate_mc_pattern cb pattern = Ok pat -> pat = upper pattern.
Proof.
  unfold _validate_mc_pattern. intros H.
  apply result_bind_inv in H as (cs & _ & H).
  destruct (eq_int cs _); [|discriminate].
  apply result_bind_inv in H as (cp & _ & H).
  apply result_bind_inv in H as (i & _ & H).
  apply result_bind_inv in H as (c & _ & H).
  case_decide; [|discriminate]. by injection H as <-.
Qed.

Lemma _validate_mc_pattern_idemp cb pattern pat :
  _validate_mc_pattern cb pattern = Ok pat -> _validate_mc_pattern cb pat = Ok pat.
Proof.
  intros H. pose proof (_validate_mc_pattern_upper _ _ _ H) as ->.
  unfold _validate_mc_pattern in *. by rewrite upper_idemp.
Qed.



Lemma codebook_inv self σ cb σ' :
  codebook self σ = (Ok cb, σ') ->
  σ' = σ /\ cb_mc_type cb = ds_mc_type self /\ cb_pos cb = get_index self /\
  cb_values cb = col_codebook <$> ds_cols self.
Proof.
  unfold codebook. rewrite run_bind, run_attr.
  destruct (_ !! "c_pos"); [|discriminate].
  rewrite run_bind, run_attr.
  destruct (_ !! "context_size"); [|discriminate].
  rewrite run_ret. intros [= <- <-]. done.
Qed.


(** ** Aggregation: which binning is used, and the empty candidate set *)

(** The first step of [get_region_ds] with a valid [bin_size]: the bounds of
    the binned range are computed and the store is not touched. *)
Lemma run_region_bounds self (rs re : option Z) o σ :
  as_int (position_offset σ self) = Ok o ->
  exists bounds : number * number,
    (rs' ← match rs with
           | Some s => mret (Num s)
           | None => o ← offset self; o ← lift (as_int o);
                     mret (num_add (index_min (get_index self)) o)
           end;
     re' ← match re with
           | Some e => mret (Num e)
           | None => o ← offset self; o ← lift (as_int o);
                     mret (num_add (index_max (get_index self)) o)
           end;
     mret (rs', re')) σ = (Ok bounds, σ).
Proof.
  intros Ho.
  assert (Hread : forall k : Z -> number,
            (o' ← offset self; o' ← lift (as_int o'); mret (k o')) σ = (Ok (k o), σ)).
  { intros k. by rewrite run_bind, run_offset, run_bind, run_lift, Ho. }
  destruct rs as [s|], re as [e|]; eexists.
  - by rewrite run_bind, run_ret, run_bind, run_ret.
  - by rewrite run_bind, run_ret, run_bind,
      (Hread (fun o' => num_add (index_max (get_index self)) o')).
  - by rewrite run_bind,
      (Hread (fun o' => num_add (index_min (get_index self)) o')), run_bind, run_ret.
  - by rewrite run_bind,
      (Hread (fun o' => num_add (index_min (get_index self)) o')), run_bind,
      (Hread (fun o' => num_add (index_max (get_index self)) o')).
Qed.

(** ** A regions table never gets through *)












(** C6.  On a continuous dataset, when the pattern matches no position,
    [get_region_ds] with a [bin_size] does not get to its branch for the
    empty selection: fetching the empty list of positions raises. *)
Theorem get_region_ds_no_match_continuous
    (depth : nat) (self : BaseDSChrom) (mc_type : string) (b o : Z)
    (rn : option string) (rs re : option Z) (cb : Codebook)
    (σ : gmap nat (gmap string pyval)) :
  (1 <= depth)%nat ->
  truthy (is_continuous σ self) = true ->
  1 < b ->
  as_int (position_offset σ self) = Ok o ->
  codebook self σ = (Ok cb, σ) ->
  get_mc_pos parse_mc_pattern cb mc_type (Some (position_offset σ self)) = Ok [] ->
  get_region_ds parse_mc_pattern slice_indexer depth self mc_type
    (Some b) None rn rs re σ
  = (Err (ValueError "min() arg is an empty sequence"), σ).
Proof.
  intros Hd Hc Hb Ho Hcb Hpos.
  unfold get_region_ds. cbv beta iota.
  rewrite (decide_True (P := 1 < b)) by done.
  destruct (run_region_bounds self rs re o σ Ho) as [bounds Hbounds].
  rewrite (run_bind_ok _ _ _ _ _ Hbounds).
  rewrite run_bind, run_ret.
  rewrite run_bind, Hcb, run_bind, run_offset, run_bind, run_lift, Hpos.
  rewrite run_bind, run_ret.
  rewrite run_bind, fetch_positions_nil_raises by done.
  reflexivity.
Qed.

End Properties.

(** * The statements on the example chromosome *)

Lemma returned_eq {A} (dflt : A) (out : result A * gmap nat (gmap string pyval)) :
  is_ok out.1 = true -> out = (Ok (returned dflt out), out.2).
Proof. destruct out as [[a|e] σ]; [done|discriminate]. Qed.

Lemma fetch_continuous_range_witness :
  exists r σ',
    fetch sorted_slice_indexer 3 ex_ds (Some 2) (Some 5) ex_store = (Ok r, σ') /\
    genomic_position σ' r = Ok [2; 3; 4] /\
    Forall2 (column_at (seqZ 0 10) ex_ds) [2; 3; 4] (ds_cols r) /\
    continuous_ds σ' r /\
    position_offset σ' r = VInt 2.
Proof.
  apply (fetch_continuous_range sorted_slice_indexer 3 ex_ds 2 5 0 (seqZ 0 10) ex_store).
  - lia.
  - split; reflexivity.
  - reflexivity.
  - reflexivity.
  - lia.
  - lia.
Defined.

Lemma fetch_positions_empty_continuous_witness :
  fetch_positions sorted_slice_indexer 3 ex_ds [] ex_store
  = (Err (ValueError "min() arg is an empty sequence"), ex_store).
Proof.
  apply (fetch_positions_empty_continuous sorted_slice_indexer 3 ex_ds ex_store).
  - lia.
  - reflexivity.
Defined.

(** On the sparse example the same call returns the dataset without
    positions. *)
Lemma fetch_positions_empty_sparse :
  (fetch_positions sorted_slice_indexer 3 ex_sparse_ds [] ex_sparse_store).1
  = Ok (Dataset 1 (Some []) ["CGA"; "CGC"; "CAA"] 2 []).
Proof. vm_compute. reflexivity. Qed.






(** The call of the witness returns: the positions 1, 4 and 7. *)
Lemma select_mc_type_example :
  (select_mc_type iupac_parse sorted_slice_indexer 3 ex_ds "cgn" ex_store).1
  = Ok (Dataset 2 (Some [1; 4; 7]) ["CGA"; "CGC"; "CAA"] 2
          [Column [2; 4] [1; 0; 0]; Column [5; 10] [0; -1; 0];
           Column [8; 16] [1; 0; 0]]).
Proof. vm_compute. reflexivity. Qed.

(** A call with both [bin_size] and [regions] on the example chromosome:
    the pattern is valid and its positions are found, and the call of
    [_regions_to_pos] with the dataframe raises. *)
Lemma both_given_example :
  get_region_ds iupac_parse sorted_slice_indexer 3 ex_ds "CGN"
    (Some 5) (Some ex_regions) None None None ex_store
  = (Err TypingError, ex_store).
Proof. reflexivity. Qed.

Lemma get_region_ds_no_match_continuous_witness :
  get_region_ds iupac_parse sorted_slice_indexer 3 ex_ds "CTN"
    (Some 5) None None None None ex_store
  = (Err (ValueError "min() arg is an empty sequence"), ex_store).
Proof.
  apply (get_region_ds_no_match_continuous iupac_parse sorted_slice_indexer 3 ex_ds
           "CTN" 5 0 None None None ex_codebook ex_store).
  - lia.
  - reflexivity.
  - lia.
  - reflexivity.
  - reflexivity.
  - reflexivity.
Defined.

(** On the sparse example the same call gets to the branch for the empty
    selection and returns zeros under the labels of the bins; with a
    pattern that matches, it returns the sums under the same labels, zero
    where a bin has no position. *)
Lemma get_region_ds_sparse_examples :
  (get_region_ds iupac_parse sorted_slice_indexer 3 ex_sparse_ds "CTN"
     (Some 5) None None None None ex_sparse_store).1
  = Ok (RegionDS "pos_bins" [LInt 0; LInt 5] [[0; 0]; [0; 0]]) /\
  (get_region_ds iupac_parse sorted_slice_indexer 3 ex_sparse_ds "CGN"
     (Some 2) None None (Some 0) (Some 6) ex_sparse_store).1
  = Ok (RegionDS "pos_bins" [LInt 0; LInt 2; LInt 4] [[2; 4]; [5; 10]; [0; 0]]).
Proof. split; vm_compute; reflexivity. Qed.

Lemma fetch_positions_idempotent_witness :
  exists G,
    genomic_position ex_fetched.2 (returned ex_ds ex_fetched) = Ok G /\
    (exists r2 σ2,
        fetch_positions sorted_slice_indexer 3 ex_ds G ex_fetched.2 = (Ok r2, σ2) /\
        genomic_position σ2 r2 = Ok G /\
        ds_cols r2 = ds_cols (returned ex_ds ex_fetched)) /\
    (NoDup [7; 1; 4] ->
     exists r3 σ3,
        fetch_positions sorted_slice_indexer 3 (returned ex_ds ex_fetched) G ex_fetched.2
        = (Ok r3, σ3) /\
        genomic_position σ3 r3 = Ok G /\
        ds_cols r3 = ds_cols (returned ex_ds ex_fetched)).
Proof.
  apply (fetch_positions_idempotent sorted_slice_indexer 3 ex_ds
           (returned ex_ds ex_fetched) [7; 1; 4] ex_store ex_fetched.2).
  - eexists. reflexivity.
  - repeat constructor; lia.
  - apply returned_eq. vm_compute. reflexivity.
Defined.

Lemma sparse_is_absorbing_witness :
  is_ok ex_queried.1 = true /\
  truthy (is_continuous ex_queried.2 (returned ex_sparse_ds ex_queried)) = false.
Proof.
  split; [vm_compute; reflexivity|].
  apply (sparse_is_absorbing sorted_slice_indexer 3 ex_queries ex_sparse_ds
           (returned ex_sparse_ds ex_queried) ex_sparse_store ex_queried.2).
  - reflexivity.
  - apply returned_eq. vm_compute. reflexivity.
Defined.

Lemma fetch_family_source_unchanged_witness :
  ex_store ⊆ store_after iupac_parse sorted_slice_indexer 3 ex_ds
               (CallSelectMcType "CGN") ex_store /\
  store_after iupac_parse sorted_slice_indexer 3 ex_ds
    (CallSelectMcType "CGN") ex_store !! ds_attrs ex_ds
  = ex_store !! ds_attrs ex_ds /\
  is_continuous
    (store_after iupac_parse sorted_slice_indexer 3 ex_ds
       (CallSelectMcType "CGN") ex_store) ex_ds
  = is_continuous ex_store ex_ds /\
  position_offset
    (store_after iupac_parse sorted_slice_indexer 3 ex_ds
       (CallSelectMcType "CGN") ex_store) ex_ds
  = position_offset ex_store ex_ds /\
  genomic_position
    (store_after iupac_parse sorted_slice_indexer 3 ex_ds
       (CallSelectMcType "CGN") ex_store) ex_ds
  = genomic_position ex_store ex_ds.
Proof.
  apply (fetch_family_source_unchanged iupac_parse sorted_slice_indexer 3 ex_ds
           (CallSelectMcType "CGN") ex_store).
  eexists. reflexivity.
Defined.

Lemma get_region_ds_small_bin_size_witness :
  get_region_ds iupac_parse sorted_slice_indexer 3 ex_ds "CGN"
    (Some 1) None None None None ex_store
  = (Err (AssertionError "bin_size must be greater than 1."), ex_store).
Proof.
  apply (get_region_ds_small_bin_size iupac_parse sorted_slice_indexer 3 ex_ds
           "CGN" 1 None None None ex_store).
  lia.
Defined.

(** * Further properties of the interval expansion *)

Lemma interval_le_diff regions :
  Forall interval_le regions ->
  Forall (fun r : Z * Z => 0 <= r.2 - r.1) regions.
Proof.
  intros H. eapply Forall_impl; [exact H|]. intros [??] (? & ? & ?); simpl in *; lia.
Qed.

(** The loop invariant once more, for intervals that may be empty. *)
Lemma foldM_regions_to_pos_le (regions : list (Z * Z)) (done_ : list Z) :
  Forall interval_le regions ->
  foldM (regions_to_pos_step uint32)
    (done_ ++ replicate (Z.to_nat (total_length regions)) 0,
     Z.of_nat (length done_)) regions
  = Ok (done_ ++ runs regions,
        Z.of_nat (length done_) + total_length regions).
Proof.
  intros Hall. revert done_.
  induction Hall as [|[s e] rs Hr Hrs IH]; intros done_.
  - change (total_length []) with 0. change (runs []) with (@nil Z).
    cbn [foldM Z.to_nat replicate]. by rewrite Z.add_0_r.
  - destruct Hr as (Hs & Hse & He). simpl in Hs, Hse, He.
    cbn [foldM regions_to_pos_step].
    rewrite uint32_small by lia.
    rewrite arange_seqZ by lia.
    pose proof (total_length_nonneg rs (interval_le_diff rs Hrs)) as Hnn.
    rewrite total_length_cons, runs_cons.
    rewrite Z2Nat.inj_add, replicate_add by lia.
    set (gap := replicate (Z.to_nat (e - s)) 0).
    assert (Hgap : Z.of_nat (length gap) = e - s).
    { unfold gap. rewrite length_replicate. lia. }
    rewrite <- Hgap at 1.
    rewrite assign_slice_exact
      by (unfold gap; rewrite length_seqZ, length_replicate; done).
    cbn [mbind result_bind].
    specialize (IH (done_ ++ seqZ s (e - s))).
    rewrite length_app, length_seqZ in IH.
    rewrite <- (assoc_L (++)) in IH.
    replace (Z.of_nat (length done_) + (e - s))
      with (Z.of_nat (length done_ + Z.to_nat (e - s))) by lia.
    rewrite IH. rewrite <- !(assoc_L (++)). f_equal. f_equal. lia.
Qed.

Lemma regions_to_pos_runs (regions : list (Z * Z)) :
  Forall interval_le regions -> _regions_to_pos uint32 regions = Ok (runs regions).
Proof.
  intros Hall. unfold _regions_to_pos.
  assert (Hdelta : np_sum ((fun r : Z * Z => uint32 (r.2 - r.1)) <$> regions)
                   = total_length regions).
  { clear -Hall. induction Hall as [|[s e] rs (Hs & Hse & He) _ IH]; [done|].
    simpl in Hs, Hse, He. rewrite total_length_cons.
    cbn [fmap list_fmap np_sum foldr fst snd].
    rewrite uint32_small by lia. unfold np_sum in IH.
    change (list_fmap (Z * Z)%type Z ?f ?l) with (f <$> l) in *.
    by rewrite IH. }
  rewrite Hdelta. unfold np_zeros.
  rewrite decide_True by (apply total_length_nonneg, interval_le_diff, Hall).
  cbn [mbind result_bind].
  pose proof (foldM_regions_to_pos_le regions [] Hall) as Hloop.
  change (Z.of_nat (length (@nil Z))) with 0 in Hloop.
  cbn [app] in Hloop. rewrite Hloop. reflexivity.
Qed.

Lemma elem_of_runs (regions : list (Z * Z)) (p : Z) :
  p ∈ runs regions <-> exists r, r ∈ regions /\ r.1 <= p < r.2.
Proof.
  induction regions as [|[s e] rs IH].
  - split; [by intros ?%elem_of_nil|]. by intros (r & ?%elem_of_nil & _).
  - rewrite runs_cons, elem_of_app, elem_of_seqZ, IH. split.
    + intros [Hp|(r & Hr & Hp)].
      * exists (s, e). split; [constructor|simpl; lia].
      * exists r. split; [by constructor|done].
    + intros (r & Hr & Hp). apply elem_of_cons in Hr as [->|Hr].
      * left. simpl in Hp. lia.
      * right. eauto.
Qed.

(** X1.  For intervals with [0 <= start <= end < 2^32], empty ones and the
    empty array included, [_regions_to_pos] returns an array that holds a
    position if and only if some interval covers it. *)
Theorem regions_to_pos_covers (regions : list (Z * Z)) :
  Forall interval_le regions ->
  exists out,
    _regions_to_pos uint32 regions = Ok out /\
    forall p, p ∈ out <-> exists r, r ∈ regions /\ r.1 <= p < r.2.
Proof.
  intros Hall. exists (runs regions). split; [by apply regions_to_pos_runs|].
  apply elem_of_runs.
Qed.

Lemma regions_to_pos_covers_witness :
  exists out,
    _regions_to_pos uint32 [(2, 5); (7, 7); (4, 6)] = Ok out /\
    forall p, p ∈ out <-> exists r, r ∈ [(2, 5); (7, 7); (4, 6)] /\ r.1 <= p < r.2.
Proof.
  apply (regions_to_pos_covers [(2, 5); (7, 7); (4, 6)]).
  repeat constructor; simpl; lia.
Defined.

Lemma StronglySorted_seqZ (m n : Z) : StronglySorted Z.lt (seqZ m n).
Proof.
  unfold seqZ. apply (StronglySorted_fmap _ lt Z.lt); [intros x y Hxy; lia|].
  generalize 0%nat as j. induction (Z.to_nat n) as [|k IH]; intros j.
  - constructor.
  - cbn [seq]. constructor; [apply IH|].
    apply Forall_forall. intros x Hx. apply elem_of_seq in Hx. lia.
Qed.

Lemma StronglySorted_runs (regions : list (Z * Z)) :
  Forall (fun r : Z * Z => r.1 <= r.2) regions ->
  StronglySorted (fun r1 r2 : Z * Z => r1.2 <= r2.1) regions ->
  StronglySorted Z.lt (runs regions).
Proof.
  intros Hle Hss. induction Hss as [|[s e] rs Hss IH Hall]; [constructor|].
  apply Forall_cons in Hle as [_ Hle]. rewrite runs_cons.
  apply StronglySorted_app_2; [|apply StronglySorted_seqZ|by apply IH].
  intros x y Hx Hy. apply elem_of_seqZ in Hx.
  apply elem_of_runs in Hy as (r & Hr & Hy).
  rewrite Forall_forall in Hall. specialize (Hall _ Hr). simpl in Hall. lia.
Qed.

(** X2.  When every interval ends at or before the start of each later
    one, the array returned by [_regions_to_pos] is strictly increasing: it
    is sorted and has no duplicates. *)
Theorem regions_to_pos_increasing (regions : list (Z * Z)) :
  Forall interval_le regions ->
  StronglySorted (fun r1 r2 : Z * Z => r1.2 <= r2.1) regions ->
  exists out,
    _regions_to_pos uint32 regions = Ok out /\
    StronglySorted Z.lt out /\ NoDup out.
Proof.
  intros Hall Hss. exists (runs regions).
  split; [by apply regions_to_pos_runs|].
  assert (Hs : StronglySorted Z.lt (runs regions)).
  { apply StronglySorted_runs; [|done].
    eapply Forall_impl; [exact Hall|]. intros [??] (? & ? & ?); simpl in *; lia. }
  split; [exact Hs|].
  clear -Hs. induction Hs as [|x l Hs IH Hx]; [constructor|].
  constructor; [|exact IH]. intros Hin. rewrite Forall_forall in Hx.
  specialize (Hx _ Hin). lia.
Qed.

Lemma regions_to_pos_increasing_witness :
  exists out,
    _regions_to_pos uint32 [(2, 4); (4, 5); (7, 9)] = Ok out /\
    StronglySorted Z.lt out /\ NoDup out.
Proof.
  apply (regions_to_pos_increasing [(2, 4); (4, 5); (7, 9)]).
  - repeat constructor; simpl; lia.
  - repeat constructor; simpl; lia.
Defined.

(** * The BED table of the chunks *)

Lemma _chunk_pos_to_bed_df_zip chrom (chunk_pos : list Z) :
  _chunk_pos_to_bed_df chrom chunk_pos
  = (fun ab : Z * Z => (chrom, ab)) <$> zip chunk_pos (tail chunk_pos).
Proof.
  unfold _chunk_pos_to_bed_df. apply list_eq. intros i.
  rewrite !list_lookup_fmap. rewrite lookup_zip_with, lookup_tail.
  destruct (decide (i < length chunk_pos - 1)%nat) as [Hi|Hi].
  - rewrite lookup_seq_lt by done. cbn [fmap option_fmap option_map Nat.add].
    destruct (lookup_lt_is_Some_2 chunk_pos i) as [a Ha]; [lia|].
    destruct (lookup_lt_is_Some_2 chunk_pos (S i)) as [b Hb]; [lia|].
    rewrite Ha, Hb. cbn.
    by rewrite (list_lookup_total_correct _ _ _ Ha),
               (list_lookup_total_correct _ _ _ Hb).
  - rewrite lookup_seq_ge by lia. cbn.
    destruct (chunk_pos !! i) as [a|] eqn:Ha; [|done]. cbn.
    rewrite lookup_ge_None_2; [done|]. apply lookup_lt_Some in Ha. lia.
Qed.

Lemma sorted_le_last (d : Z) (rest : list Z) :
  Sorted Z.le (d :: rest) -> d <= List.last rest d.
Proof.
  intros Hs. apply Sorted_StronglySorted in Hs; [|apply _].
  apply StronglySorted_inv in Hs as [_ Hall].
  destruct rest as [|x rest _] using rev_ind; [done|].
  rewrite last_last. rewrite Forall_forall in Hall. apply Hall.
  apply elem_of_app. right. constructor.
Qed.

Lemma last_cons_any (x : Z) (l : list Z) (c d : Z) :
  List.last (x :: l) c = List.last (x :: l) d.
Proof.
  revert x. induction l as [|y l IH]; intros x; [done|].
  change (List.last (x :: y :: l) c) with (List.last (y :: l) c).
  change (List.last (x :: y :: l) d) with (List.last (y :: l) d). apply IH.
Qed.

Lemma last_cons_default (d c : Z) (rest : list Z) :
  List.last (d :: rest) c = List.last rest d.
Proof.
  destruct rest as [|x rest]; [done|].
  change (List.last (d :: x :: rest) c) with (List.last (x :: rest) c).
  apply last_cons_any.
Qed.

Lemma runs_chunks (c : Z) (rest : list Z) :
  Sorted Z.le (c :: rest) ->
  runs (zip (c :: rest) rest) = seqZ c (List.last rest c - c).
Proof.
  revert c. induction rest as [|d rest IH]; intros c Hs.
  - cbn. by rewrite Z.sub_diag.
  - apply Sorted_inv in Hs as [Hs Hcd]. apply HdRel_inv in Hcd.
    change (zip (c :: d :: rest) (d :: rest)) with ((c, d) :: zip (d :: rest) rest).
    rewrite runs_cons, (IH d Hs).
    pose proof (sorted_le_last d rest Hs) as Hlast.
    rewrite last_cons_default.
    replace (List.last rest d - c) with ((d - c) + (List.last rest d - d)) by lia.
    rewrite seqZ_app by lia. do 2 f_equal. lia.
Qed.

Lemma chunks_interval_le (c : Z) (rest : list Z) :
  Sorted Z.le (c :: rest) ->
  0 <= c -> List.last rest c < 2 ^ 32 ->
  Forall interval_le (zip (c :: rest) rest).
Proof.
  revert c. induction rest as [|d rest IH]; intros c Hs Hc Hlast.
  - constructor.
  - apply Sorted_inv in Hs as [Hs Hcd]. apply HdRel_inv in Hcd.
    rewrite last_cons_default in Hlast.
    pose proof (sorted_le_last d rest Hs).
    change (zip (c :: d :: rest) (d :: rest)) with ((c, d) :: zip (d :: rest) rest).
    constructor.
    + unfold interval_le. simpl. lia.
    + apply IH; [done|lia|done].
Qed.

(** X3.  The records of [_chunk_pos_to_bed_df] are one fewer than the chunk
    positions, and for chunk positions in ascending order within [uint32]
    they tile the chromosome: expanded by [_regions_to_pos] they give every
    position from the first chunk position up to the last, once. *)
Theorem chunk_bed_tiles (chrom : string) (c : Z) (rest : list Z) :
  Sorted Z.le (c :: rest) ->
  0 <= c -> List.last rest c < 2 ^ 32 ->
  length (_chunk_pos_to_bed_df chrom (c :: rest)) = length rest /\
  _regions_to_pos uint32 (snd <$> _chunk_pos_to_bed_df chrom (c :: rest))
  = Ok (seqZ c (List.last rest c - c)).
Proof.
  intros Hs Hc Hlast. split.
  { unfold _chunk_pos_to_bed_df. rewrite length_fmap, length_seq. cbn. lia. }
  rewrite _chunk_pos_to_bed_df_zip. cbn [tail].
  rewrite <- list_fmap_compose.
  assert (Hid : snd ∘ (fun ab : Z * Z => (chrom, ab)) <$> zip (c :: rest) rest
                = zip (c :: rest) rest).
  { rewrite <- (list_fmap_id (zip (c :: rest) rest)) at 2.
    apply list_fmap_ext. by intros ? []. }
  rewrite Hid.
  rewrite regions_to_pos_runs by (by apply chunks_interval_le).
  by rewrite runs_chunks.
Qed.

Lemma chunk_bed_tiles_witness :
  length (_chunk_pos_to_bed_df "chr1" [0; 4; 7; 10]) = 3%nat /\
  _regions_to_pos uint32 (snd <$> _chunk_pos_to_bed_df "chr1" [0; 4; 7; 10])
  = Ok (seqZ 0 10).
Proof.
  apply (chunk_bed_tiles "chr1" 0 [4; 7; 10]).
  - repeat constructor; lia.
  - lia.
  - simpl. lia.
Defined.

(** * Further properties of the codebook *)

Lemma run_bind_ext {A B} (m : M A) (f g : A -> M B) σ :
  (forall a σ', f a σ' = g a σ') -> (m ≫= f) σ = (m ≫= g) σ.
Proof. intros H. rewrite !run_bind. destruct (m σ) as [[a|e] σ']; [apply H|done]. Qed.

Lemma length_upper s : String.length (upper s) = String.length s.
Proof. induction s as [|c s IH]; [done|]. cbn [upper String.length]. by rewrite IH. Qed.

Lemma mask_select_sublist {A} (mask : list bool) (l : list A) :
  mask_select mask l `sublist_of` l.
Proof.
  unfold mask_select. revert l. induction mask as [|b mask IH]; intros l.
  - apply sublist_nil_l.
  - destruct l as [|x l]; [apply sublist_nil_l|].
    change (zip (b :: mask) (x :: l)) with ((b, x) :: zip mask l).
    rewrite filter_cons. cbn [fst]. destruct b.
    + rewrite decide_True by done. cbn [fmap list_fmap snd].
      apply sublist_skip, IH.
    + rewrite decide_False by done. apply sublist_cons, IH.
Qed.

Lemma fmap_sublist {A B} (f : A -> B) (l1 l2 : list A) :
  l1 `sublist_of` l2 -> f <$> l1 `sublist_of` f <$> l2.
Proof.
  induction 1; cbn [fmap list_fmap]; [constructor|by apply sublist_skip|by apply sublist_cons].
Qed.

Section MoreProperties.

Variable parse_mc_pattern : string -> result (list string).
Variable slice_indexer : list Z -> Z -> Z -> result (nat * nat).

Lemma isascii_upper (s : string) : isascii s = true -> isascii (upper s) = true.
Proof.
  induction s as [|c s IH]; [done|]. cbn [isascii upper].
  intros [Hc Hs]%andb_true_iff. apply andb_true_iff. split; [|by apply IH].
  apply Nat.ltb_lt in Hc. apply Nat.ltb_lt. unfold upper_ascii.
  destruct ((97 <=? _) && _)%nat; [|done].
  rewrite Ascii.nat_ascii_embedding by lia. lia.
Qed.

(** X4.  An ASCII pattern that [_validate_mc_pattern] accepts comes back in
    upper case: the result is the upper-cased pattern, ASCII again and of
    the same length, which equals the context size, with a "C" at [c_pos],
    and it is accepted again unchanged. *)
Theorem validate_mc_pattern_normalises (cb : Codebook) (pattern pat : string) :
  isascii pattern = true ->
  _validate_mc_pattern cb pattern = Ok pat ->
  pat = upper pattern /\
  upper pat = pat /\
  isascii pat = true /\
  String.length pat = String.length pattern /\
  _validate_mc_pattern cb pat = Ok pat /\
  (exists cs, cb_attrs cb !! "context_size" = Some cs /\
              eq_int cs (Z.of_nat (String.length pat)) = true) /\
  (exists cp i c, cb_attrs cb !! "c_pos" = Some cp /\ as_int cp = Ok i /\
                  str_getitem pat i = Ok c /\ String c EmptyString = "C").
Proof.
  intros Hascii H.
  pose proof (_validate_mc_pattern_upper cb pattern pat H) as ->.
  split; [done|]. split; [apply upper_idemp|]. split; [by apply isascii_upper|].
  split; [apply length_upper|].
  split; [by eapply _validate_mc_pattern_idemp|].
  unfold _validate_mc_pattern, cb_attr in H.
  destruct (cb_attrs cb !! "context_size") as [cs|]; [|discriminate].
  cbn [mbind result_bind] in H.
  destruct (eq_int cs _) eqn:Hcs; [|discriminate].
  destruct (cb_attrs cb !! "c_pos") as [cp|]; [|discriminate].
  cbn [mbind result_bind] in H.
  destruct (as_int cp) as [i|] eqn:Hi; [|discriminate].
  cbn [mbind result_bind] in H.
  destruct (str_getitem (upper pattern) i) as [c|] eqn:Hc; [|discriminate].
  cbn [mbind result_bind] in H. case_decide as HC; [|discriminate].
  split; [eauto|]. exists cp, i, c. done.
Qed.

Lemma _validate_mc_pattern_case cb pattern :
  _validate_mc_pattern cb (upper pattern) = _validate_mc_pattern cb pattern.
Proof. unfold _validate_mc_pattern. by rewrite upper_idemp. Qed.

Lemma get_mc_pos_bool_case cb pattern :
  get_mc_pos_bool parse_mc_pattern cb (upper pattern)
  = get_mc_pos_bool parse_mc_pattern cb pattern.
Proof. unfold get_mc_pos_bool. by rewrite _validate_mc_pattern_case. Qed.

Lemma get_mc_pos_case cb pattern off :
  get_mc_pos parse_mc_pattern cb (upper pattern) off
  = get_mc_pos parse_mc_pattern cb pattern off.
Proof. unfold get_mc_pos. by rewrite _validate_mc_pattern_case. Qed.

(** X5.  Patterns are read without regard to case: the match mask, the
    matching positions, [select_mc_type] and [get_region_ds] do the same
    for a pattern and for its upper-case form. *)
Theorem pattern_case_insensitive
    (cb : Codebook) (depth : nat) (self : BaseDSChrom) (pattern : string)
    (off : option pyval) (bin_size : option Z) (regions : option regions_table)
    (rn : option string) (rs re : option Z) (σ : gmap nat (gmap string pyval)) :
  get_mc_pos_bool parse_mc_pattern cb (upper pattern)
  = get_mc_pos_bool parse_mc_pattern cb pattern /\
  get_mc_pos parse_mc_pattern cb (upper pattern) off
  = get_mc_pos parse_mc_pattern cb pattern off /\
  select_mc_type parse_mc_pattern slice_indexer depth self (upper pattern) σ
  = select_mc_type parse_mc_pattern slice_indexer depth self pattern σ /\
  get_region_ds parse_mc_pattern slice_indexer depth self (upper pattern)
    bin_size regions rn rs re σ
  = get_region_ds parse_mc_pattern slice_indexer depth self pattern
      bin_size regions rn rs re σ.
Proof.
  split; [apply get_mc_pos_bool_case|]. split; [apply get_mc_pos_case|]. split.
  - unfold select_mc_type.
    apply run_bind_ext; intros cb' σ1. apply run_bind_ext; intros o σ2.
    by rewrite get_mc_pos_case.
  - unfold get_region_ds. destruct bin_size as [b|], regions as [t|]; try done;
      cbv beta iota;
      (apply run_bind_ext; intros bounds σ1; apply run_bind_ext; intros u σ2;
       apply run_bind_ext; intros cb' σ3; apply run_bind_ext; intros o σ4;
       by rewrite get_mc_pos_case).
Qed.

(** X6.  The positions returned by [get_mc_pos] are a subsequence of the
    position index of the codebook, shifted by the offset: they come in the
    order of the index, and none is repeated that the index does not
    repeat. *)
Theorem get_mc_pos_subsequence
    (cb : Codebook) (pattern : string) (off : option pyval) (ps : list Z) :
  get_mc_pos parse_mc_pattern cb pattern off = Ok ps ->
  exists o,
    match off with Some v => as_int v = Ok o | None => o = 0 end /\
    ps `sublist_of` ((fun p => p + o) <$> cb_pos cb).
Proof.
  unfold get_mc_pos. intros H.
  apply result_bind_inv in H as (pat & _ & H).
  apply result_bind_inv in H as (mask & _ & H).
  destruct off as [v|].
  - apply result_bind_inv in H as (o & Ho & H). injection H as <-.
    exists o. split; [done|]. apply fmap_sublist, mask_select_sublist.
  - injection H as <-. exists 0. split; [done|].
    assert (Hid : (fun p => p + 0) <$> cb_pos cb = cb_pos cb).
    { rewrite <- (list_fmap_id (cb_pos cb)) at 2.
      apply list_fmap_ext. intros ???; unfold id; lia. }
    rewrite Hid. apply mask_select_sublist.
Qed.

(** * Further properties of the fetch family *)

(** [fetch] with its defaults filled in. *)
Lemma fetch_resolve depth self s e σ r σ' :
  fetch slice_indexer (S depth) self s e σ = (Ok r, σ') ->
  exists s' e',
    s' < e' /\ s' = default 0 s /\
    fetch slice_indexer (S depth) self (Some s') (Some e') σ = (Ok r, σ').
Proof.
  intros H.
  assert (Hboth : forall s0 e0,
            fetch slice_indexer (S depth) self (Some s0) (Some e0) σ = (Ok r, σ') ->
            s0 < e0).
  { intros s0 e0 H0. destruct (decide (s0 < e0)) as [|Hn]; [done|].
    by rewrite fetch_start_not_before_end in H0. }
  destruct s as [s|], e as [e|]; [| | |discriminate].
  - exists s, e. eauto.
  - assert (exists cs, chrom_size self σ = (Ok cs, σ) /\
              exists e, as_int cs = Ok e) as (cs & Hcs & e & He).
    { cbn [fetch] in H. rewrite run_bind in H.
      rewrite (run_bind (chrom_size self)) in H.
      unfold chrom_size in *. rewrite run_attr in *.
      destruct (_ !! "chrom_size") as [cs|]; [|discriminate].
      exists cs. split; [done|].
      rewrite run_lift in H. destruct (as_int cs) as [e|]; [eauto|discriminate]. }
    assert (Heq : fetch slice_indexer (S depth) self (Some s) None σ
                  = fetch slice_indexer (S depth) self (Some s) (Some e) σ).
    { cbn [fetch]. rewrite (run_bind (mret e)), run_ret.
      rewrite run_bind, (run_bind (chrom_size self)), Hcs, run_lift, He.
      reflexivity. }
    rewrite Heq in H. exists s, e. eauto.
  - exists 0, e. split; [|split; [done|]].
    + apply Hboth. exact H.
    + exact H.
Qed.

Lemma fetch_sparse_eq depth self s e σ :
  truthy (is_continuous σ self) = false -> s < e ->
  fetch slice_indexer (S depth) self (Some s) (Some e) σ
  = fetch_regions slice_indexer depth self [[s; e]] σ.
Proof.
  intros Hc Hse. cbn [fetch default from_option]. unfold id.
  rewrite run_bind, run_ret, decide_True by done.
  by rewrite run_bind, run_continuous, Hc.
Qed.

Lemma _fetch_positions_length self positions σ r σ' :
  _fetch_positions self positions σ = (Ok r, σ') ->
  length (ds_cols r) = length positions.
Proof.
  rewrite _fetch_positions_eq.
  destruct (as_int (position_offset σ self)) as [o|]; [|discriminate].
  cbn [mbind result_bind].
  destruct (sel_array self (position_keys o positions)) as [obj|] eqn:Hsa;
    [|discriminate].
  intros [= <- _]. apply sel_array_length in Hsa.
  cbn [with_pos with_attrs ds_cols]. rewrite Hsa. unfold position_keys.
  rewrite !length_fmap. unfold np_sort. by rewrite merge_sort_Permutation.
Qed.

(** Every successful [fetch_positions] ends in [_fetch_positions]. *)
Lemma fetch_positions_last_step depth self positions σ r σ' :
  fetch_positions slice_indexer depth self positions σ = (Ok r, σ') ->
  exists obj σ1, _fetch_positions obj positions σ1 = (Ok r, σ') /\
    (obj = self /\ σ1 = σ /\ truthy (is_continuous σ self) = false \/
     truthy (is_continuous σ self) = true /\
     exists depth' m mx, depth = S (S depth') /\
       py_min positions = Ok m /\ py_max positions = Ok mx /\
       fetch slice_indexer (S depth') self (Some m) (Some (mx + 1)) σ = (Ok obj, σ1)).
Proof.
  destruct depth as [|depth]; [discriminate|]. cbn [fetch_positions].
  rewrite run_bind, run_continuous.
  destruct (truthy (is_continuous σ self)) eqn:Hc.
  - intros H.
    apply run_bind_inv in H as (m & σ1 & Hm & H). apply run_lift_inv in Hm as [Hm ->].
    apply run_bind_inv in H as (mx & σ1 & Hmx & H). apply run_lift_inv in Hmx as [Hmx ->].
    apply run_bind_inv in H as (obj & σ1 & Hf & H).
    destruct depth as [|depth]; [discriminate|].
    exists obj, σ1. split; [done|]. right. split; [done|]. exists depth, m, mx. eauto.
  - intros H. exists self, σ. eauto.
Qed.

Lemma fetch_positions_tracked depth self positions σ r σ' :
  fetch_positions slice_indexer depth self positions σ = (Ok r, σ') ->
  tracked σ' r.
Proof.
  intros H. pose proof (fetch_positions_sparse _ _ _ _ _ _ _ H) as (Hc & Ho & Hp).
  apply fetch_positions_last_step in H as (obj & σ1 & H & _).
  apply _fetch_positions_length in H.
  right. rewrite Hc. split; [done|]. split; [done|].
  eexists. split; [exact Hp|]. rewrite length_fmap. unfold np_sort.
  by rewrite merge_sort_Permutation.
Qed.

Lemma fetch_regions_inv depth self regions σ r σ' :
  fetch_regions slice_indexer depth self regions σ = (Ok r, σ') ->
  exists depth' regs pos_sel,
    depth = S depth' /\ as_regions_array regions = Ok regs /\
    _regions_to_pos uint32 regs = Ok pos_sel /\
    fetch_positions slice_indexer depth' self pos_sel σ = (Ok r, σ').
Proof.
  destruct depth as [|depth]; [discriminate|]. cbn [fetch_regions]. intros H.
  apply run_bind_inv in H as (regs & σ1 & Hr & H). apply run_lift_inv in Hr as [Hr ->].
  apply run_bind_inv in H as (pos_sel & σ1 & Hp & H). apply run_lift_inv in Hp as [Hp ->].
  apply run_bind_inv in H as (obj & σ3 & Hfp & H).
  rewrite run_bind, run_continuous in H. case_decide; [|discriminate].
  rewrite run_bind, run_offset in H.
  destruct (eq_int (position_offset σ3 obj) 0); [|discriminate].
  injection H as <- <-. exists depth, regs, pos_sel. eauto.
Qed.

Lemma fetch_tracked depth self s e σ r σ' :
  tracked σ self ->
  fetch slice_indexer depth self s e σ = (Ok r, σ') ->
  tracked σ' r.
Proof.
  intros Ht H. destruct depth as [|depth]; [discriminate|].
  apply fetch_resolve in H as (s' & e' & Hse & _ & H).
  destruct Ht as [[Hc Hpos]|(Hc & _)].
  - rewrite fetch_continuous_eq in H by done.
    destruct (as_int (position_offset σ self)) as [o|]; [|discriminate].
    cbn [mbind result_bind] in H. unfold sel_slice in H. rewrite Hpos in H.
    injection H as <- <-. left. split; [|done].
    unfold is_continuous in *. cbn [with_attrs ds_attrs].
    rewrite lookup_total_insert_eq. by rewrite lookup_insert_ne.
  - rewrite fetch_sparse_eq in H by done.
    apply fetch_regions_inv in H as (d & regs & ps & _ & _ & _ & H).
    by eapply fetch_positions_tracked.
Qed.

(** X7.  The bookkeeping stays in order: from a dataset that is either
    continuous with a bare position dimension, or not continuous with offset
    zero and a coordinate of one label per column, every sequence of
    [fetch], [fetch_regions] and [fetch_positions] calls that returns,
    returns such a dataset. *)
Theorem queries_keep_tracked
    (depth : nat) (qs : list query) (self r : BaseDSChrom)
    (σ σ' : gmap nat (gmap string pyval)) :
  tracked σ self ->
  run_queries slice_indexer depth self qs σ = (Ok r, σ') ->
  tracked σ' r.
Proof.
  revert self σ. induction qs as [|q qs IH]; intros self σ Ht H.
  - cbn [run_queries] in H. rewrite run_ret in H. by injection H as <- <-.
  - cbn [run_queries] in H.
    apply run_bind_inv in H as (ds & σ1 & Hq & H).
    apply (IH ds σ1); [|exact H].
    destruct q; cbn [run_query] in Hq.
    + by eapply fetch_tracked.
    + apply fetch_regions_inv in Hq as (d & regs & ps & _ & _ & _ & Hq).
      by eapply fetch_positions_tracked.
    + by eapply fetch_positions_tracked.
Qed.

(** ** Columns are taken from the source *)

Lemma drawn_from_refl ds : drawn_from ds ds.
Proof. by split. Qed.

Lemma drawn_from_trans a b c : drawn_from a b -> drawn_from b c -> drawn_from a c.
Proof.
  intros (H1 & H2 & H3) (H1' & H2' & H3'). split; [|split; congruence].
  by etrans.
Qed.

Lemma drawn_from_with_attrs r self l : drawn_from r self -> drawn_from (with_attrs r l) self.
Proof. done. Qed.

Lemma sel_slice_drawn self lo hi obj :
  sel_slice slice_indexer self lo hi = Ok obj -> drawn_from obj self.
Proof.
  unfold sel_slice. destruct (ds_pos self) as [idx|].
  - intros H. apply result_bind_inv in H as (ab & _ & H). injection H as <-.
    split; [|done]. cbn [ds_cols]. etrans; [apply subseteq_take|apply subseteq_drop].
  - intros [= <-]. split; [|done]. cbn [ds_cols]. unfold list_slice.
    etrans; [apply subseteq_take|apply subseteq_drop].
Qed.

Lemma mapM_lookup_subseteq {A K} (f : K -> result A) (l : list A) (ks : list K) out :
  (forall k a, f k = Ok a -> a ∈ l) -> mapM f ks = Ok out -> out ⊆ l.
Proof.
  intros Hf H. apply mapM_Forall2 in H. intros a Ha.
  apply list_elem_of_lookup in Ha as [i Hi].
  destruct (Forall2_lookup_r _ _ _ _ _ H Hi) as (k & _ & Hk). eauto.
Qed.

Lemma sel_array_drawn self keys obj :
  sel_array self keys = Ok obj -> drawn_from obj self.
Proof.
  unfold sel_array. destruct (ds_pos self) as [idx|]; intros H.
  - apply result_bind_inv in H as (ixs & _ & H).
    apply result_bind_inv in H as (cols & Hcols & H). injection H as <-.
    split; [|done]. cbn [ds_cols]. eapply mapM_lookup_subseteq; [|exact Hcols].
    intros i c Hc. cbn in Hc. destruct (ds_cols self !! i) as [c'|] eqn:Hi; [|discriminate].
    injection Hc as <-. by eapply list_elem_of_lookup_2.
  - apply result_bind_inv in H as (cols & Hcols & H). injection H as <-.
    split; [|done]. cbn [ds_cols]. eapply mapM_lookup_subseteq; [|exact Hcols].
    intros k c Hc. unfold list_getitem in Hc.
    apply result_bind_inv in Hc as (i & _ & Hc).
    destruct (ds_cols self !! i) as [c'|] eqn:Hi; [|discriminate].
    injection Hc as <-. by eapply list_elem_of_lookup_2.
Qed.

Lemma _fetch_positions_drawn self positions σ r σ' :
  _fetch_positions self positions σ = (Ok r, σ') -> drawn_from r self.
Proof.
  rewrite _fetch_positions_eq.
  destruct (as_int (position_offset σ self)) as [o|]; [|discriminate].
  cbn [mbind result_bind].
  destruct (sel_array self (position_keys o positions)) as [obj|] eqn:Hsa;
    [|discriminate].
  intros [= <- _]. by apply sel_array_drawn in Hsa.
Qed.

Lemma fetch_continuous_drawn depth self s e σ r σ' :
  truthy (is_continuous σ self) = true -> s < e ->
  fetch slice_indexer (S depth) self (Some s) (Some e) σ = (Ok r, σ') ->
  drawn_from r self.
Proof.
  intros Hc Hse H. rewrite fetch_continuous_eq in H by done.
  destruct (as_int (position_offset σ self)) as [o|]; [|discriminate].
  cbn [mbind result_bind] in H.
  destruct (sel_slice slice_indexer self (s - o) (e - o)) as [obj|] eqn:Hsl;
    [|discriminate].
  injection H as <- _. by apply sel_slice_drawn in Hsl.
Qed.

Lemma fetch_positions_drawn depth self positions σ r σ' :
  fetch_positions slice_indexer depth self positions σ = (Ok r, σ') ->
  drawn_from r self.
Proof.
  intros H.
  apply fetch_positions_last_step in H
    as (obj & σ1 & H & [(-> & -> & _)|(Hc & d & m & mx & _ & _ & _ & Hf)]).
  - by eapply _fetch_positions_drawn.
  - apply _fetch_positions_drawn in H. eapply drawn_from_trans; [exact H|].
    destruct (decide (m < mx + 1)) as [Hlt|Hn];
      [|by rewrite fetch_start_not_before_end in Hf].
    by eapply fetch_continuous_drawn.
Qed.

Lemma fetch_drawn depth self s e σ r σ' :
  fetch slice_indexer depth self s e σ = (Ok r, σ') -> drawn_from r self.
Proof.
  intros H. destruct depth as [|depth]; [discriminate|].
  apply fetch_resolve in H as (s' & e' & Hse & _ & H).
  destruct (truthy (is_continuous σ self)) eqn:Hc.
  - by eapply fetch_continuous_drawn.
  - rewrite fetch_sparse_eq in H by done.
    apply fetch_regions_inv in H as (d & regs & ps & _ & _ & _ & H).
    by eapply fetch_positions_drawn.
Qed.

(** X8.  No query makes up data: after any sequence of [fetch],
    [fetch_regions] and [fetch_positions] calls that returns, every column
    of the result is a column of the dataset the sequence started from, and
    the context types and the number of counts per position are the same. *)
Theorem queries_draw_from_source
    (depth : nat) (qs : list query) (self r : BaseDSChrom)
    (σ σ' : gmap nat (gmap string pyval)) :
  run_queries slice_indexer depth self qs σ = (Ok r, σ') ->
  drawn_from r self.
Proof.
  revert self σ. induction qs as [|q qs IH]; intros self σ H.
  - cbn [run_queries] in H. rewrite run_ret in H. injection H as <- _.
    apply drawn_from_refl.
  - cbn [run_queries] in H.
    apply run_bind_inv in H as (ds & σ1 & Hq & H).
    eapply drawn_from_trans; [by eapply IH|].
    destruct q; cbn [run_query] in Hq.
    + by eapply fetch_drawn.
    + apply fetch_regions_inv in Hq as (d & regs & ps & _ & _ & _ & Hq).
      by eapply fetch_positions_drawn.
    + by eapply fetch_positions_drawn.
Qed.

(** ** Narrowing twice *)

Lemma list_slice_take_drop {A} (l : list A) (lo hi : Z) :
  0 <= lo -> lo <= hi ->
  list_slice l lo hi = take (Z.to_nat (hi - lo)) (drop (Z.to_nat lo) l).
Proof.
  intros Hlo Hhi. unfold list_slice, slice_index. rewrite !decide_False by lia.
  destruct (decide (lo <= Z.of_nat (length l))) as [Hin|Hout].
  - rewrite (Z.min_l lo) by lia.
    destruct (decide (hi <= Z.of_nat (length l))).
    + rewrite Z.min_l by lia. f_equal. lia.
    + rewrite Z.min_r by lia. rewrite !take_ge; [done| |]; rewrite length_drop; lia.
  - rewrite !Z.min_r by lia. rewrite Nat2Z.id, Nat.sub_diag.
    rewrite (drop_ge l (Z.to_nat lo)) by lia. by rewrite take_nil.
Qed.

Lemma take_drop_take_drop {A} (l : list A) (a1 k1 a2 k2 : nat) :
  (a2 + k2 <= k1)%nat ->
  take k2 (drop a2 (take k1 (drop a1 l))) = take k2 (drop (a1 + a2) l).
Proof.
  intros Hk. apply list_eq. intros i.
  destruct (decide (i < k2)%nat) as [Hi|Hi].
  - rewrite !lookup_take_lt by done. rewrite !lookup_drop.
    rewrite lookup_take_lt by lia. rewrite lookup_drop. f_equal. lia.
  - rewrite !lookup_take_ge by lia. done.
Qed.

(** X9.  Narrowing composes: on a continuous dataset with offset [o] and
    [o <= a <= c < d <= b], [fetch(a, b)] followed by [fetch(c, d)] returns
    the columns, the genome positions and the offset that [fetch(c, d)]
    returns on the dataset itself, and the result is continuous. *)
Theorem fetch_fetch
    (depth : nat) (self : BaseDSChrom) (a b c d o : Z)
    (σ : gmap nat (gmap string pyval)) :
  (1 <= depth)%nat ->
  continuous_ds σ self ->
  as_int (position_offset σ self) = Ok o ->
  o <= a -> a <= c -> c < d -> d <= b ->
  exists r1 σ1 r2 σ2 r σ3,
    fetch slice_indexer depth self (Some a) (Some b) σ = (Ok r1, σ1) /\
    fetch slice_indexer depth r1 (Some c) (Some d) σ1 = (Ok r2, σ2) /\
    fetch slice_indexer depth self (Some c) (Some d) σ = (Ok r, σ3) /\
    ds_cols r2 = ds_cols r /\
    genomic_position σ2 r2 = genomic_position σ3 r /\
    position_offset σ2 r2 = VInt c /\
    continuous_ds σ2 r2.
Proof.
  intros Hd [Hc Hpos] Hoff Hoa Hac Hcd Hdb.
  destruct depth as [|depth]; [lia|].
  rewrite (fetch_continuous_eq slice_indexer depth self a b σ) by (done || lia).
  rewrite (fetch_continuous_eq slice_indexer depth self c d σ) by (done || lia).
  rewrite Hoff. cbn [mbind result_bind]. unfold sel_slice. rewrite Hpos.
  set (σ1 := <[fresh (dom σ) := <["offset" := VInt a]> (σ !!! ds_attrs self)]> σ).
  set (r1 := with_attrs
               (Dataset (ds_attrs self) None (ds_mc_type self) (ds_width self)
                  (list_slice (ds_cols self) (a - o) (b - o))) (fresh (dom σ))).
  exists r1, σ1.
  assert (Hc1 : truthy (is_continuous σ1 r1) = true).
  { unfold is_continuous, σ1, r1 in *. cbn [with_attrs ds_attrs].
    rewrite lookup_total_insert_eq. by rewrite lookup_insert_ne. }
  assert (Ho1 : position_offset σ1 r1 = VInt a)
    by apply position_offset_fresh_offset.
  rewrite (fetch_continuous_eq slice_indexer depth r1 c d σ1) by done.
  rewrite Ho1. cbn [as_int mbind result_bind]. unfold sel_slice.
  cbn [r1 with_attrs ds_pos ds_cols ds_attrs ds_mc_type ds_width].
  assert (Hcols : list_slice (list_slice (ds_cols self) (a - o) (b - o)) (c - a) (d - a)
                  = list_slice (ds_cols self) (c - o) (d - o)).
  { rewrite !list_slice_take_drop by lia.
    rewrite take_drop_take_drop by lia. f_equal; [lia|f_equal; lia]. }
  rewrite Hcols.
  eexists _, _, _, _.
  split; [reflexivity|]. split; [reflexivity|]. split; [reflexivity|].
  split; [reflexivity|].
  set (x := Dataset (ds_attrs self) None (ds_mc_type self) (ds_width self)
              (list_slice (ds_cols self) (c - o) (d - o))).
  set (y := Dataset (fresh (dom σ)) None (ds_mc_type self) (ds_width self)
              (list_slice (ds_cols self) (c - o) (d - o))).
  split; [|split].
  - rewrite (genomic_position_bare _ (with_attrs y _) c)
      by (done || by rewrite position_offset_fresh_offset).
    rewrite (genomic_position_bare _ (with_attrs x _) c)
      by (done || by rewrite position_offset_fresh_offset).
    done.
  - apply position_offset_fresh_offset.
  - split; [|done]. unfold is_continuous in *. cbn [with_attrs ds_attrs y].
    rewrite lookup_total_insert_eq. rewrite lookup_insert_ne by done.
    exact Hc1.
Qed.

(** ** Region fetch inside the window *)

Lemma pairs_of_rows (regions : list (Z * Z)) :
  Forall interval_le regions ->
  (fun r : list Z => (uint32 (r !!! 0%nat), uint32 (r !!! 1%nat)))
    <$> ((fun r : Z * Z => [r.1; r.2]) <$> regions) = regions.
Proof.
  induction 1 as [|[s e] rs (Hs & Hse & He) _ IH]; [done|].
  simpl in Hs, Hse, He. cbn [fmap list_fmap]. f_equal.
  - cbn. by rewrite !uint32_small by lia.
  - exact IH.
Qed.

Lemma as_regions_array_pairs (regions : list (Z * Z)) :
  regions <> [] ->
  Forall interval_le regions ->
  as_regions_array ((fun r : Z * Z => [r.1; r.2]) <$> regions) = Ok regions.
Proof.
  intros Hne Hall. pose proof (pairs_of_rows regions Hall) as Hpairs.
  destruct regions as [|r0 regions]; [done|].
  unfold as_regions_array.
  change ((fun r : Z * Z => [r.1; r.2]) <$> r0 :: regions)
    with ([r0.1; r0.2] :: ((fun r : Z * Z => [r.1; r.2]) <$> regions)) at 1.
  cbv beta iota.
  rewrite decide_True.
  2:{ apply Forall_fmap, Forall_forall. by intros. }
  rewrite decide_True by done. by rewrite Hpairs.
Qed.

Lemma runs_range (regions : list (Z * Z)) :
  Forall interval_le regions ->
  Forall (fun p => 0 <= p < 2 ^ 32) (runs regions).
Proof.
  intros Hall. apply Forall_forall. intros p Hp.
  apply elem_of_runs in Hp as (r & Hr & Hp).
  rewrite Forall_forall in Hall. destruct (Hall _ Hr) as (? & ? & ?). lia.
Qed.

(** X10.  [fetch_regions] on intervals inside the window: for a list of
    (start, end) pairs with [0 <= start <= end < 2^32] whose positions all
    belong to the dataset (and are not none at all when the dataset is
    continuous), the call returns the dataset of the covered positions,
    sorted ascending with one entry per covering interval; it is not
    continuous, its offset is zero, and each column is the column of the
    source at that position. *)
Theorem fetch_regions_in_window
    (depth : nat) (self : BaseDSChrom) (regions : list (Z * Z)) (G : list Z)
    (σ : gmap nat (gmap string pyval)) :
  (3 <= depth)%nat ->
  genomic_position σ self = Ok G ->
  regions <> [] ->
  Forall interval_le regions ->
  Forall (fun p => p ∈ G) (runs regions) ->
  continuous_ds σ self /\ runs regions <> [] \/ sparse_ds σ self ->
  exists r σ',
    fetch_regions slice_indexer depth self
      ((fun r : Z * Z => [r.1; r.2]) <$> regions) σ = (Ok r, σ') /\
    genomic_position σ' r = Ok (np_sort (runs regions)) /\
    is_continuous σ' r = VBool false /\
    position_offset σ' r = VInt 0 /\
    Forall2 (column_at G self) (np_sort (runs regions)) (ds_cols r).
Proof.
  intros Hd HG Hne Hall Hin Hkind.
  destruct depth as [|depth]; [lia|].
  destruct (fetch_positions_in_window slice_indexer depth self (runs regions) G σ)
    as (r & σ' & Hfp & HGr & Hc & Ho & Hcols);
    [lia|done|done|by apply runs_range|done|].
  exists r, σ'. split; [|done].
  cbn [fetch_regions].
  rewrite run_bind, run_lift, as_regions_array_pairs by done.
  rewrite run_bind, run_lift, regions_to_pos_runs by done.
  rewrite run_bind, Hfp, run_bind, run_continuous, Hc.
  rewrite decide_True by done.
  by rewrite run_bind, run_offset, Ho.
Qed.

(** ** Positions outside the dataset *)

Lemma mapM_err {A B} (f : A -> result B) (l : list A) (e : exn) :
  Forall (fun a => f a = Err e \/ exists b, f a = Ok b) l ->
  Exists (fun a => f a = Err e) l ->
  mapM f l = Err e.
Proof.
  induction 1 as [|a l Ha Hl IH]; intros Hex; [by apply Exists_nil in Hex|].
  cbn [mapM]. destruct Ha as [Ha|[b Ha]]; rewrite Ha; [done|].
  cbn [mbind result_bind].
  apply Exists_cons in Hex as [Hex|Hex]; [congruence|].
  by rewrite (IH Hex).
Qed.

Lemma fetch_positions_missing depth self (positions idx : list Z) (p : Z) σ :
  truthy (is_continuous σ self) = false ->
  position_offset σ self = VInt 0 ->
  ds_pos self = Some idx -> NoDup idx ->
  Forall (fun p => 0 <= p < 2 ^ 32) positions ->
  p ∈ positions -> p ∉ idx ->
  fetch_positions slice_indexer (S depth) self positions σ
  = (Err (KeyError "not all values found in index 'pos'"), σ).
Proof.
  intros Hc Hoff Hpos Hnd Hrange Hp Hnot.
  cbn [fetch_positions]. rewrite run_bind, run_continuous, Hc.
  rewrite _fetch_positions_eq, Hoff. cbn [as_int mbind result_bind].
  rewrite position_keys_zero by done.
  unfold sel_array. rewrite Hpos. unfold get_indexer. rewrite decide_True by done.
  rewrite (mapM_err _ _ (KeyError "not all values found in index 'pos'")); [done| |].
  - apply Forall_forall. intros k _.
    destruct (list_find (fun x => x = k) idx) as [[i y]|]; eauto.
  - apply Exists_exists. exists p. split; [by rewrite np_sort_Permutation|].
    destruct (list_find (fun x => x = p) idx) as [[i y]|] eqn:Hf; [|done].
    apply list_find_Some in Hf as (Hi & -> & _).
    exfalso. apply Hnot. by eapply list_elem_of_lookup_2.
Qed.

(** X11.  On a sparse dataset, [fetch_positions] with a position that is
    not in the coordinate raises [KeyError] and leaves the store as it
    was. *)
Theorem fetch_positions_missing_position
    (depth : nat) (self : BaseDSChrom) (positions : list Z) (p : Z)
    (σ : gmap nat (gmap string pyval)) :
  (1 <= depth)%nat ->
  sparse_ds σ self ->
  Forall (fun p => 0 <= p < 2 ^ 32) positions ->
  p ∈ positions ->
  p ∉ default [] (ds_pos self) ->
  fetch_positions slice_indexer depth self positions σ
  = (Err (KeyError "not all values found in index 'pos'"), σ).
Proof.
  intros Hd (Hc & Hoff & idx & Hpos & Hnd & _) Hrange Hp Hnot.
  destruct depth as [|depth]; [lia|]. rewrite Hpos in Hnot.
  by eapply fetch_positions_missing.
Qed.

(** X12.  On a sparse dataset, [fetch(start, end)] asks for every position
    of [[start, end)]: when one of them is not in the coordinate, the call
    raises [KeyError] instead of returning the positions that are there. *)
Theorem fetch_sparse_gap
    (depth : nat) (self : BaseDSChrom) (start end_ p : Z)
    (σ : gmap nat (gmap string pyval)) :
  (3 <= depth)%nat ->
  sparse_ds σ self ->
  0 <= start -> start < end_ -> end_ < 2 ^ 32 ->
  start <= p < end_ ->
  p ∉ default [] (ds_pos self) ->
  fetch slice_indexer depth self (Some start) (Some end_) σ
  = (Err (KeyError "not all values found in index 'pos'"), σ).
Proof.
  intros Hd (Hc & Hoff & idx & Hpos & Hnd & _) Hs Hse He Hp Hnot.
  destruct depth as [|[|[|depth]]]; [lia|lia|lia|]. rewrite Hpos in Hnot.
  rewrite fetch_sparse_eq by done. cbn [fetch_regions].
  rewrite run_bind, run_lift.
  change [[start; end_]] with ((fun r : Z * Z => [r.1; r.2]) <$> [(start, end_)]).
  rewrite (as_regions_array_pairs [(start, end_)])
    by (done || (repeat constructor; simpl; lia)).
  rewrite run_bind, run_lift, regions_to_pos_runs
    by (repeat constructor; simpl; lia).
  rewrite run_bind.
  rewrite (fetch_positions_missing depth self _ idx p); [done|done|done|done|done| | |done].
  - apply runs_range. repeat constructor; simpl; lia.
  - apply elem_of_runs. exists (start, end_). split; [constructor|done].
Qed.

Lemma list_getitem_cases {A} (l : list A) (k : Z) :
  list_getitem l k = Err IndexError \/ exists a, list_getitem l k = Ok a.
Proof.
  unfold list_getitem, py_index.
  repeat case_decide; cbn [mbind result_bind]; eauto;
    match goal with |- context [l !! ?i] => destruct (l !! i); eauto end.
Qed.

(** X13.  On a continuous dataset with offset [o], [fetch_positions] with
    positions that fit in [uint32] and are not below [o] raises
    [IndexError] as soon as one of them lies beyond the last column. *)
Theorem fetch_positions_beyond_window
    (depth : nat) (self : BaseDSChrom) (positions : list Z) (o p : Z)
    (σ : gmap nat (gmap string pyval)) :
  (2 <= depth)%nat ->
  continuous_ds σ self ->
  as_int (position_offset σ self) = Ok o ->
  Forall (fun q => o <= q /\ 0 <= q < 2 ^ 32) positions ->
  p ∈ positions ->
  o + Z.of_nat (length (ds_cols self)) <= p ->
  (fetch_positions slice_indexer depth self positions σ).1 = Err IndexError.
Proof.
  intros Hd [Hc Hpos] Hoff Hall Hp Hbeyond.
  destruct depth as [|[|depth]]; [lia|lia|].
  assert (Hne : positions <> []) by (intros ->; by apply elem_of_nil in Hp).
  destruct (py_min_nonempty _ Hne) as [m Hm].
  destruct (py_max_nonempty _ Hne) as [mx Hmx].
  pose proof (proj1 (py_min_spec _ _) Hm) as [Hmin Hlow].
  pose proof (proj1 (py_max_spec _ _) Hmx) as [Hmax Hup].
  rewrite Forall_forall in Hall, Hlow, Hup.
  pose proof (Hall _ Hmin). pose proof (Hall _ Hp).
  pose proof (Hlow _ Hp). pose proof (Hup _ Hmin).
  cbn [fetch_positions]. rewrite run_bind, run_continuous, Hc.
  rewrite run_bind, run_lift, Hm, run_bind, run_lift, Hmx, run_bind.
  rewrite fetch_continuous_eq by (done || lia).
  rewrite Hoff. cbn [mbind result_bind]. unfold sel_slice. rewrite Hpos.
  rewrite _fetch_positions_eq, position_offset_fresh_offset.
  cbn [as_int mbind result_bind]. rewrite sel_array_with_attrs.
  unfold sel_array. cbn [ds_pos ds_cols].
  unfold position_keys.
  rewrite np_sort_range
    by (apply Forall_forall; intros q Hq; by apply Hall).
  rewrite mapM_fmap.
  set (sl := list_slice (ds_cols self) (m - o) (mx + 1 - o)).
  rewrite (mapM_err _ _ IndexError); [done| |].
  - apply Forall_forall. intros q _. apply list_getitem_cases.
  - apply Exists_exists. exists p. split; [by rewrite np_sort_Permutation|].
    rewrite uint32_small by lia.
    assert (Hlen : Z.of_nat (length sl) <= p - m).
    { unfold sl. rewrite length_list_slice by lia. lia. }
    unfold list_getitem, py_index.
    rewrite decide_False by lia. by rewrite decide_False by lia.
Qed.

(** X14.  Duplicates stay with the caller: when [fetch_positions(P)]
    returns for positions that fit in [uint32] and [P] has a duplicate, the
    dataset it returns has a coordinate with that duplicate, and every
    further [fetch_positions] on it raises [InvalidIndexError]. *)
Theorem fetch_positions_after_duplicates
    (depth : nat) (self r : BaseDSChrom) (positions positions' : list Z)
    (σ σ' : gmap nat (gmap string pyval)) :
  Forall (fun p => 0 <= p < 2 ^ 32) positions ->
  ~ NoDup positions ->
  fetch_positions slice_indexer depth self positions σ = (Ok r, σ') ->
  fetch_positions slice_indexer depth r positions' σ' = (Err InvalidIndexError, σ').
Proof.
  intros Hrange Hdup H.
  pose proof (fetch_positions_sparse _ _ _ _ _ _ _ H) as (Hc & Ho & Hp).
  destruct depth as [|depth]; [discriminate|].
  cbn [fetch_positions]. rewrite run_bind, run_continuous, Hc. cbn [truthy].
  rewrite _fetch_positions_eq, Ho. cbn [as_int mbind result_bind].
  unfold sel_array. rewrite Hp. unfold get_indexer.
  rewrite decide_False; [done|].
  rewrite np_sort_range by done. by rewrite np_sort_Permutation.
Qed.

(** X15.  An ASCII pattern whose length is not the context size is refused
    before anything is selected: [select_mc_type], and [get_region_ds] with
    a valid [bin_size], raise the [ValueError] of the length check and
    leave the store as it was. *)
Theorem wrong_length_pattern
    (depth : nat) (self : BaseDSChrom) (pattern : string) (cp : pyval) (n b o : Z)
    (rn : option string) (rs re : option Z) (σ : gmap nat (gmap string pyval)) :
  isascii pattern = true ->
  (σ !!! ds_attrs self) !! "c_pos" = Some cp ->
  (σ !!! ds_attrs self) !! "context_size" = Some (VInt n) ->
  Z.of_nat (String.length pattern) <> n ->
  as_int (position_offset σ self) = Ok o ->
  1 < b ->
  select_mc_type parse_mc_pattern slice_indexer depth self pattern σ
  = (Err (ValueError "The length of mc_pattern is not equal to context_size."), σ) /\
  get_region_ds parse_mc_pattern slice_indexer depth self pattern
    (Some b) None rn rs re σ
  = (Err (ValueError "The length of mc_pattern is not equal to context_size."), σ).
Proof.
  intros _ Hcp Hcs Hlen Ho Hb.
  assert (exists cb, codebook self σ = (Ok cb, σ) /\
            cb_attrs cb !! "context_size" = Some (VInt n)) as (cb & Hcb & Hn).
  { unfold codebook. rewrite run_bind, run_attr, Hcp, run_bind, run_attr, Hcs.
    eexists. split; [reflexivity|]. cbn [cb_attrs]. by rewrite lookup_insert_eq. }
  assert (Hpos : forall off,
            get_mc_pos parse_mc_pattern cb pattern off
            = Err (ValueError "The length of mc_pattern is not equal to context_size.")).
  { intros off. unfold get_mc_pos, _validate_mc_pattern, cb_attr. rewrite Hn.
    cbn [mbind result_bind eq_int]. rewrite length_upper.
    destruct (n =? Z.of_nat (String.length pattern)) eqn:Heq; [|done].
    apply Z.eqb_eq in Heq. lia. }
  split.
  - unfold select_mc_type.
    by rewrite run_bind, Hcb, run_bind, run_offset, run_bind, run_lift, Hpos.
  - unfold get_region_ds. cbv beta iota.
    rewrite (decide_True (P := 1 < b)) by done.
    destruct (run_region_bounds self rs re o σ Ho) as [bounds Hbounds].
    rewrite (run_bind_ok _ _ _ _ _ Hbounds).
    rewrite run_bind, run_ret.
    by rewrite run_bind, Hcb, run_bind, run_offset, run_bind, run_lift, Hpos.
Qed.

(** ** The shape of an aggregation *)

(** What is left of a successful [get_region_ds]: the fetch of the matched
    positions, the labels, the name of the dimension and the sums. *)
Lemma get_region_ds_inv depth self mc_type bin_size regions rn rs re σ rd σ' :
  get_region_ds parse_mc_pattern slice_indexer depth self mc_type
    bin_size regions rn rs re σ = (Ok rd, σ') ->
  exists base_ds pos_idx σ0 labels name data,
    fetch_positions slice_indexer depth self pos_idx σ0 = (Ok base_ds, σ') /\
    rd = RegionDS (default "pos_bins" name) labels
           (fillna0 (ds_width base_ds) <$> data) /\
    length data = length labels /\
    Forall (fun x => x = Some (zero_cell (ds_width base_ds)) \/
                     exists bins pos i,
                       x = group_sum (ds_width base_ds) bins pos
                             (col_data <$> ds_cols base_ds) i) data /\
    match regions with
    | Some t => labels = fst <$> tbl_rows t /\ name = tbl_index_name t
    | None => name = rn /\ exists bins, labels = LInt <$> removelast bins
    end.
Proof.
  intros H.
  assert (Htail : forall (base_ds : BaseDSChrom) (pos_idx : list Z) bins labels name σ1,
    (region_data ←
       (if decide (pos_idx = []) then
          mret ((fun _ => Some (zero_cell (ds_width base_ds))) <$> labels)
        else
          lift (groupby_bins_sum (ds_width base_ds) bins labels (get_index base_ds)
                  (col_data <$> ds_cols base_ds)));
     mret (RegionDS (default "pos_bins" name) labels
             (fillna0 (ds_width base_ds) <$> region_data))) σ1 = (Ok rd, σ') ->
    σ1 = σ' /\
    exists data,
      rd = RegionDS (default "pos_bins" name) labels
             (fillna0 (ds_width base_ds) <$> data) /\
      length data = length labels /\
      Forall (fun x => x = Some (zero_cell (ds_width base_ds)) \/
                       exists bins pos i,
                         x = group_sum (ds_width base_ds) bins pos
                               (col_data <$> ds_cols base_ds) i) data).
  { intros base_ds pos_idx bins labels name σ1 Ht.
    apply run_bind_inv in Ht as (data & σ2 & Hdata & Ht).
    rewrite run_ret in Ht. injection Ht as <- <-.
    case_decide.
    - rewrite run_ret in Hdata. injection Hdata as <- <-.
      split; [done|]. eexists. split; [done|]. rewrite length_fmap. split; [done|].
      apply Forall_fmap, Forall_forall. intros ? _. by left.
    - apply run_lift_inv in Hdata as [Hdata ->]. split; [done|].
      exists data. split; [done|]. unfold groupby_bins_sum in Hdata.
      repeat case_decide; try discriminate. injection Hdata as <-.
      rewrite length_fmap, length_seq. split; [done|].
      apply Forall_fmap, Forall_forall. intros i _. right. eauto. }
  unfold get_region_ds in H.
  destruct bin_size as [b|], regions as [t|]; [| | |discriminate]; cbv beta iota in H.
  - apply run_bind_inv in H as (bounds & σ1 & _ & H).
    apply run_bind_inv in H as (u & σ2 & _ & H).
    apply run_bind_inv in H as (cb & σ3 & _ & H).
    apply run_bind_inv in H as (off & σ4 & _ & H).
    apply run_bind_inv in H as (pos_idx0 & σ5 & _ & H).
    apply run_bind_inv in H as (pos_idx & σ6 & _ & H).
    apply run_bind_inv in H as (base_ds & σ7 & Hfp & H).
    rewrite run_bind, run_ret in H.
    apply Htail in H as (-> & data & -> & Hlen & Hdata).
    exists base_ds, pos_idx, σ6, (fst <$> tbl_rows t), (tbl_index_name t), data.
    by rewrite length_fmap in Hlen |- *.
  - apply run_bind_inv in H as (bounds & σ1 & _ & H).
    apply run_bind_inv in H as (u & σ2 & _ & H).
    apply run_bind_inv in H as (cb & σ3 & _ & H).
    apply run_bind_inv in H as (off & σ4 & _ & H).
    apply run_bind_inv in H as (pos_idx0 & σ5 & _ & H).
    apply run_bind_inv in H as (pos_idx & σ6 & _ & H).
    apply run_bind_inv in H as (base_ds & σ7 & Hfp & H).
    apply run_bind_inv in H as ([[bins labels] name] & σ8 & Hprep & H).
    assert (σ8 = σ7 /\ name = rn /\ exists bins', labels = LInt <$> removelast bins')
      as (-> & -> & Hlabels).
    { apply run_bind_inv in Hprep as (cs & σ9 & Hcs & Hprep).
      unfold chrom_size in Hcs. rewrite run_attr in Hcs.
      assert (σ9 = σ7) as -> by (by injection Hcs as _ <-).
      apply run_bind_inv in Hprep as (csz & σ10 & Hcsz & Hprep).
      apply run_lift_inv in Hcsz as [_ ->].
      apply run_bind_inv in Hprep as (bins' & σ11 & Hbins & Hprep).
      apply run_lift_inv in Hbins as [_ ->].
      rewrite run_ret in Hprep. injection Hprep as <- <- <- <-. eauto. }
    apply Htail in H as (-> & data & -> & Hlen & Hdata).
    exists base_ds, pos_idx, σ6, labels, rn, data. by eauto 10.
  - apply run_bind_inv in H as (bounds & σ1 & _ & H).
    apply run_bind_inv in H as (u & σ2 & _ & H).
    apply run_bind_inv in H as (cb & σ3 & _ & H).
    apply run_bind_inv in H as (off & σ4 & _ & H).
    apply run_bind_inv in H as (pos_idx0 & σ5 & _ & H).
    apply run_bind_inv in H as (pos_idx & σ6 & _ & H).
    apply run_bind_inv in H as (base_ds & σ7 & Hfp & H).
    rewrite run_bind, run_ret in H.
    apply Htail in H as (-> & data & -> & Hlen & Hdata).
    exists base_ds, pos_idx, σ6, (fst <$> tbl_rows t), (tbl_index_name t), data.
    by rewrite length_fmap in Hlen |- *.
Qed.

Lemma length_add_cells (a b : list Z) (w : nat) :
  length a = w -> length b = w -> length (add_cells a b) = w.
Proof. intros Ha Hb. unfold add_cells. rewrite length_zip_with. lia. Qed.

Lemma length_group_sum (w : nat) bins pos (cells : list (list Z)) i row :
  Forall (fun c => length c = w) cells ->
  group_sum w bins pos cells i = Some row -> length row = w.
Proof.
  intros Hcells. unfold group_sum.
  set (members := snd <$> filter _ (zip pos cells)).
  assert (Hm : Forall (fun c => length c = w) members).
  { apply Forall_fmap, Forall_forall. intros [p c] Hpc.
    apply list_elem_of_filter in Hpc as [_ Hpc]. cbn.
    apply elem_of_zip_r in Hpc. rewrite Forall_forall in Hcells. by apply Hcells. }
  assert (Hsum : length (foldr add_cells (zero_cell w) members) = w).
  { clear -Hm. induction Hm as [|c l Hc _ IH]; cbn [foldr].
    - unfold zero_cell. by rewrite length_replicate.
    - by apply length_add_cells. }
  destruct members; [discriminate|]. by intros [= <-].
Qed.

(** X16.  The dataset returned by [get_region_ds] has one row of sums per
    label, and when every position of the source has [ds_width] counts, so
    has every row. *)
Theorem get_region_ds_shape
    (depth : nat) (self : BaseDSChrom) (mc_type : string) (bin_size : option Z)
    (regions : option regions_table) (rn : option string) (rs re : option Z)
    (rd : region_ds) (σ σ' : gmap nat (gmap string pyval)) :
  get_region_ds parse_mc_pattern slice_indexer depth self mc_type
    bin_size regions rn rs re σ = (Ok rd, σ') ->
  length (rd_data rd) = length (rd_labels rd) /\
  (Forall (fun c => length (col_data c) = ds_width self) (ds_cols self) ->
   Forall (fun row => length row = ds_width self) (rd_data rd)).
Proof.
  intros H.
  apply get_region_ds_inv in H
    as (base_ds & pos_idx & σ0 & labels & name & data & Hfp & -> & Hlen & Hdata & _).
  cbn [rd_data rd_labels]. rewrite length_fmap. split; [done|].
  intros Hw. apply fetch_positions_drawn in Hfp as (Hsub & _ & Hwidth).
  rewrite Hwidth in *.
  assert (Hcells : Forall (fun c => length c = ds_width self)
                     (col_data <$> ds_cols base_ds)).
  { apply Forall_fmap, Forall_forall. intros c Hc. cbn.
    rewrite Forall_forall in Hw. by apply Hw, Hsub. }
  apply Forall_fmap. eapply Forall_impl; [exact Hdata|].
  intros x [->|(bins & pos & i & ->)]; cbn.
  - unfold zero_cell. by rewrite length_replicate.
  - unfold fillna0. destruct (group_sum _ _ _ _ _) as [row|] eqn:Hrow; cbn.
    + by eapply length_group_sum.
    + unfold zero_cell. by rewrite length_replicate.
Qed.


(** ** The edges of the fixed-size bins *)

Lemma list_getitem_last {A} (l : list A) :
  list_getitem l (-1) = match last l with Some x => Ok x | None => Err IndexError end.
Proof.
  unfold list_getitem, py_index. rewrite last_lookup.
  destruct l as [|a l]; [done|].
  rewrite decide_False by lia. rewrite decide_True by (cbn [length]; lia).
  cbn [mbind result_bind].
  replace (Z.to_nat (-1 + Z.of_nat (length (a :: l)))) with (pred (length (a :: l)))
    by (cbn [length]; lia).
  done.
Qed.

Lemma list_getitem_head {A} (l : list A) :
  list_getitem l 0 = match head l with Some x => Ok x | None => Err IndexError end.
Proof.
  unfold list_getitem, py_index. destruct l as [|a l]; [done|].
  by rewrite decide_True by (cbn [length]; lia).
Qed.

Lemma elem_of_py_range (stop step x : Z) :
  0 < step -> x ∈ py_range stop step <-> 0 <= x < stop /\ (step | x).
Proof.
  intros Hstep. unfold py_range. rewrite list_elem_of_fmap. split.
  - intros (k & -> & Hk). apply elem_of_seq in Hk.
    assert (Z.of_nat k + 1 <= (stop + step - 1) / step) by lia.
    pose proof (Z.mul_div_le (stop + step - 1) step Hstep).
    split; [nia|]. by exists (Z.of_nat k).
  - intros ([H0 H1] & q & ->). assert (0 <= q) by nia.
    exists (Z.to_nat q). split; [lia|]. apply elem_of_seq.
    assert (q + 1 <= (stop + step - 1) / step)
      by (apply Z.div_le_lower_bound; lia).
    lia.
Qed.

Lemma StronglySorted_py_range (stop step : Z) :
  0 < step -> StronglySorted Z.lt (py_range stop step).
Proof.
  intros Hstep. unfold py_range. generalize (Z.to_nat ((stop + step - 1) / step)).
  generalize 0%nat. intros a n. revert a.
  induction n as [|n IH]; intros a; cbn [seq fmap list_fmap]; constructor.
  - apply IH.
  - apply Forall_fmap, Forall_forall. intros k Hk. apply elem_of_seq in Hk. cbn. nia.
Qed.

Lemma StronglySorted_filter {A} (R : relation A) (P : A -> Prop)
    `{!forall x, Decision (P x)} (l : list A) :
  StronglySorted R l -> StronglySorted R (filter P l).
Proof.
  induction 1 as [|x l _ IH Hx]; [constructor|].
  rewrite filter_cons. case_decide; [|done]. constructor; [done|].
  apply Forall_forall. intros y Hy. apply list_elem_of_filter in Hy as [_ Hy].
  rewrite Forall_forall in Hx. by apply Hx.
Qed.

(** The edges that the loop over [range(0, chrom_size, bin_size)] and the two
    corrections at the ends leave. *)
Lemma fixed_bins_spec (cs b s e : Z) (bins : list Z) :
  0 < b ->
  fixed_bins cs b (Num s) (Num e) = Ok bins ->
  exists edges,
    bins = edges ++ [e] /\
    head bins = Some s /\
    StronglySorted Z.lt bins /\
    forall x, x ∈ bins <->
              x = s \/ x = e \/ (s <= x <= e /\ 0 <= x < cs /\ (b | x)).
Proof.
  intros Hb H. unfold fixed_bins in H.
  set (F := filter _ (py_range cs b)) in H.
  assert (HF : forall x, x ∈ F <-> s <= x <= e /\ 0 <= x < cs /\ (b | x)).
  { intros x. unfold F. rewrite list_elem_of_filter, elem_of_py_range by done.
    cbn [num_ltb]. rewrite negb_True, orb_True, !Is_true_true, !Z.ltb_lt.
    intuition lia. }
  assert (HS : StronglySorted Z.lt F)
    by (apply StronglySorted_filter, StronglySorted_py_range; done).
  clearbody F. rewrite list_getitem_last in H.
  destruct (last F) as [l|] eqn:Hl; [|discriminate]. cbn [mbind result_bind] in H.
  apply last_Some in Hl as [F' ->].
  assert (Hll : l ∈ F' ++ [l]) by (apply elem_of_app; right; constructor).
  assert (Hle : s <= l <= e) by (by apply HF in Hll as [? _]).
  set (bins1 := if l <? e then (F' ++ [l]) ++ [e] else F' ++ [l]) in H.
  assert (exists E1, bins1 = E1 ++ [e] /\ StronglySorted Z.lt bins1 /\
                     forall x, x ∈ bins1 <-> x ∈ F' ++ [l] \/ x = e)
    as (E1 & HE1 & HS1 & Hin1).
  { unfold bins1. destruct (Z.ltb_spec l e) as [Hlt|Hge].
    - exists (F' ++ [l]). split; [done|]. split.
      + apply StronglySorted_app_2; [|done|repeat constructor].
        intros x y Hx Hy. apply list_elem_of_singleton in Hy as ->.
        apply StronglySorted_app in HS as (Hc & _ & _).
        apply elem_of_app in Hx as [Hx|Hx].
        * assert (x < l) by (apply Hc; [done|constructor]). lia.
        * by apply list_elem_of_singleton in Hx as ->.
      + intros x. by rewrite (elem_of_app (F' ++ [l])), list_elem_of_singleton.
    - assert (l = e) as -> by lia. exists F'. split; [done|]. split; [done|].
      intros x. split; [by left|]. by intros [?| ->]. }
  clearbody bins1. rewrite list_getitem_head in H.
  destruct (head bins1) as [f|] eqn:Hf; [|discriminate]. cbn [mbind result_bind] in H.
  apply head_Some in Hf as [T HT].
  assert (Hfin : f ∈ bins1) by (rewrite HT; constructor).
  assert (Hsf : s <= f).
  { apply Hin1 in Hfin as [Hfin| ->]; [|lia]. apply HF in Hfin. lia. }
  destruct (Z.ltb_spec s f) as [Hlt|Hge]; injection H as <-.
  - exists (s :: E1). split; [by rewrite HE1|]. split; [done|]. split.
    + constructor; [done|]. apply Forall_forall. intros x Hx.
      rewrite HT in HS1. apply StronglySorted_cons in HS1 as [Hall _].
      rewrite HT in Hx. apply elem_of_cons in Hx as [->|Hx]; [done|].
      rewrite Forall_forall in Hall. specialize (Hall x Hx). lia.
    + intros x. rewrite elem_of_cons, Hin1, HF. split.
      * intros [->|[Hx| ->]]; auto.
      * intros [->|[->|Hx]]; auto.
  - assert (f = s) as -> by lia. exists E1. split; [done|]. split; [by rewrite HT|].
    split; [done|]. intros x. rewrite Hin1, HF. split.
    + intros [Hx| ->]; auto.
    + intros [->|[->|Hx]]; [|by right|by left].
      by apply Hin1 in Hfin as [Hs%HF| ->]; [left|right].
Qed.

(** When no multiple of the bin size below the chromosome size lies between
    the two ends of the region, the list of bin edges stays empty and
    reading its last element raises [IndexError]. *)
Lemma fixed_bins_empty_window (cs b s e : Z) :
  0 < b ->
  (forall k, 0 <= k * b < cs -> ~ s <= k * b <= e) ->
  fixed_bins cs b (Num s) (Num e) = Err IndexError.
Proof.
  intros Hb Hnone. unfold fixed_bins.
  set (F := filter _ (py_range cs b)).
  assert (F = []) as ->; [|done].
  apply elem_of_nil_inv. intros x Hx. unfold F in Hx.
  apply list_elem_of_filter in Hx as [HP Hx].
  apply elem_of_py_range in Hx as [Hr [k ->]]; [|done].
  cbn [num_ltb] in HP. rewrite negb_True, orb_True, !Is_true_true, !Z.ltb_lt in HP.
  apply (Hnone k Hr). lia.
Qed.

(** ** Which positions a bin sums *)

Lemma sorted_count_lt (l : list Z) (x : Z) :
  StronglySorted Z.lt l ->
  forall j y, l !! j = Some y ->
    (y < x <-> (j < length (filter (fun b => (b < x)%Z) l))%nat).
Proof.
  induction 1 as [|a l _ IH Ha]; intros j y Hj; [done|].
  rewrite Forall_forall in Ha. rewrite filter_cons. case_decide as Hax.
  - cbn [length]. destruct j as [|j]; cbn in Hj.
    + injection Hj as <-. split; [lia|done].
    + rewrite (IH _ _ Hj). lia.
  - assert (filter (fun b => b < x) l = []) as ->.
    { apply elem_of_nil_inv. intros z Hz. apply list_elem_of_filter in Hz as [Hz1 Hz2].
      specialize (Ha z Hz2). lia. }
    cbn [length]. split; [|lia]. intros Hy. destruct j as [|j]; cbn in Hj.
    + injection Hj as <-. lia.
    + apply list_elem_of_lookup_2 in Hj. specialize (Ha y Hj). lia.
Qed.

Lemma StronglySorted_le_NoDup_lt (l : list Z) :
  StronglySorted Z.le l -> NoDup l -> StronglySorted Z.lt l.
Proof.
  induction 1 as [|a l _ IH Ha]; intros Hnd; [constructor|].
  apply NoDup_cons in Hnd as [Hnotin Hnd]. constructor; [by apply IH|].
  rewrite Forall_forall in Ha. apply Forall_forall. intros y Hy.
  specialize (Ha y Hy). assert (a <> y) by (by intros ->). lia.
Qed.

Lemma cut_in_bin_strict (bins : list Z) (x : Z) (i : nat) :
  StronglySorted Z.lt bins ->
  cut bins x = Some i <-> in_bin bins i x = true.
Proof.
  intros HS. unfold cut, in_bin.
  pose proof (sorted_count_lt bins x HS) as Hk.
  pose proof (length_filter (fun b => b < x) bins) as Hlen.
  set (k := length (filter (fun b => b < x) bins)) in *. clearbody k.
  destruct (decide (head bins = Some x)) as [Hh|Hh].
  - apply head_Some in Hh as [T ->]. destruct T as [|t T].
    + rewrite decide_True by (cbn; lia). by destruct i as [|[|i]].
    + rewrite decide_False by (cbn; lia). split.
      * intros [= <-]. cbn. by rewrite Z.eqb_refl, orb_true_r.
      * destruct i as [|i]; [done|]. intros Hin.
        destruct ((x :: t :: T) !! S i) as [lo|] eqn:Hlo; [|done].
        destruct ((x :: t :: T) !! S (S i)) as [hi|]; [|done].
        rewrite orb_false_r in Hin. apply andb_true_iff in Hin as [Hin _].
        apply Z.ltb_lt in Hin. apply StronglySorted_cons in HS as [Hall _].
        rewrite Forall_forall in Hall. cbn in Hlo.
        apply list_elem_of_lookup_2 in Hlo. specialize (Hall lo Hlo). lia.
  - case_decide as Hid.
    + split; [done|]. intros Hin.
      destruct (bins !! i) as [lo|] eqn:Hlo; [|done].
      destruct (bins !! S i) as [hi|] eqn:Hhi; [|done].
      apply lookup_lt_Some in Hhi as Hi.
      apply orb_true_iff in Hin as [Hin|Hin]; apply andb_true_iff in Hin as [H1 H2].
      * apply Z.ltb_lt in H1. apply Z.leb_le in H2.
        apply (Hk _ _ Hlo) in H1. assert (~ hi < x) as Hn by lia.
        rewrite (Hk _ _ Hhi) in Hn. lia.
      * apply Nat.eqb_eq in H1 as ->. apply Z.eqb_eq in H2 as ->.
        by rewrite head_lookup in Hh.
    + assert (0 < k < length bins)%nat as Hkr by lia.
      destruct (lookup_lt_is_Some_2 bins (k - 1)) as [lo Hlo]; [lia|].
      destruct (lookup_lt_is_Some_2 bins k) as [hi Hhi]; [lia|].
      split.
      * intros [= <-]. replace (S (k - 1)) with k by lia. rewrite Hlo, Hhi.
        apply orb_true_iff. left. apply andb_true_iff.
        rewrite Z.ltb_lt, Z.leb_le. split.
        -- apply (Hk _ _ Hlo). lia.
        -- assert (~ hi < x); [|lia]. rewrite (Hk _ _ Hhi). lia.
      * intros Hin. destruct (bins !! i) as [lo'|] eqn:Hlo'; [|done].
        destruct (bins !! S i) as [hi'|] eqn:Hhi'; [|done].
        apply orb_true_iff in Hin as [Hin|Hin]; apply andb_true_iff in Hin as [H1 H2].
        -- apply Z.ltb_lt in H1. apply Z.leb_le in H2.
           apply (Hk _ _ Hlo') in H1. assert (~ hi' < x) as Hn by lia.
           rewrite (Hk _ _ Hhi') in Hn. f_equal. lia.
        -- apply Nat.eqb_eq in H1 as ->. apply Z.eqb_eq in H2 as ->.
           by rewrite head_lookup in Hh.
Qed.

(** The bins that [groupby_bins] accepts: in order, and without repeated
    edge unless there are exactly two edges. *)
Lemma cut_in_bin (bins : list Z) (x : Z) (i : nat) :
  Sorted Z.le bins -> NoDup bins \/ length bins = 2%nat ->
  cut bins x = Some i <-> in_bin bins i x = true.
Proof.
  intros HS Hnd. apply (Sorted_StronglySorted _) in HS.
  destruct (decide (NoDup bins)) as [Hd|Hd].
  { by apply cut_in_bin_strict, StronglySorted_le_NoDup_lt. }
  destruct Hnd as [?|Hlen]; [done|].
  destruct bins as [|a [|c [|? ?]]]; try done.
  destruct (decide (a = c)) as [->|Hne].
  - unfold cut, in_bin. cbn [head]. destruct (decide (Some c = Some x)) as [[= ->]|Hx].
    + rewrite decide_False by (cbn; lia). split.
      * intros [= <-]. cbn. by rewrite Z.eqb_refl, orb_true_r.
      * by destruct i as [|[|i]].
    + assert (c <> x) by congruence.
      rewrite !filter_cons, filter_nil. destruct (decide (c < x)).
      * rewrite decide_True by (cbn; lia). split; [done|].
        destruct i as [|[|i]]; cbn; [|done..].
        rewrite orb_true_iff, !andb_true_iff, Z.ltb_lt, Z.leb_le, Z.eqb_eq. lia.
      * rewrite decide_True by (cbn; lia). split; [done|].
        destruct i as [|[|i]]; cbn; [|done..].
        rewrite orb_true_iff, !andb_true_iff, Z.ltb_lt, Z.leb_le, Z.eqb_eq. lia.
  - apply cut_in_bin_strict. apply StronglySorted_cons in HS as [Ha _].
    apply Forall_cons in Ha as [Ha _]. repeat constructor. lia.
Qed.

Lemma fillna0_group_sum (w : nat) (bins pos : list Z) (cells : list (list Z)) (i : nat) :
  Sorted Z.le bins -> NoDup bins \/ length bins = 2%nat ->
  fillna0 w (group_sum w bins pos cells i) = bin_total w bins i pos cells.
Proof.
  intros HS Hnd. unfold group_sum, bin_total.
  rewrite (list_filter_iff _ (fun pc : Z * list Z => in_bin bins i pc.1 = true))
    by (intros pc; by apply cut_in_bin).
  by destruct (snd <$> filter _ _).
Qed.

Lemma fmap_const_seq {A B} (c : B) (l : list A) :
  (fun _ => c) <$> l = (fun _ => c) <$> seq 0 (length l).
Proof.
  generalize 0%nat. induction l as [|a l IH]; intros n; [done|].
  cbn. f_equal. apply IH.
Qed.

Lemma fetch_positions_index depth self positions σ r σ' :
  fetch_positions slice_indexer depth self positions σ = (Ok r, σ') ->
  ds_pos r = Some (uint32 <$> np_sort positions) /\
  length (ds_cols r) = length positions.
Proof.
  intros H. apply fetch_positions_last_step in H as (obj & σ1 & H & _).
  split; [|by eapply _fetch_positions_length].
  rewrite _fetch_positions_eq in H.
  destruct (as_int (position_offset σ1 obj) ≫= _) as [o|]; [|discriminate].
  by injection H as <- _.
Qed.

Lemma StronglySorted_lookup_S (l : list Z) (i : nat) (a b : Z) :
  StronglySorted Z.lt l -> l !! i = Some a -> l !! S i = Some b -> a < b.
Proof.
  intros HS. revert i. induction HS as [|x l HS IH Hx]; intros i Ha Hb; [done|].
  destruct i as [|i]; cbn in Ha, Hb.
  - injection Ha as <-. rewrite Forall_forall in Hx. apply Hx.
    by eapply list_elem_of_lookup_2.
  - by eapply IH.
Qed.

(** The bins are closed on the right: an inner edge lies in the bin that it
    ends, not in the bin that it starts. *)
Lemma in_bin_inner_edge (bins : list Z) (i : nat) (p hi : Z) :
  StronglySorted Z.lt bins ->
  bins !! S i = Some p -> bins !! S (S i) = Some hi ->
  in_bin bins i p = true /\ in_bin bins (S i) p = false.
Proof.
  intros HS Hp Hhi. unfold in_bin. rewrite Hp, Hhi.
  destruct (lookup_lt_is_Some_2 bins i) as [lo Hlo];
    [apply lookup_lt_Some in Hp; lia|].
  rewrite Hlo. pose proof (StronglySorted_lookup_S _ _ _ _ HS Hlo Hp). split.
  - apply orb_true_iff. left. apply andb_true_iff. rewrite Z.ltb_lt, Z.leb_le. lia.
  - by rewrite Z.ltb_irrefl.
Qed.

(** What is left of a successful [get_region_ds] with a bin size and both
    ends of the region. *)
Lemma get_region_ds_bin_inv depth self mc_type b s e rn rd σ σ' :
  get_region_ds parse_mc_pattern slice_indexer depth self mc_type
    (Some b) None rn (Some s) (Some e) σ = (Ok rd, σ') ->
  exists cb matched bins base_ds v cs,
    1 < b /\
    (σ' !!! ds_attrs self) !! "chrom_size" = Some v /\ as_int v = Ok cs /\
    fixed_bins cs b (Num s) (Num e) = Ok bins /\
    codebook self σ = (Ok cb, σ) /\
    get_mc_pos parse_mc_pattern cb mc_type (Some (position_offset σ self)) = Ok matched /\
    fetch_positions slice_indexer depth self matched σ = (Ok base_ds, σ') /\
    get_index base_ds = uint32 <$> np_sort matched /\
    rd_dim rd = default "pos_bins" rn /\
    rd_labels rd = LInt <$> removelast bins /\
    rd_data rd
    = (fun i => bin_total (ds_width self) bins i
                  (get_index base_ds) (col_data <$> ds_cols base_ds))
      <$> seq 0 (length (removelast bins)).
Proof.
  intros H. unfold get_region_ds in H. cbv beta iota in H.
  apply run_bind_inv in H as (bounds & σ1 & Hb & H).
  case_decide as Hb1; [|discriminate].
  rewrite run_bind, run_ret, run_bind, run_ret, run_ret in Hb.
  injection Hb as <- <-.
  rewrite (run_bind (mret tt)), run_ret in H.
  apply run_bind_inv in H as (cb & σ3 & Hcb & H).
  pose proof (codebook_inv _ _ _ _ Hcb) as (-> & _).
  rewrite run_bind, run_offset in H.
  apply run_bind_inv in H as (matched & σ5 & Hm & H).
  apply run_lift_inv in Hm as [Hm ->].
  rewrite (run_bind (mret matched)), run_ret in H.
  apply run_bind_inv in H as (base_ds & σ7 & Hfp & H).
  apply run_bind_inv in H as ([[bins labels] name] & σ8 & Hprep & H).
  apply run_bind_inv in Hprep as (cs & σ9 & Hcs & Hprep).
  unfold chrom_size in Hcs. rewrite run_attr in Hcs.
  destruct ((σ7 !!! ds_attrs self) !! "chrom_size") as [v|] eqn:Hv; [|discriminate].
  injection Hcs as <- <-.
  apply run_bind_inv in Hprep as (csz & σ10 & Hcsz & Hprep).
  apply run_lift_inv in Hcsz as [Hcsz ->].
  apply run_bind_inv in Hprep as (bins' & σ11 & Hbins & Hprep).
  apply run_lift_inv in Hbins as [Hbins ->].
  rewrite run_ret in Hprep. injection Hprep as <- <- <- <-.
  cbn [default from_option fst snd] in Hbins. unfold id in Hbins.
  apply run_bind_inv in H as (data & σ12 & Hdata & H).
  rewrite run_ret in H. injection H as <- <-. cbn [rd_data rd_labels rd_dim].
  pose proof (fetch_positions_drawn _ _ _ _ _ _ Hfp) as (_ & _ & Hw).
  pose proof (fetch_positions_index _ _ _ _ _ _ Hfp) as [Hpos Hlen].
  assert (Hix : get_index base_ds = uint32 <$> np_sort matched)
    by (unfold get_index; by rewrite Hpos).
  assert (σ12 = σ7 /\
          fillna0 (ds_width base_ds) <$> data
          = (fun i => bin_total (ds_width self) bins' i
                        (get_index base_ds) (col_data <$> ds_cols base_ds))
            <$> seq 0 (length (removelast bins'))) as [-> Hrows].
  { rewrite Hw in *. case_decide as Hnil.
    - rewrite run_ret in Hdata. injection Hdata as <- <-. split; [done|].
      rewrite Hnil in Hlen. destruct (ds_cols base_ds); [|done].
      rewrite <- !list_fmap_compose.
      transitivity ((fun _ => zero_cell (ds_width self)) <$> removelast bins'); [done|].
      rewrite (fmap_const_seq (zero_cell (ds_width self)) (removelast bins')).
      apply list_fmap_ext. intros _ i _. unfold bin_total.
      by rewrite fmap_nil, zip_with_nil_r.
    - apply run_lift_inv in Hdata as [Hdata ->]. split; [done|].
      unfold groupby_bins_sum in Hdata. repeat case_decide; try discriminate.
      injection Hdata as <-. rewrite <- list_fmap_compose, !length_fmap.
      apply list_fmap_ext. intros _ i _. cbn. by apply fillna0_group_sum. }
  exists cb, matched, bins', base_ds, v, csz. eauto 15.
Qed.

(** X18.  With a bin size and both ends of the region given, the labels of
    the result are the left edges of bins that tile the region from
    [region_start] to [region_end]: together with [region_end] they increase
    strictly from [region_start], and every edge but the first and the last
    is a multiple of the bin size below the chromosome size. *)
Theorem get_region_ds_bin_edges
    (depth : nat) (self : BaseDSChrom) (mc_type : string) (b s e : Z)
    (rn : option string) (rd : region_ds) (σ σ' : gmap nat (gmap string pyval)) :
  get_region_ds parse_mc_pattern slice_indexer depth self mc_type
    (Some b) None rn (Some s) (Some e) σ = (Ok rd, σ') ->
  exists edges v cs,
    (σ' !!! ds_attrs self) !! "chrom_size" = Some v /\ as_int v = Ok cs /\
    rd_labels rd = LInt <$> edges /\
    rd_dim rd = default "pos_bins" rn /\
    head (edges ++ [e]) = Some s /\
    StronglySorted Z.lt (edges ++ [e]) /\
    forall x, x ∈ edges <->
              x < e /\ (x = s \/ (s <= x /\ 0 <= x < cs /\ (b | x))).
Proof.
  intros H. apply get_region_ds_bin_inv in H
    as (cb & matched & bins & base_ds & v & cs & Hb & Hv & Hcs & Hbins
        & _ & _ & _ & _ & Hdim & Hlabels & _).
  apply fixed_bins_spec in Hbins as (edges & -> & Hhead & Hsorted & Hin); [|lia].
  rewrite removelast_last in Hlabels.
  exists edges, v, cs. do 6 (split; [done|]). intros x.
  pose proof Hsorted as Hlt. apply StronglySorted_app in Hlt as (Hlt & _ & _).
  split.
  - intros Hx. assert (x < e) by (apply Hlt; [done|constructor]). split; [done|].
    assert (x ∈ edges ++ [e]) as Hx'%Hin by (apply elem_of_app; by left).
    destruct Hx' as [->|[->|(? & ? & ?)]]; [by left|lia|right; repeat split; [lia..|done]].
  - intros [Hxe Hx]. assert (x ∈ edges ++ [e]) as Hx'.
    { apply Hin. destruct Hx as [->|(? & ? & ?)]; [by left|].
      right; right; repeat split; [lia..|done]. }
    apply elem_of_app in Hx' as [Hx'|Hx']; [done|].
    apply list_elem_of_singleton in Hx'. lia.
Qed.

Lemma get_mc_pos_length cb pattern off ps :
  get_mc_pos parse_mc_pattern cb pattern off = Ok ps ->
  (length ps <= length (cb_pos cb))%nat.
Proof.
  unfold get_mc_pos. intros H.
  apply result_bind_inv in H as (pat & _ & H).
  apply result_bind_inv in H as (mask & _ & H).
  pose proof (sublist_length _ _ (mask_select_sublist mask (cb_pos cb))) as Hle.
  destruct off as [v|].
  - apply result_bind_inv in H as (o & _ & H). injection H as <-.
    by rewrite length_fmap.
  - by injection H as <-.
Qed.

(** A sum of [k] count vectors with entries between [0] and [B] has its
    entries between [0] and [k * B]. *)
Lemma foldr_add_cells_bound (w : nat) (B : Z) (members : list (list Z)) :
  Forall (Forall (fun v => 0 <= v <= B)) members ->
  Forall (fun v => 0 <= v <= Z.of_nat (length members) * B)
         (foldr add_cells (zero_cell w) members).
Proof.
  induction 1 as [|a members Ha _ IH]; cbn [foldr length].
  - apply Forall_forall. intros v Hv. apply elem_of_replicate in Hv as [-> _]. lia.
  - apply Forall_lookup. intros j v Hv. unfold add_cells in Hv.
    apply lookup_zip_with_Some in Hv as (x & y & -> & Hx & Hy).
    rewrite Forall_lookup in Ha, IH. specialize (Ha _ _ Hx). specialize (IH _ _ Hy).
    cbn beta in Ha, IH. lia.
Qed.

Lemma bin_total_bound (w : nat) (B : Z) (bins pos : list Z) (cells : list (list Z))
    (i : nat) :
  0 <= B ->
  Forall (Forall (fun v => 0 <= v <= B)) cells ->
  Forall (fun v => 0 <= v <= Z.of_nat (length cells) * B)
         (bin_total w bins i pos cells).
Proof.
  intros HB Hcells. unfold bin_total.
  set (members := snd <$> filter _ (zip pos cells)).
  assert (Hm : Forall (Forall (fun v => 0 <= v <= B)) members).
  { apply Forall_fmap, Forall_forall. intros [p c] Hpc.
    apply list_elem_of_filter in Hpc as [_ Hpc]. cbn.
    apply elem_of_zip_r in Hpc. rewrite Forall_forall in Hcells. by apply Hcells. }
  assert (Hlen : (length members <= length cells)%nat).
  { unfold members. rewrite length_fmap.
    etrans; [apply length_filter|]. rewrite length_zip_with. lia. }
  eapply Forall_impl; [apply (foldr_add_cells_bound w B members Hm)|].
  intros v Hv. cbn beta in Hv. nia.
Qed.

(** X21.  With a bin size and both ends of the region given, on a dataset
    whose counts lie between [0] and [B] with [B] times the number of its
    positions below [2^53]: the positions fetched are those that the
    pattern matches in the codebook of the dataset, shifted by its offset,
    and row [i] of the result is the sum of the counts of those that lie
    in bin [i] of the edges, above its left edge and up to its right edge,
    the first bin taking its left edge as well.  Matched positions outside
    the region are fetched but enter no sum, and every sum is below
    [2^53]. *)
Theorem get_region_ds_bin_rows
    (depth : nat) (self : BaseDSChrom) (mc_type : string) (b s e B : Z)
    (rn : option string) (rd : region_ds) (σ σ' : gmap nat (gmap string pyval)) :
  get_region_ds parse_mc_pattern slice_indexer depth self mc_type
    (Some b) None rn (Some s) (Some e) σ = (Ok rd, σ') ->
  0 <= B ->
  Forall (fun c => Forall (fun v => 0 <= v <= B) (col_data c)) (ds_cols self) ->
  Z.of_nat (length (get_index self)) * B < 2 ^ 53 ->
  exists cb matched edges base_ds,
    codebook self σ = (Ok cb, σ) /\
    get_mc_pos parse_mc_pattern cb mc_type (Some (position_offset σ self)) = Ok matched /\
    fetch_positions slice_indexer depth self matched σ = (Ok base_ds, σ') /\
    get_index base_ds = uint32 <$> np_sort matched /\
    rd_labels rd = LInt <$> edges /\
    StronglySorted Z.lt (edges ++ [e]) /\
    rd_data rd
    = (fun i => bin_total (ds_width self) (edges ++ [e]) i
                  (get_index base_ds) (col_data <$> ds_cols base_ds))
      <$> seq 0 (length edges) /\
    Forall (Forall (fun v => 0 <= v < 2 ^ 53)) (rd_data rd).
Proof.
  intros H HB Hcounts Hsize. apply get_region_ds_bin_inv in H
    as (cb & matched & bins & base_ds & v & cs & Hb & Hv & Hcs & Hbins
        & Hcb & Hm & Hfp & Hix & Hdim & Hlabels & Hdata).
  apply fixed_bins_spec in Hbins as (edges & -> & Hhead & Hsorted & Hin); [|lia].
  rewrite removelast_last in Hlabels, Hdata.
  exists cb, matched, edges, base_ds. do 7 (split; [done|]).
  pose proof (fetch_positions_drawn _ _ _ _ _ _ Hfp) as (Hsub & _ & _).
  pose proof (fetch_positions_index _ _ _ _ _ _ Hfp) as [_ Hlen].
  pose proof (get_mc_pos_length _ _ _ _ Hm) as Hmlen.
  pose proof (codebook_inv _ _ _ _ Hcb) as (_ & _ & Hpos & _).
  rewrite Hpos in Hmlen.
  assert (Hcells : Forall (Forall (fun v => 0 <= v <= B)) (col_data <$> ds_cols base_ds)).
  { apply Forall_fmap, Forall_forall. intros c Hc. cbn.
    rewrite Forall_forall in Hcounts. by apply Hcounts, Hsub. }
  rewrite Hdata. apply Forall_fmap, Forall_forall. intros i _. cbn.
  eapply Forall_impl; [apply (bin_total_bound _ B _ _ _ i HB Hcells)|].
  intros x Hx. cbn beta in Hx. rewrite length_fmap, Hlen in Hx. nia.
Qed.

(** X19.  With a bin size and both ends of the region given, the call
    cannot return when no multiple of the bin size lies between the two
    ends, as for a region narrower than a bin that holds no multiple, or
    for an inverted region: no bin edge is found, and reading the last of
    them raises. *)
Theorem get_region_ds_empty_window
    (depth : nat) (self : BaseDSChrom) (mc_type : string) (b s e : Z)
    (rn : option string) (σ : gmap nat (gmap string pyval)) :
  (forall k, ~ s <= k * b <= e) ->
  is_ok (get_region_ds parse_mc_pattern slice_indexer depth self mc_type
           (Some b) None rn (Some s) (Some e) σ).1 = false.
Proof.
  intros Hnone.
  destruct (get_region_ds _ _ _ _ _ _ _ _ _ _ σ) as [[rd|err] σ'] eqn:H; [|done].
  apply get_region_ds_bin_inv in H
    as (cb & matched & bins & base_ds & v & cs & Hb & _ & _ & Hbins & _).
  rewrite fixed_bins_empty_window in Hbins; [discriminate|lia|].
  intros k _. apply Hnone.
Qed.

(** ** The setter of [continuous] *)

(** X22.  Setting [continuous] is seen by every dataset that shares the
    attributes: the flag reads back as set, clearing it makes the offset
    read zero, setting it keeps the offset, and the attributes of the other
    datasets stay as they are. *)
Theorem set_continuous_read_back
    (self other : BaseDSChrom) (b : bool) (σ : gmap nat (gmap string pyval)) :
  ds_attrs other = ds_attrs self ->
  exists σ',
    set_continuous self (VBool b) σ = (Ok tt, σ') /\
    continuous other σ' = (Ok (VBool b), σ') /\
    offset other σ'
    = (Ok (if b then position_offset σ other else VInt 0), σ') /\
    forall ds, ds_attrs ds <> ds_attrs self ->
               σ' !!! ds_attrs ds = σ !!! ds_attrs ds.
Proof.
  intros Heq. eexists. split; [reflexivity|].
  rewrite run_continuous, run_offset. unfold is_continuous, position_offset.
  rewrite Heq, lookup_total_insert_eq. split; [|split].
  - destruct b; by rewrite ?lookup_delete_ne, lookup_insert_eq.
  - destruct b.
    + by rewrite lookup_insert_ne.
    + by rewrite lookup_delete_eq.
  - intros ds Hne. by rewrite lookup_total_insert_ne.
Qed.

End MoreProperties.

Lemma validate_mc_pattern_normalises_witness :
  "CGN" = upper "cgn" /\
  upper "CGN" = "CGN" /\
  isascii "CGN" = true /\
  String.length "CGN" = String.length "cgn" /\
  _validate_mc_pattern ex_codebook "CGN" = Ok "CGN" /\
  (exists cs, cb_attrs ex_codebook !! "context_size" = Some cs /\
              eq_int cs (Z.of_nat (String.length "CGN")) = true) /\
  (exists cp i c, cb_attrs ex_codebook !! "c_pos" = Some cp /\ as_int cp = Ok i /\
                  str_getitem "CGN" i = Ok c /\ String c EmptyString = "C").
Proof.
  apply (validate_mc_pattern_normalises ex_codebook "cgn" "CGN").
  - reflexivity.
  - reflexivity.
Defined.

Lemma get_mc_pos_subsequence_witness :
  exists o,
    as_int (VInt 100) = Ok o /\
    [101; 104; 107] `sublist_of` ((fun p => p + o) <$> cb_pos ex_codebook).
Proof.
  apply (get_mc_pos_subsequence iupac_parse ex_codebook "CGN" (Some (VInt 100))
           [101; 104; 107]).
  reflexivity.
Defined.


(** ** The further statements on the example chromosome *)

Lemma queries_keep_tracked_witness :
  tracked ex_queried.2 (returned ex_sparse_ds ex_queried).
Proof.
  apply (queries_keep_tracked sorted_slice_indexer 3 ex_queries ex_sparse_ds
           (returned ex_sparse_ds ex_queried) ex_sparse_store ex_queried.2).
  - right. split; [reflexivity|]. split; [reflexivity|].
    eexists. split; reflexivity.
  - apply returned_eq. vm_compute. reflexivity.
Defined.

Lemma queries_draw_from_source_witness :
  drawn_from (returned ex_sparse_ds ex_queried) ex_sparse_ds.
Proof.
  apply (queries_draw_from_source sorted_slice_indexer 3 ex_queries ex_sparse_ds
           (returned ex_sparse_ds ex_queried) ex_sparse_store ex_queried.2).
  apply returned_eq. vm_compute. reflexivity.
Defined.

Lemma fetch_fetch_witness :
  exists r1 σ1 r2 σ2 r σ3,
    fetch sorted_slice_indexer 3 ex_ds (Some 2) (Some 8) ex_store = (Ok r1, σ1) /\
    fetch sorted_slice_indexer 3 r1 (Some 3) (Some 6) σ1 = (Ok r2, σ2) /\
    fetch sorted_slice_indexer 3 ex_ds (Some 3) (Some 6) ex_store = (Ok r, σ3) /\
    ds_cols r2 = ds_cols r /\
    genomic_position σ2 r2 = genomic_position σ3 r /\
    position_offset σ2 r2 = VInt 3 /\
    continuous_ds σ2 r2.
Proof.
  apply (fetch_fetch sorted_slice_indexer 3 ex_ds 2 8 3 6 0 ex_store).
  - lia.
  - split; reflexivity.
  - reflexivity.
  - lia.
  - lia.
  - lia.
  - lia.
Defined.

Lemma fetch_regions_in_window_witness :
  exists r σ',
    fetch_regions sorted_slice_indexer 3 ex_ds [[2; 4]; [6; 9]] ex_store = (Ok r, σ') /\
    genomic_position σ' r = Ok (np_sort (runs [(2, 4); (6, 9)])) /\
    is_continuous σ' r = VBool false /\
    position_offset σ' r = VInt 0 /\
    Forall2 (column_at (seqZ 0 10) ex_ds) (np_sort (runs [(2, 4); (6, 9)])) (ds_cols r).
Proof.
  apply (fetch_regions_in_window sorted_slice_indexer 3 ex_ds [(2, 4); (6, 9)]
           (seqZ 0 10) ex_store).
  - lia.
  - reflexivity.
  - discriminate.
  - repeat (constructor; [unfold interval_le; simpl; lia|]). constructor.
  - apply (bool_decide_unpack _). vm_compute. exact I.
  - left. split; [split; reflexivity|discriminate].
Defined.

Lemma fetch_positions_missing_position_witness :
  fetch_positions sorted_slice_indexer 3 ex_gap_ds [1; 5] ex_sparse_store
  = (Err (KeyError "not all values found in index 'pos'"), ex_sparse_store).
Proof.
  apply (fetch_positions_missing_position sorted_slice_indexer 3 ex_gap_ds
           [1; 5] 5 ex_sparse_store).
  - lia.
  - split; [reflexivity|]. split; [reflexivity|].
    exists [1; 4; 7]. split; [reflexivity|]. split; [|reflexivity].
    apply (bool_decide_unpack _). vm_compute. exact I.
  - repeat (constructor; [lia|]). constructor.
  - apply (bool_decide_unpack _). vm_compute. exact I.
  - apply (bool_decide_unpack _). vm_compute. exact I.
Defined.

Lemma fetch_sparse_gap_witness :
  fetch sorted_slice_indexer 3 ex_gap_ds (Some 1) (Some 5) ex_sparse_store
  = (Err (KeyError "not all values found in index 'pos'"), ex_sparse_store).
Proof.
  apply (fetch_sparse_gap sorted_slice_indexer 3 ex_gap_ds 1 5 2 ex_sparse_store).
  - lia.
  - split; [reflexivity|]. split; [reflexivity|].
    exists [1; 4; 7]. split; [reflexivity|]. split; [|reflexivity].
    apply (bool_decide_unpack _). vm_compute. exact I.
  - lia.
  - lia.
  - lia.
  - lia.
  - apply (bool_decide_unpack _). vm_compute. exact I.
Defined.

Lemma fetch_positions_beyond_window_witness :
  (fetch_positions sorted_slice_indexer 3 ex_ds [3; 12] ex_store).1 = Err IndexError.
Proof.
  apply (fetch_positions_beyond_window sorted_slice_indexer 3 ex_ds [3; 12] 0 12
           ex_store).
  - lia.
  - split; reflexivity.
  - reflexivity.
  - repeat (constructor; [lia|]). constructor.
  - apply (bool_decide_unpack _). vm_compute. exact I.
  - simpl. lia.
Defined.

Lemma fetch_positions_after_duplicates_witness :
  fetch_positions sorted_slice_indexer 3 (returned ex_ds ex_fetched_twice) [1]
    ex_fetched_twice.2
  = (Err InvalidIndexError, ex_fetched_twice.2).
Proof.
  apply (fetch_positions_after_duplicates sorted_slice_indexer 3 ex_ds
           (returned ex_ds ex_fetched_twice) [3; 1; 3] [1] ex_store
           ex_fetched_twice.2).
  - repeat (constructor; [lia|]). constructor.
  - apply (bool_decide_unpack _). vm_compute. exact I.
  - apply returned_eq. vm_compute. reflexivity.
Defined.

Lemma wrong_length_pattern_witness :
  select_mc_type iupac_parse sorted_slice_indexer 3 ex_ds "CG" ex_store
  = (Err (ValueError "The length of mc_pattern is not equal to context_size."),
     ex_store) /\
  get_region_ds iupac_parse sorted_slice_indexer 3 ex_ds "CG"
    (Some 5) None None None None ex_store
  = (Err (ValueError "The length of mc_pattern is not equal to context_size."),
     ex_store).
Proof.
  apply (wrong_length_pattern iupac_parse sorted_slice_indexer 3 ex_ds "CG"
           (VInt 0) 3 5 0 None None None ex_store).
  - reflexivity.
  - reflexivity.
  - reflexivity.
  - simpl. lia.
  - reflexivity.
  - lia.
Defined.

Lemma get_region_ds_shape_witness :
  length (rd_data (returned ex_region_ds ex_binned))
  = length (rd_labels (returned ex_region_ds ex_binned)) /\
  (Forall (fun c => length (col_data c) = ds_width ex_sparse_ds) (ds_cols ex_sparse_ds) ->
   Forall (fun row => length row = ds_width ex_sparse_ds)
          (rd_data (returned ex_region_ds ex_binned))).
Proof.
  apply (get_region_ds_shape iupac_parse sorted_slice_indexer 3 ex_sparse_ds "CGN"
           (Some 2) None None (Some 0) (Some 6)
           (returned ex_region_ds ex_binned) ex_sparse_store ex_binned.2).
  apply returned_eq. vm_compute. reflexivity.
Defined.


Lemma get_region_ds_bin_edges_witness :
  exists edges v cs,
    (ex_binned.2 !!! ds_attrs ex_sparse_ds) !! "chrom_size" = Some v /\
    as_int v = Ok cs /\
    rd_labels (returned ex_region_ds ex_binned) = LInt <$> edges /\
    rd_dim (returned ex_region_ds ex_binned) = default "pos_bins" None /\
    head (edges ++ [6]) = Some 0 /\
    StronglySorted Z.lt (edges ++ [6]) /\
    forall x, x ∈ edges <->
              x < 6 /\ (x = 0 \/ (0 <= x /\ 0 <= x < cs /\ (2 | x))).
Proof.
  apply (get_region_ds_bin_edges iupac_parse sorted_slice_indexer 3 ex_sparse_ds
           "CGN" 2 0 6 None (returned ex_region_ds ex_binned)
           ex_sparse_store ex_binned.2).
  apply returned_eq. vm_compute. reflexivity.
Defined.

Lemma get_region_ds_empty_window_witness :
  is_ok (get_region_ds iupac_parse sorted_slice_indexer 3 ex_sparse_ds "CGN"
           (Some 5) None None (Some 3) (Some 4) ex_sparse_store).1 = false.
Proof.
  apply (get_region_ds_empty_window iupac_parse sorted_slice_indexer 3 ex_sparse_ds
           "CGN" 5 3 4 None ex_sparse_store).
  intros k Hk. lia.
Defined.

Lemma get_region_ds_bin_rows_witness :
  exists cb matched edges base_ds,
    codebook ex_sparse_ds ex_sparse_store = (Ok cb, ex_sparse_store) /\
    get_mc_pos iupac_parse cb "CGN" (Some (position_offset ex_sparse_store ex_sparse_ds))
    = Ok matched /\
    fetch_positions sorted_slice_indexer 3 ex_sparse_ds matched ex_sparse_store
    = (Ok base_ds, ex_binned.2) /\
    get_index base_ds = uint32 <$> np_sort matched /\
    rd_labels (returned ex_region_ds ex_binned) = LInt <$> edges /\
    StronglySorted Z.lt (edges ++ [6]) /\
    rd_data (returned ex_region_ds ex_binned)
    = (fun i => bin_total (ds_width ex_sparse_ds) (edges ++ [6]) i
                  (get_index base_ds) (col_data <$> ds_cols base_ds))
      <$> seq 0 (length edges) /\
    Forall (Forall (fun v => 0 <= v < 2 ^ 53)) (rd_data (returned ex_region_ds ex_binned)).
Proof.
  apply (get_region_ds_bin_rows iupac_parse sorted_slice_indexer 3 ex_sparse_ds
           "CGN" 2 0 6 20 None (returned ex_region_ds ex_binned)
           ex_sparse_store ex_binned.2).
  - apply returned_eq. vm_compute. reflexivity.
  - lia.
  - repeat (constructor; [repeat (constructor; [lia|]); constructor|]). constructor.
  - vm_compute. reflexivity.
Defined.

Lemma set_continuous_read_back_witness :
  exists σ',
    set_continuous ex_ds (VBool false) ex_store = (Ok tt, σ') /\
    continuous ex_ds σ' = (Ok (VBool false), σ') /\
    offset ex_ds σ' = (Ok (VInt 0), σ') /\
    forall ds, ds_attrs ds <> ds_attrs ex_ds ->
               σ' !!! ds_attrs ds = ex_store !!! ds_attrs ds.
Proof.
  apply (set_continuous_read_back ex_ds ex_ds false ex_store).
  reflexivity.
Defined.
